(** * Texas Hold'em table: deck, hand evaluator and betting engine

    A shallow embedding of [src/utils/pokerLogic.ts], [src/constants.ts],
    [src/types.ts] and of the game engine of [src/App.tsx] (with the
    blind assignment and the seating handlers of the seat-based variant
    of the same component), followed by the properties of the
    specification checked against it and by further properties of the
    evaluator, of the betting handlers, of the start of a hand and of
    the seating.

    Conventions of the embedding.
    - JS numbers that the engine only ever adds, subtracts and compares
      (chips, bets, pot, scores) are [Z]: they are integers, and below
      2^53 the arithmetic of JS numbers on integers is exact. Array
      indices are [nat].
    - An array is a [list]; [a[i]] is [a !! i], which is [None] where the
      source reads [undefined].
    - [Math.random] is an oracle passed as an argument.
    - A source function that can throw a [TypeError] returns an [option];
      [None] is the throw. *)

From stdpp Require Import base tactics option list numbers strings gmap pretty sorting.
From Stdlib Require Import ZArith Lia.

#[local] Set Warnings "-clear-no-such-hyp".

Local Open Scope Z_scope.

(* ===================================================================== *)
(** ** types.ts *)
(* ===================================================================== *)

Inductive Suit := Hearts | Diamonds | Clubs | Spades.

Inductive Rank :=
  | Two | Three | Four | Five | Six | Seven | Eight | Nine | Ten
  | Jack | Queen | King | Ace.

#[global] Instance Suit_eq_dec : EqDecision Suit.
Proof. solve_decision. Defined.
#[global] Instance Rank_eq_dec : EqDecision Rank.
Proof. solve_decision. Defined.

(** The string value of each enum member. *)
Definition Suit_value (s : Suit) : string :=
  match s with
  | Hearts => "♥" | Diamonds => "♦" | Clubs => "♣" | Spades => "♠"
  end.

Definition Rank_value (r : Rank) : string :=
  match r with
  | Two => "2" | Three => "3" | Four => "4" | Five => "5" | Six => "6"
  | Seven => "7" | Eight => "8" | Nine => "9" | Ten => "10"
  | Jack => "J" | Queen => "Q" | King => "K" | Ace => "A"
  end.

(** [Card.id] is called [card_id] here, [Player.id] keeps its name. *)
Record Card := mkCard { suit : Suit; rank : Rank; card_id : string }.

#[global] Instance Card_eq_dec : EqDecision Card.
Proof. solve_decision. Defined.

Inductive GamePhase := Setup | PreFlop | Flop | Turn | River | Showdown.

Inductive PlayerStatus := Active | Folded | AllIn | Busted.

#[global] Instance GamePhase_eq_dec : EqDecision GamePhase.
Proof. solve_decision. Defined.
#[global] Instance PlayerStatus_eq_dec : EqDecision PlayerStatus.
Proof. solve_decision. Defined.

Record Player := mkPlayer {
  id : string;
  name : string;
  chips : Z;
  bet : Z;
  hand : list Card;
  status : PlayerStatus;
  isDealer : bool;
  isSmallBlind : bool;
  isBigBlind : bool;
  seatIndex : nat
}.

(** [bestFive] holds [None] where the source's array holds [undefined]. *)
Record HandEvaluation := mkEval {
  score : Z;
  rankName : string;
  bestFive : list (option Card)
}.

Inductive LogType := info | action | winner | gemini.

(** A log entry; its [id] and [timestamp] come from the clock and are read
    by no handler, they are left out. *)
Record LogEntry := mkLog { message : string; type : LogType }.

(* ===================================================================== *)
(** ** constants.ts *)
(* ===================================================================== *)

Definition RANKS : list Rank :=
  [Two; Three; Four; Five; Six; Seven; Eight; Nine; Ten; Jack; Queen; King; Ace].

Definition SUITS : list Suit := [Hearts; Diamonds; Clubs; Spades].

Definition RANK_VALUE (r : Rank) : Z :=
  match r with
  | Two => 2 | Three => 3 | Four => 4 | Five => 5 | Six => 6 | Seven => 7
  | Eight => 8 | Nine => 9 | Ten => 10 | Jack => 11 | Queen => 12
  | King => 13 | Ace => 14
  end.

(* ===================================================================== *)
(** ** utils/pokerLogic.ts: the deck *)
(* ===================================================================== *)

Module Deck.

(** [createDeck]: for each suit, for each rank, push a card. [token k] is
    the text of the k-th [Math.random()] of the call. *)
Definition push_card (token : nat → string) (s : Suit) (deck : list Card) (r : Rank)
    : list Card :=
  deck ++ [mkCard s r (Rank_value r +:+ "-" +:+ Suit_value s +:+ "-" +:+ token (length deck))].

Definition createDeck (token : nat → string) : list Card :=
  foldl (λ deck s, foldl (push_card token s) deck RANKS) [] SUITS.

(** Arrays live in a store, so that the copy made by [shuffleDeck] and the
    array it was given are distinct objects. *)
Abbreviation Store := (gmap nat (list Card)).

(** [[a[i], a[j]] = [a[j], a[i]]]: both reads, then the two writes. *)
Definition swap (i j : nat) (a : list Card) : list Card :=
  match a !! j, a !! i with
  | Some aj, Some ai => <[j := ai]> (<[i := aj]> a)
  | _, _ => a
  end.

(** The loop [for (i = length - 1; i > 0; i--)]. [draw k] is the k-th
    random draw; [Math.floor(Math.random() * (i + 1))] lies in [0, i] and is
    taken as [draw k mod (i + 1)]. *)
Fixpoint shuffle_loop (draw : nat → nat) (k : nat) (newDeck : nat) (i : nat)
    (σ : Store) : Store :=
  match i with
  | O => σ
  | S i' =>
      let j := (draw k `mod` (i + 1))%nat in
      shuffle_loop draw (S k) newDeck i'
        (<[newDeck := swap i j (default [] (σ !! newDeck))]> σ)
  end.

(** [shuffleDeck(deck)]: [deck] is the address of the argument; returns the
    address of the new array and the store. *)
Definition shuffleDeck (draw : nat → nat) (deck : nat) (σ : Store) : nat * Store :=
  let newDeck := fresh (dom σ) in
  let copy := default [] (σ !! deck) in
  (newDeck, shuffle_loop draw 0 newDeck (length copy - 1) (<[newDeck := copy]> σ)).

(** [shuffleDeck(createDeck())] as a value. *)
Definition freshShuffledDeck (token : nat → string) (draw : nat → nat) : list Card :=
  let '(l, σ) := shuffleDeck draw 0%nat {[ 0%nat := createDeck token ]} in
  default [] (σ !! l).

End Deck.

(* ===================================================================== *)
(** ** utils/pokerLogic.ts: hand evaluation *)
(* ===================================================================== *)

Module Evaluator.

Definition value (c : Card) : Z := RANK_VALUE (rank c).

(** [Array.prototype.sort] with the comparator [(a, b) => key b - key a]:
    descending, and stable as the language requires. *)
Fixpoint insert_desc {A} (key : A → Z) (x : A) (l : list A) : list A :=
  match l with
  | [] => [x]
  | y :: l' => if decide (key x < key y) then y :: insert_desc key x l' else x :: l
  end.

Definition sort_desc {A} (key : A → Z) (l : list A) : list A :=
  foldr (insert_desc key) [] l.

(** [if (x)] on a [number | null]: null and 0 are falsy. *)
Definition truthy (o : option Z) : option Z :=
  match o with
  | Some v => if decide (v = 0) then None else Some v
  | None => None
  end.

(** [getFlushSuit]: [counts] is keyed by the suit's string. *)
Fixpoint getFlushSuit_loop (counts : gmap string nat) (cards : list Card) : option Suit :=
  match cards with
  | [] => None
  | c :: rest =>
      let n := (default 0 (counts !! Suit_value (suit c)) + 1)%nat in
      if decide (5 ≤ n)%nat then Some (suit c)
      else getFlushSuit_loop (<[Suit_value (suit c) := n]> counts) rest
  end.

Definition getFlushSuit (cards : list Card) : option Suit := getFlushSuit_loop ∅ cards.

(** [Array.from(new Set(xs))]: first occurrences, in order. *)
Definition set_values (xs : list Z) : list Z :=
  foldl (λ acc v, if decide (v ∈ acc) then acc else acc ++ [v]) [] xs.

(** The scan of [getStraightHigh]; [steps] are the values [i] takes. A
    read past the end of the array is [undefined], the difference is then
    not 1. *)
Fixpoint straight_scan (uniqueValues : list Z) (steps : list nat) (streak : nat)
    : option Z :=
  match steps with
  | [] => None
  | i :: rest =>
      match uniqueValues !! i, uniqueValues !! (i + 1)%nat with
      | Some a, Some b =>
          if decide (a - b = 1) then
            if decide (4 ≤ S streak)%nat then uniqueValues !! (i - 3)%nat
            else straight_scan uniqueValues rest (S streak)
          else straight_scan uniqueValues rest 0
      | _, _ => straight_scan uniqueValues rest 0
      end
  end.

Definition with_low_ace (uniqueValues : list Z) : list Z :=
  if decide (14 ∈ uniqueValues) then uniqueValues ++ [1] else uniqueValues.

Definition straight_high_of (uniqueValues : list Z) : option Z :=
  let uv := with_low_ace uniqueValues in
  straight_scan uv (seq 0 (length uv - 1)) 0.

(** [uniqueValues] as first built: the distinct rank values, descending. *)
Definition uniqueValues (cards : list Card) : list Z :=
  sort_desc (λ v, v) (set_values (value <$> cards)).

Definition getStraightHigh (cards : list Card) : option Z :=
  straight_high_of (uniqueValues cards).

(** The own keys of a JS object are enumerated array-index keys first, in
    ascending numeric order, then the other string keys in creation order.
    The rank strings "2" .. "10" are array-index keys; "J", "Q", "K" and
    "A" are not. *)
Definition digit (a : Ascii.ascii) : option nat :=
  let n := Ascii.nat_of_ascii a in
  if decide (48 ≤ n ≤ 57)%nat then Some (n - 48)%nat else None.

Fixpoint digits_value (acc : nat) (s : string) : option nat :=
  match s with
  | EmptyString => Some acc
  | String a s' => d ← digit a; digits_value (10 * acc + d)%nat s'
  end.

Definition array_index (k : string) : option nat :=
  match k with
  | EmptyString => None
  | String a s' =>
      if decide (Ascii.nat_of_ascii a = 48)%nat
      then (if decide (s' = EmptyString) then Some 0%nat else None)
      else n ← digits_value 0 k; if decide (Z.of_nat n < 4294967295) then Some n else None
  end.

(** Does a new key [k] come before the existing key [k']? *)
Definition key_before (k k' : string) : bool :=
  match array_index k, array_index k' with
  | Some n, Some n' => bool_decide (n < n')%nat
  | Some _, None => true
  | None, _ => false
  end.

Fixpoint insert_key (k : string) (c : Card) (o : list (string * list Card))
    : list (string * list Card) :=
  match o with
  | [] => [(k, [c])]
  | (k', cs) :: o' =>
      if key_before k k' then (k, [c]) :: o else (k', cs) :: insert_key k c o'
  end.

Fixpoint push_at (k : string) (c : Card) (o : list (string * list Card))
    : list (string * list Card) :=
  match o with
  | [] => []
  | (k', cs) :: o' =>
      if decide (k = k') then (k', cs ++ [c]) :: o' else (k', cs) :: push_at k c o'
  end.

(** [if (!counts[k]) counts[k] = []; counts[k].push(c)] *)
Definition count_card (counts : list (string * list Card)) (c : Card)
    : list (string * list Card) :=
  let k := Rank_value (rank c) in
  if decide (k ∈ counts.*1) then push_at k c counts else insert_key k c counts.

(** [getNOfAKind]: the first key, in enumeration order, with at least [n]
    cards. *)
Definition getNOfAKind (cards : list Card) (n : nat) : option (list Card) :=
  let counts := foldl count_card [] cards in
  (λ kc, take n kc.2) <$> List.find (λ kc, bool_decide (n ≤ length kc.2)%nat) counts.

(** [evaluateHand]. The result is [None] where the source reads a property
    of [undefined] ([x[0].rank] on an empty array): with no card at all,
    and in branches that cannot be reached, [getNOfAKind] returning [n]
    cards and the flush suit having cards. *)
Definition evaluateHand (holeCards communityCards : list Card) : option HandEvaluation :=
  let allCards := sort_desc value (holeCards ++ communityCards) in
  let flushSuit := getFlushSuit allCards in
  let straightHigh := getStraightHigh allCards in
  let flushCardsOf (s : Suit) := filter (λ c, suit c = s) allCards in
  (* 1. Straight Flush *)
  let straightFlush :=
    match flushSuit, truthy straightHigh with
    | Some s, Some _ =>
        match truthy (getStraightHigh (flushCardsOf s)) with
        | Some sfHigh =>
            Some (mkEval (800 + sfHigh) "Straight Flush" (Some <$> take 5 (flushCardsOf s)))
        | None => None
        end
    | _, _ => None
    end in
  match straightFlush with
  | Some e => Some e
  | None =>
  (* 2. Four of a Kind *)
  match getNOfAKind allCards 4 with
  | Some [] => None
  | Some (q0 :: quads') =>
      Some (mkEval (700 + value q0) "Four of a Kind" (Some <$> q0 :: quads'))
  | None =>
  (* 3. Full House *)
  let trips := getNOfAKind allCards 3 in
  match trips with
  | Some [] => None
  | _ =>
  let fullHouse :=
    match trips with
    | Some (t0 :: trips') =>
        match getNOfAKind (filter (λ c, rank c ≠ rank t0) allCards) 2 with
        | Some pair' =>
            Some (mkEval (600 + value t0) "Full House" (Some <$> (t0 :: trips') ++ pair'))
        | None => None
        end
    | _ => None
    end in
  match fullHouse with
  | Some e => Some e
  | None =>
  (* 4. Flush *)
  match flushSuit with
  | Some s =>
      match flushCardsOf s with
      | f0 :: _ =>
          Some (mkEval (500 + value f0) "Flush" (Some <$> take 5 (flushCardsOf s)))
      | [] => None
      end
  | None =>
  (* 5. Straight *)
  match truthy straightHigh with
  | Some sh => Some (mkEval (400 + sh) "Straight" (Some <$> take 5 allCards))
  | None =>
  (* 6. Three of a Kind *)
  match trips with
  | Some (t0 :: trips') =>
      let kickers := take 2 (filter (λ c, rank c ≠ rank t0) allCards) in
      Some (mkEval (300 + value t0) "Three of a Kind" (Some <$> (t0 :: trips') ++ kickers))
  | _ =>
  (* 7. Two Pair *)
  match getNOfAKind allCards 2 with
  | Some [] => None
  | Some (p0 :: pair1') =>
      let remaining := filter (λ c, rank c ≠ rank p0) allCards in
      match getNOfAKind remaining 2 with
      | Some [] => None
      | Some (r0 :: pair2') =>
          let kicker := head (filter (λ c, rank c ≠ rank p0 ∧ rank c ≠ rank r0) allCards) in
          Some (mkEval (200 + value p0) "Two Pair"
                  ((Some <$> (p0 :: pair1') ++ (r0 :: pair2')) ++ [kicker]))
      | None =>
          (* 8. One Pair *)
          let kickers := take 3 remaining in
          Some (mkEval (100 + value p0) "Pair" (Some <$> (p0 :: pair1') ++ kickers))
      end
  | None =>
  (* 9. High Card *)
  match allCards with
  | a0 :: _ => Some (mkEval (value a0) "High Card" (Some <$> take 5 allCards))
  | [] => None
  end
  end end end end end end end end.

End Evaluator.

(* ===================================================================== *)
(** ** App.tsx: table state *)
(* ===================================================================== *)

(** The component keeps the table in [useState] cells. A handler is a
    closure of one render: it reads the cells as they were at that render
    ([env] below) and queues updates ([st] below is the table that holds
    them); it returns the table after it ran. The [Player] objects are
    shared by every copy of a [players] array ([[...players]] copies the
    array, not the objects) and are mutated in place, so a read of a
    player field sees the latest write, whichever render the closure
    belongs to: [players env] stands for the array of the render, holding
    what its objects hold when the handler runs.

    A handler started by a click belongs to the latest render: [env] is
    the table. [moveToNextPlayer] runs at the end of such a handler, which
    has just written to the objects of the array of its render and queued
    a copy of that array: it reads these objects in [players st].
    [nextPhase] runs later, from a timer: it copies the array of its own
    render, [players env], and queues that copy, whatever array the table
    holds by then. *)

Record TableState := mkTable {
  phase : GamePhase;
  players : list Player;
  deck : list Card;
  communityCards : list Card;
  pot : Z;
  currentBet : Z;
  activePlayerIdx : nat;
  dealerIdx : nat;
  winnerIdx : option Z;
  gameLogs : list LogEntry;
  showCards : bool;
  autoNextTimer : option Z
}.

Definition setPhase (v : GamePhase) (t : TableState) : TableState :=
  mkTable v (players t) (deck t) (communityCards t) (pot t) (currentBet t)
    (activePlayerIdx t) (dealerIdx t) (winnerIdx t) (gameLogs t) (showCards t) (autoNextTimer t).
Definition setPlayers (v : list Player) (t : TableState) : TableState :=
  mkTable (phase t) v (deck t) (communityCards t) (pot t) (currentBet t)
    (activePlayerIdx t) (dealerIdx t) (winnerIdx t) (gameLogs t) (showCards t) (autoNextTimer t).
Definition setDeck (v : list Card) (t : TableState) : TableState :=
  mkTable (phase t) (players t) v (communityCards t) (pot t) (currentBet t)
    (activePlayerIdx t) (dealerIdx t) (winnerIdx t) (gameLogs t) (showCards t) (autoNextTimer t).
Definition setCommunityCards (v : list Card) (t : TableState) : TableState :=
  mkTable (phase t) (players t) (deck t) v (pot t) (currentBet t)
    (activePlayerIdx t) (dealerIdx t) (winnerIdx t) (gameLogs t) (showCards t) (autoNextTimer t).
Definition setPot (v : Z) (t : TableState) : TableState :=
  mkTable (phase t) (players t) (deck t) (communityCards t) v (currentBet t)
    (activePlayerIdx t) (dealerIdx t) (winnerIdx t) (gameLogs t) (showCards t) (autoNextTimer t).
Definition setCurrentBet (v : Z) (t : TableState) : TableState :=
  mkTable (phase t) (players t) (deck t) (communityCards t) (pot t) v
    (activePlayerIdx t) (dealerIdx t) (winnerIdx t) (gameLogs t) (showCards t) (autoNextTimer t).
Definition setActivePlayerIdx (v : nat) (t : TableState) : TableState :=
  mkTable (phase t) (players t) (deck t) (communityCards t) (pot t) (currentBet t)
    v (dealerIdx t) (winnerIdx t) (gameLogs t) (showCards t) (autoNextTimer t).
Definition setDealerIdx (v : nat) (t : TableState) : TableState :=
  mkTable (phase t) (players t) (deck t) (communityCards t) (pot t) (currentBet t)
    (activePlayerIdx t) v (winnerIdx t) (gameLogs t) (showCards t) (autoNextTimer t).
Definition setWinnerIdx (v : option Z) (t : TableState) : TableState :=
  mkTable (phase t) (players t) (deck t) (communityCards t) (pot t) (currentBet t)
    (activePlayerIdx t) (dealerIdx t) v (gameLogs t) (showCards t) (autoNextTimer t).
Definition setShowCards (v : bool) (t : TableState) : TableState :=
  mkTable (phase t) (players t) (deck t) (communityCards t) (pot t) (currentBet t)
    (activePlayerIdx t) (dealerIdx t) (winnerIdx t) (gameLogs t) v (autoNextTimer t).
Definition setAutoNextTimer (v : option Z) (t : TableState) : TableState :=
  mkTable (phase t) (players t) (deck t) (communityCards t) (pot t) (currentBet t)
    (activePlayerIdx t) (dealerIdx t) (winnerIdx t) (gameLogs t) (showCards t) v.

(** [addLog] appends with a functional update, so it always extends the
    current log. *)
Definition addLog (m : string) (ty : LogType) (t : TableState) : TableState :=
  mkTable (phase t) (players t) (deck t) (communityCards t) (pot t) (currentBet t)
    (activePlayerIdx t) (dealerIdx t) (winnerIdx t) (gameLogs t ++ [mkLog m ty])
    (showCards t) (autoNextTimer t).

(** Writes to the fields of a player object. *)
Definition with_chips (v : Z) (p : Player) : Player :=
  mkPlayer (id p) (name p) v (bet p) (hand p) (status p)
    (isDealer p) (isSmallBlind p) (isBigBlind p) (seatIndex p).
Definition with_bet (v : Z) (p : Player) : Player :=
  mkPlayer (id p) (name p) (chips p) v (hand p) (status p)
    (isDealer p) (isSmallBlind p) (isBigBlind p) (seatIndex p).
Definition with_hand (v : list Card) (p : Player) : Player :=
  mkPlayer (id p) (name p) (chips p) (bet p) v (status p)
    (isDealer p) (isSmallBlind p) (isBigBlind p) (seatIndex p).
Definition with_status (v : PlayerStatus) (p : Player) : Player :=
  mkPlayer (id p) (name p) (chips p) (bet p) (hand p) v
    (isDealer p) (isSmallBlind p) (isBigBlind p) (seatIndex p).
Definition with_isDealer (v : bool) (p : Player) : Player :=
  mkPlayer (id p) (name p) (chips p) (bet p) (hand p) (status p)
    v (isSmallBlind p) (isBigBlind p) (seatIndex p).
Definition with_isSmallBlind (v : bool) (p : Player) : Player :=
  mkPlayer (id p) (name p) (chips p) (bet p) (hand p) (status p)
    (isDealer p) v (isBigBlind p) (seatIndex p).
Definition with_isBigBlind (v : bool) (p : Player) : Player :=
  mkPlayer (id p) (name p) (chips p) (bet p) (hand p) (status p)
    (isDealer p) (isSmallBlind p) v (seatIndex p).

(** What a handler leaves behind for later: [setTimeout(nextPhase, ms)], or
    the one-second interval that counts [autoNextTimer] down and then starts
    the next hand. The callback is the one of the render that scheduled
    it. *)
Inductive Scheduled :=
  | NextPhaseAfter (ms : nat)
  | NextHandCountdown (seconds : Z).

(** [Array.prototype.findIndex], -1 when nothing matches. *)
Fixpoint findIndex {A} (f : A → bool) (l : list A) : Z :=
  match l with
  | [] => -1
  | x :: l' => if f x then 0 else
      let r := findIndex f l' in if decide (r < 0) then -1 else 1 + r
  end.

(** [Array.prototype.pop]: the last element, [None] on an empty array. *)
Definition pop {A} (a : list A) : option A * list A := (last a, take (length a - 1) a).

(** [reduce((acc, p) => acc + p.bet, 0)] and the like. *)
Definition sum_of (f : Player → Z) (ps : list Player) : Z :=
  foldl (λ acc p, acc + f p) 0 ps.

(** The loop shared by [moveToNextPlayer] and [nextPhase]:
    [while (skip(a[idx].status) && count < a.length) { idx = (idx + 1) % a.length; count++ }],
    with [budget] the iterations still allowed. [None] is the [TypeError]
    of reading [.status] of [undefined]. *)
Fixpoint scan (skip : PlayerStatus → bool) (a : list Player) (idx budget : nat)
    : option nat :=
  match a !! idx with
  | None => None
  | Some p =>
      if skip (status p) then
        match budget with
        | O => Some idx
        | S b => scan skip a ((idx + 1) `mod` length a)%nat b
        end
      else Some idx
  end.

(** The chip total the specification asks to stay constant. *)
Definition chip_total (t : TableState) : Z :=
  pot t + sum_of chips (players t) + sum_of bet (players t).

(* ===================================================================== *)
(** ** App.tsx: the engine *)
(* ===================================================================== *)

Module App.

Import Evaluator.

Definition BIG_BLIND : Z := 20.
Definition SMALL_BLIND : Z := 10.

(** [p.status !== Folded && p.status !== Busted] *)
Definition in_hand (p : Player) : bool :=
  bool_decide (status p ≠ Folded ∧ status p ≠ Busted).

(** The reset of [startNewHand]'s [map]. *)
Definition reset_player (p : Player) : Player :=
  mkPlayer (id p) (name p) (chips p) 0 []
    (if decide (chips p > 0) then Active else Busted) false false false (seatIndex p).

(** [p.hand = [newDeck.pop()!, newDeck.pop()!]]. A [pop] of an empty deck
    yields [undefined]; such an entry is dropped from the modelled hand (a
    deck of 52 serves 26 players, the table seats 9). *)
Definition deal_hand (acc : list Player * list Card) (p : Player)
    : list Player * list Card :=
  let '(c1, d1) := pop acc.2 in
  let '(c2, d2) := pop d1 in
  (acc.1 ++ [with_hand (option_list c1 ++ option_list c2) p], d2).

(** [amt = Math.min(p.chips, blind); p.chips -= amt; p.bet = amt] *)
Definition blind_amount (blind : Z) (p : Player) : Z := Z.min (chips p) blind.
Definition post_blind (blind : Z) (p : Player) : Player :=
  with_bet (blind_amount blind p) (with_chips (chips p - blind_amount blind p) p).

Definition startNewHand (token : nat → string) (draw : nat → nat)
    (newDealerIdx : nat) (currentPlayers : list Player) (st : TableState)
    : TableState :=
  let st := setAutoNextTimer None st in
  let newDeck := Deck.freshShuffledDeck token draw in
  let resetPlayers := filter (λ p, status p ≠ Busted) (reset_player <$> currentPlayers) in
  if decide (length resetPlayers < 2)%nat then
    setPlayers resetPlayers (setPhase Setup
      (addLog ("Game Over! " +:+ default "undefined" (name <$> head resetPlayers)
               +:+ " wins everything!") winner st))
  else
    let n := length resetPlayers in
    let sbIdx := ((newDealerIdx + 1) `mod` n)%nat in
    let bbIdx := ((newDealerIdx + 2) `mod` n)%nat in
    let resetPlayers := alter (with_isDealer true) (newDealerIdx `mod` n)%nat resetPlayers in
    let resetPlayers := alter (with_isSmallBlind true) sbIdx resetPlayers in
    let resetPlayers := alter (with_isBigBlind true) bbIdx resetPlayers in
    let dealt := foldl deal_hand ([], newDeck) resetPlayers in
    let resetPlayers := dealt.1 in
    let newDeck := dealt.2 in
    let sbAmt := default 0 (blind_amount SMALL_BLIND <$> resetPlayers !! sbIdx) in
    let resetPlayers := alter (post_blind SMALL_BLIND) sbIdx resetPlayers in
    let bbAmt := default 0 (blind_amount BIG_BLIND <$> resetPlayers !! bbIdx) in
    let resetPlayers := alter (post_blind BIG_BLIND) bbIdx resetPlayers in
    let potStart := 0 + sbAmt + bbAmt in
    addLog ("New Hand. Blinds " +:+ pretty SMALL_BLIND +:+ "/" +:+ pretty BIG_BLIND) info
      (setPhase PreFlop
      (setActivePlayerIdx ((bbIdx + 1) `mod` n)%nat
      (setShowCards false
      (setWinnerIdx None
      (setDealerIdx newDealerIdx
      (setCurrentBet BIG_BLIND
      (setPot potStart
      (setCommunityCards []
      (setDeck newDeck
      (setPlayers resetPlayers st)))))))))).

(** [handleShowdown]. It is declared [async] but awaits nothing and runs
    to its end when called. The commentary requested from the text service
    arrives later as one more log entry and is not part of the handler.
    [None] from [evaluateHand] is a throw inside the loop: only the phase
    has been set by then. *)
Definition showdown_step (community : list Card)
    (acc : option (Z * option Player * string)) (p : Player)
    : option (Z * option Player * string) :=
  best ← acc;
  evalResult ← evaluateHand (hand p) community;
  Some (if decide (score evalResult > best.1.1)
        then (score evalResult, Some p, rankName evalResult)
        else best).

Definition handleShowdown (env st : TableState) : TableState * option Scheduled :=
  let st := setPhase Showdown st in
  let activePlayers := filter in_hand (players st) in
  if decide (length activePlayers = 0)%nat then (st, None) else
  match foldl (showdown_step (communityCards env)) (Some (-1, None, EmptyString)) activePlayers with
  | None => (st, None)
  | Some (_, None, _) => (st, None)
  | Some (_, Some w, winDesc) =>
      let wIdx := findIndex (λ p, bool_decide (id p = id w)) (players st) in
      let newPlayers :=
        if decide (wIdx < 0) then players st
        else alter (λ p, with_chips (chips p + pot env) p) (Z.to_nat wIdx) (players st) in
      (setAutoNextTimer (Some 8)
        (addLog "Gemini is analyzing..." info
        (addLog (name w +:+ " wins " +:+ pretty (pot env) +:+ " chips with "
                 +:+ winDesc +:+ "!") winner
        (setPlayers newPlayers
        (setWinnerIdx (Some wIdx) st)))),
       Some (NextHandCountdown 8))
  end.

(** [nextPhase], the callback of [setTimeout]. [newPlayers] is a copy of
    the [players] array of the render the callback belongs to; the bets of
    its objects are zeroed and it becomes the array of the table.
    [handleShowdown], called at the end, belongs to the same render and
    reads the same objects, which the table [st] holds by then.
    [currentDeck.pop()!] on an empty deck is [undefined], which the source
    pushes onto the board; the next render then fails at [c.id]. The
    modelled board holds cards only and leaves such an entry out (the
    deck of a hand dealt to at most 23 players holds the five cards of
    the board). *)
Definition nextPhase (env st : TableState) : TableState * option Scheduled :=
  let newPlayers := with_bet 0 <$> players env in
  let st := setCurrentBet 0 (setPlayers newPlayers st) in
  let n := length newPlayers in
  match scan (λ s, bool_decide (s ≠ Active ∧ s ≠ AllIn)) newPlayers
             ((dealerIdx env + 1) `mod` n)%nat n with
  | None => (st, None)
  | Some nextActive =>
      let st := setActivePlayerIdx nextActive st in
      match phase env with
      | PreFlop =>
          let '(c1, d1) := pop (deck env) in
          let '(c2, d2) := pop d1 in
          let '(c3, d3) := pop d2 in
          (setDeck d3
            (setCommunityCards
               (communityCards env ++ option_list c1 ++ option_list c2 ++ option_list c3)
            (addLog "The Flop" info (setPhase Flop st))), None)
      | Flop =>
          let '(c1, d1) := pop (deck env) in
          (setDeck d1 (setCommunityCards (communityCards env ++ option_list c1)
            (addLog "The Turn" info (setPhase Turn st))), None)
      | Turn =>
          let '(c1, d1) := pop (deck env) in
          (setDeck d1 (setCommunityCards (communityCards env ++ option_list c1)
            (addLog "The River" info (setPhase River st))), None)
      | _ => handleShowdown env st
      end
  end.

Definition moveToNextPlayer (env st : TableState) : TableState * option Scheduled :=
  let st := setShowCards false st in
  let n := length (players st) in
  match scan (λ s, bool_decide (s = Folded ∨ s = Busted ∨ s = AllIn)) (players st)
             ((activePlayerIdx env + 1) `mod` n)%nat n with
  | None => (st, None)
  | Some nextIdx =>
      let activePlayers := filter (λ p, status p = Active) (players st) in
      let allInPlayers := filter (λ p, status p = AllIn) (players st) in
      if decide (length activePlayers = 0 ∨
                 (length activePlayers = 1 ∧ 0 < length allInPlayers))%nat
      then (st, Some (NextPhaseAfter 1000))
      else
        let betsMatch := forallb (λ p, bool_decide (bet p = currentBet env)) activePlayers in
        if betsMatch &&
           (bool_decide (phase env ≠ PreFlop) || bool_decide (currentBet env > BIG_BLIND)
            || forallb (λ p, bool_decide (bet p > 0)) activePlayers)
        then (st, Some (NextPhaseAfter 500))
        else (setActivePlayerIdx nextIdx st, None)
  end.

Definition handleFold (env : TableState) : TableState * option Scheduled :=
  match players env !! activePlayerIdx env with
  | None => (env, None)
  | Some p =>
      let newPlayers := <[activePlayerIdx env := with_status Folded p]> (players env) in
      let st := addLog (name p +:+ " folds.") action (setPlayers newPlayers env) in
      match filter in_hand newPlayers with
      | [w] =>
          let winIdx := findIndex (λ q, bool_decide (id q = id w)) newPlayers in
          let st := setWinnerIdx (Some winIdx) st in
          if decide (winIdx < 0) then (st, None) else
          let newPlayers :=
            alter (λ q, with_chips (chips q + (pot env + sum_of bet newPlayers)) q)
                  (Z.to_nat winIdx) newPlayers in
          let newPlayers := with_bet 0 <$> newPlayers in
          (setAutoNextTimer (Some 4)
            (addLog (name w +:+ " wins by default!") winner
            (setPhase Showdown (setPot 0 (setPlayers newPlayers st)))),
           Some (NextHandCountdown 4))
      | _ => moveToNextPlayer env st
      end
  end.

Definition handleCheckCall (env : TableState) : TableState * option Scheduled :=
  match players env !! activePlayerIdx env with
  | None => (env, None)
  | Some pRef =>
      let amountToCall := currentBet env - bet pRef in
      if decide (amountToCall >= chips pRef) then
        let st := setPot (pot env + chips pRef) env in
        let pRef' := with_status AllIn (with_chips 0 (with_bet (bet pRef + chips pRef) pRef)) in
        let st := addLog (name pRef +:+ " goes ALL IN!") action st in
        moveToNextPlayer env (setPlayers (<[activePlayerIdx env := pRef']> (players env)) st)
      else
        let pRef' := with_bet (bet pRef + amountToCall) (with_chips (chips pRef - amountToCall) pRef) in
        let st := setPot (pot env + amountToCall) env in
        let st := addLog (name pRef +:+ " " +:+
                          (if decide (amountToCall = 0) then "checks" else "calls") +:+ ".")
                         action st in
        moveToNextPlayer env (setPlayers (<[activePlayerIdx env := pRef']> (players env)) st)
  end.

(** [handleRaise] returns nothing ([void]) on every path; the model returns
    the table and what was scheduled. *)
Definition handleRaise (amount : Z) (env : TableState) : TableState * option Scheduled :=
  match players env !! activePlayerIdx env with
  | None => (env, None)
  | Some pRef =>
      let totalBet := currentBet env + amount in
      let needed := totalBet - bet pRef in
      if decide (needed > chips pRef) then (env, None)
      else
        let pRef' := with_bet totalBet (with_chips (chips pRef - needed) pRef) in
        let st := setPot (pot env + needed) env in
        let st := setCurrentBet totalBet st in
        let st := setPlayers (<[activePlayerIdx env := pRef']> (players env)) st in
        let st := addLog (name pRef +:+ " raises to " +:+ pretty totalBet +:+ ".") action st in
        moveToNextPlayer env st
  end.

(** The scheduled callback runs next, before any other handler. It
    belongs to the render [env] of the handler that scheduled it, and the
    objects of the array of that render are the ones the handler left on
    the table [st]. The countdown ticks [autoNextTimer] down to 0 and then
    calls [startNewHand(dealerIdx + 1, newPlayers)]. *)
Definition run_scheduled (token : nat → string) (draw : nat → nat)
    (env : TableState) (r : TableState * option Scheduled)
    : TableState * option Scheduled :=
  match r with
  | (st, Some (NextPhaseAfter _)) => nextPhase (setPlayers (players st) env) st
  | (st, Some (NextHandCountdown _)) =>
      (startNewHand token draw (dealerIdx env + 1) (players st)
         (setAutoNextTimer (Some 0) st), None)
  | (st, None) => (st, None)
  end.

(** The table before the first hand, with the given seated players. *)
Definition initial (ps : list Player) : TableState :=
  mkTable Setup ps [] [] 0 0 0 0 None [] false None.

(** [startGame], a click handler. [buyInAmount] is the cell of the setup
    slider; [{ ...p, chips: buyInAmount }] makes new player objects. *)
Definition startGame (token : nat → string) (draw : nat → nat) (buyInAmount : Z)
    (env : TableState) : TableState :=
  if decide (length (players env) < 2)%nat then env else
  let readyPlayers := with_chips buyInAmount <$> players env in
  startNewHand token draw 0 readyPlayers (setPhase PreFlop (setPlayers readyPlayers env)).

End App.

(* ===================================================================== *)
(** ** The seat-based variant of the component: [startNewHand] *)
(* ===================================================================== *)

(** The variants of the component that seat players at fixed seats keep
    Busted players in the array and skip them when they place the button
    and the blinds. Their loops [while (a[i].status === Busted) i = (i + 1) % n]
    carry no bound; they run only when at least two players are not Busted
    and then stop within [n] steps, which is the budget [scan] gets here. *)
Module Seated.

Import Evaluator.

Definition BIG_BLIND : Z := 20.
Definition SMALL_BLIND : Z := 10.

Definition next_seated (a : list Player) (idx : nat) : option nat :=
  scan (λ s, bool_decide (s = Busted)) a idx (length a).

Definition deal_hand (acc : list Player * list Card) (p : Player)
    : list Player * list Card :=
  if decide (status p ≠ Busted) then App.deal_hand acc p else (acc.1 ++ [p], acc.2).

(** [a.find(f)] followed by writes to the object found: the first match
    is altered. *)
Definition alter_first (f : Player → bool) (g : Player → Player) (a : list Player)
    : list Player :=
  let i := findIndex f a in
  if decide (i < 0) then a else alter g (Z.to_nat i) a.

Definition clear_flags (p : Player) : Player :=
  with_isBigBlind false (with_isSmallBlind false (with_isDealer false p)).

Definition startNewHand (token : nat → string) (draw : nat → nat)
    (newDealerIdx : nat) (currentPlayers : list Player) (st : TableState)
    : option TableState :=
  let st := setAutoNextTimer None st in
  let newDeck := Deck.freshShuffledDeck token draw in
  let resetPlayers := App.reset_player <$> currentPlayers in
  let activeCount := length (filter (λ p, status p ≠ Busted) resetPlayers) in
  if decide (activeCount < 2)%nat then
    let w := List.find (λ p, bool_decide (status p ≠ Busted)) resetPlayers in
    let wname := match name <$> w with
                 | Some s => if decide (s = EmptyString) then "Everyone" else s
                 | None => "Everyone"
                 end in
    Some (setPlayers resetPlayers (setPhase Setup
            (addLog ("Game Over! " +:+ wname +:+ " wins!") winner st)))
  else
    let n := length resetPlayers in
    actualDealerIdx ← next_seated resetPlayers (newDealerIdx `mod` n)%nat;
    let resetPlayers := clear_flags <$> resetPlayers in
    let resetPlayers := alter (with_isDealer true) actualDealerIdx resetPlayers in
    sbIdx ← next_seated resetPlayers ((actualDealerIdx + 1) `mod` n)%nat;
    bbIdx ← next_seated resetPlayers ((sbIdx + 1) `mod` n)%nat;
    let resetPlayers :=
      if decide (activeCount = 2)%nat then
        alter (with_isBigBlind true) sbIdx
          (alter (with_isSmallBlind true) actualDealerIdx resetPlayers)
      else
        alter (with_isBigBlind true) bbIdx
          (alter (with_isSmallBlind true) sbIdx resetPlayers) in
    let dealt := foldl deal_hand ([], newDeck) resetPlayers in
    let resetPlayers := dealt.1 in
    let newDeck := dealt.2 in
    sbPlayer ← List.find isSmallBlind resetPlayers;
    let sbAmt := App.blind_amount SMALL_BLIND sbPlayer in
    let resetPlayers := alter_first isSmallBlind (App.post_blind SMALL_BLIND) resetPlayers in
    bbPlayer ← List.find isBigBlind resetPlayers;
    let bbAmt := App.blind_amount BIG_BLIND bbPlayer in
    let resetPlayers := alter_first isBigBlind (App.post_blind BIG_BLIND) resetPlayers in
    let potStart := 0 + sbAmt + bbAmt in
    firstActionIdx ←
      next_seated resetPlayers
        (Z.to_nat ((findIndex isBigBlind resetPlayers + 1) `mod` Z.of_nat n));
    Some
      (addLog ("New Hand. Blinds " +:+ pretty SMALL_BLIND +:+ "/" +:+ pretty BIG_BLIND) info
      (setPhase PreFlop
      (setActivePlayerIdx firstActionIdx
      (setShowCards false
      (setWinnerIdx None
      (setDealerIdx actualDealerIdx
      (setCurrentBet BIG_BLIND
      (setPot potStart
      (setCommunityCards []
      (setDeck newDeck
      (setPlayers resetPlayers st))))))))))).

(** *** Taking and leaving a seat (the host's side) *)

(** [.sort((a, b) => a.seatIndex - b.seatIndex)] is [sort_desc] on the
    negated seat index: the comparator [key b - key a] is then
    [a.seatIndex - b.seatIndex]. *)
Definition by_seat (p : Player) : Z := - Z.of_nat (seatIndex p).

(** [performSitDown] reads [players] of its render and queues the sorted
    array. *)
Definition performSitDown (seatIdx : nat) (name : string) (buyIn : Z) (playerId : string)
    (env st : TableState) : TableState :=
  if existsb (λ p, bool_decide (seatIndex p = seatIdx)) (players env) then st else
  let newPlayer := mkPlayer playerId name buyIn 0 [] Active false false false seatIdx in
  let updatedPlayers := sort_desc by_seat (players env ++ [newPlayer]) in
  addLog (name +:+ " sat down.") info (setPlayers updatedPlayers st).

(** [standUp] on the host: [phase] is read from the render, the filter is a
    functional update of the current array. *)
Definition standUp (playerId : string) (env st : TableState) : TableState :=
  if decide (phase env ≠ Setup) then st else
  setPlayers (filter (λ p, id p ≠ playerId) (players st)) st.

End Seated.

(* ===================================================================== *)
(** * Definitions used by the properties *)
(* ===================================================================== *)

Import Evaluator App.

(** A card as [createDeck] names it, without the random suffix. *)
Definition card (r : Rank) (s : Suit) : Card :=
  mkCard s r (Rank_value r +:+ "-" +:+ Suit_value s).

(** The base of each category in [score], as the header comment of
    [evaluateHand] lists them. *)
Definition category_base (rankName : string) : option Z :=
  if decide (rankName = "Straight Flush") then Some 800
  else if decide (rankName = "Four of a Kind") then Some 700
  else if decide (rankName = "Full House") then Some 600
  else if decide (rankName = "Flush") then Some 500
  else if decide (rankName = "Straight") then Some 400
  else if decide (rankName = "Three of a Kind") then Some 300
  else if decide (rankName = "Two Pair") then Some 200
  else if decide (rankName = "Pair") then Some 100
  else if decide (rankName = "High Card") then Some 0
  else None.

(** [getStraightHigh]'s [uniqueValues] array is strictly descending with
    entries between 2 and 14, hence one of the 8192 sub-sequences of
    [14; 13; ...; 2]; facts about the scan are checked on all of them. *)

Fixpoint sublists {A} (l : list A) : list (list A) :=
  match l with
  | [] => [[]]
  | x :: l' => (cons x <$> sublists l') ++ sublists l'
  end.

Fixpoint down_from (h : Z) (k : nat) : list Z :=
  match k with
  | O => []
  | S k' => h :: down_from (h - 1) k'
  end.

Definition all_values : list Z := down_from 14 13.

(** With at most seven distinct ranks: A, 2, 3, 4, 5 without a 6 make the
    scan return 5; 2, 3, 4, 5, 6 without a 7 make it return 6. *)
Definition wheel_check (uv : list Z) : bool :=
  if bool_decide (length uv ≤ 7)%nat
     && forallb (λ v, bool_decide (v ∈ uv)) [14; 2; 3; 4; 5]
     && bool_decide (6 ∉ uv)
  then bool_decide (straight_high_of uv = Some 5) else true.

Definition six_high_check (uv : list Z) : bool :=
  if bool_decide (length uv ≤ 7)%nat
     && forallb (λ v, bool_decide (v ∈ uv)) [2; 3; 4; 5; 6]
     && bool_decide (7 ∉ uv)
  then bool_decide (straight_high_of uv = Some 6) else true.

(** The [counts] object of [getNOfAKind] after the cards [processed]: the
    keys are distinct, each key holds the processed cards of its rank, in
    order, and every processed card has its key. *)
Definition counts_ok (processed : list Card) (counts : list (string * list Card)) : Prop :=
  NoDup counts.*1 ∧
  (∀ k cs, (k, cs) ∈ counts → cs = filter (λ c, Rank_value (rank c) = k) processed) ∧
  (∀ c, c ∈ processed → Rank_value (rank c) ∈ counts.*1).

(** No suit has five cards. *)
Definition no_flush (cards : list Card) : Prop :=
  Forall (λ s, length (filter (λ c, suit c = s) cards) < 5)%nat SUITS.

(** Bounds on what a player's hand scores on a board. *)
Definition scores_below (cc : list Card) (bound : Z) (q : Player) : Prop :=
  ∀ e, evaluateHand (hand q) cc = Some e → score e < bound.

Definition scores_at_most (cc : list Card) (bound : Z) (q : Player) : Prop :=
  ∀ e, evaluateHand (hand q) cc = Some e → score e ≤ bound.

(** ** The seat-based variant *)

(** Seat [i] holds a player who is not Busted. *)
Definition seated_at (l : list Player) (i : nat) : Prop :=
  ∃ p, l !! i = Some p ∧ status p ≠ Busted.

(** A player object with another [hand] and nothing else changed. *)
Definition same_but_hand (p p' : Player) : Prop := ∃ h, p' = with_hand h p.


(** The flags seat [i] ends with when the button is on seat [d], the small
    blind on seat [x] and the big blind on seat [y]. *)
Definition seat_roles (d x y i : nat) (p : Player) : Player :=
  let p := Seated.clear_flags p in
  let p := if decide (d = i) then with_isDealer true p else p in
  let p := if decide (x = i) then with_isSmallBlind true p else p in
  if decide (y = i) then with_isBigBlind true p else p.

(** A player dealt in by the seat-based [startNewHand]: another [hand],
    unless Busted. *)
Definition dealt_if_seated (p p' : Player) : Prop :=
  ∃ h, p' = with_hand h p ∧ (status p = Busted → h = hand p).

(** ** Sample cards, players and tables *)

(** A board with an ace on it, and two players who each hold the other
    ace: one with a king, one with a queen. *)
Definition ace_board : list Card :=
  [card Ace Spades; card Eight Diamonds; card Seven Clubs; card Three Spades; card Two Hearts].
Definition ace_king : list Card := [card Ace Hearts; card King Diamonds].
Definition ace_queen : list Card := [card Ace Clubs; card Queen Diamonds].

(** Two players at the river who both hold an ace and a king on a board
    with an ace: the same pair, the same kickers. The pot holds 40. *)
Definition ace_king_too : list Card := [card Ace Clubs; card King Spades].

Definition river_table : TableState :=
  mkTable River
    [mkPlayer "X" "X" 980 0 ace_king Active true false true 0;
     mkPlayer "Y" "Y" 980 0 ace_king_too Active false true false 0]
    [] ace_board 40 0 1 0 None [] false None.

(** Sample oracles and players for the runs below. *)
Definition token0 (k : nat) : string := "0." +:+ pretty k.
Definition draw0 (k : nat) : nat := (7 * k + 3)%nat.

Definition seated (who : string) (stack : Z) : Player :=
  mkPlayer who who stack 0 [] Active false false false 0.

Definition heads_up : list Player := [seated "A" 1000; seated "B" 1000].

(** Three players, the second with 15 chips: the second posts the small
    blind, the first calls, the second calls all-in, and the street ends. *)
Definition short_stack : list Player :=
  [seated "A" 1000; seated "B" 15; seated "C" 1000].

(** A table on which the player to act has 5 chips left and faces a bet
    of 20. *)
Definition raise_table : TableState :=
  mkTable Flop
    [mkPlayer "A" "A" 980 20 [] Active true false false 0;
     mkPlayer "B" "B" 5 0 [] Active false true false 0;
     mkPlayer "C" "C" 980 20 [] Active false false true 0]
    [] [] 40 20 1 0 None [] false None.

(** At the river X has bet 20 and Y, to act, has not; the pot holds 60. *)
Definition river_bet_table : TableState :=
  mkTable River
    [mkPlayer "X" "X" 960 20 ace_king Active true false true 0;
     mkPlayer "Y" "Y" 980 0 ace_king_too Active false true false 0]
    [] ace_board 60 20 1 0 None [] false None.

(** What a caller can observe of a call of a handler that returns nothing:
    the table it leaves and what it scheduled. An error is surfaced when
    these differ from those of no call at all. *)
Definition surfaced (before : TableState) (r : TableState * option Scheduled) : Prop :=
  r ≠ (before, None).

(** ** Straights, declaratively *)

(** A value is on the table when a card has it; an ace also stands for 1. *)
Definition has_value (vs : list Z) (v : Z) : Prop := v ∈ vs ∨ (v = 1 ∧ 14 ∈ vs).

(** Five consecutive values, the highest being [h]. *)
Definition run_from (vs : list Z) (h : Z) : Prop :=
  ∀ k, 0 ≤ k < 5 → has_value vs (h - k).

#[global] Instance has_value_dec vs v : Decision (has_value vs v).
Proof. unfold has_value. apply _. Defined.

Definition run_fromb (vs : list Z) (h : Z) : bool :=
  forallb (λ k, bool_decide (has_value vs (h - k))) [0; 1; 2; 3; 4].

(** The highest [h] with a run, looked for from the ace down to the five. *)
Definition highest_run (vs : list Z) : option Z :=
  List.find (run_fromb vs) (down_from 14 10).

Definition straight_check (uv : list Z) : bool :=
  bool_decide (straight_high_of uv = highest_run uv).

(** ** The categories, declaratively *)

Definition count_rank (cards : list Card) (r : Rank) : nat :=
  length (filter (λ c, rank c = r) cards).

Definition count_suit (cards : list Card) (s : Suit) : nat :=
  length (filter (λ c, suit c = s) cards).

(** Five consecutive values among the cards. *)
Definition has_run (cards : list Card) : Prop :=
  is_Some (highest_run (value <$> cards)).

(** Five cards of one suit, among which five consecutive values. *)
Definition has_straight_flush (cards : list Card) : Prop :=
  Exists (λ s, (5 ≤ count_suit cards s)%nat
               ∧ has_run (filter (λ c, suit c = s) cards)) SUITS.

Definition has_flush (cards : list Card) : Prop :=
  Exists (λ s, (5 ≤ count_suit cards s)%nat) SUITS.

(** [n] cards of one rank. *)
Definition has_n_of_a_kind (n : nat) (cards : list Card) : Prop :=
  Exists (λ r, (n ≤ count_rank cards r)%nat) RANKS.

(** [n] cards of one rank and [m] of another. *)
Definition has_two_ranks (n m : nat) (cards : list Card) : Prop :=
  Exists (λ r, (n ≤ count_rank cards r)%nat
               ∧ Exists (λ r', r' ≠ r ∧ (m ≤ count_rank cards r')%nat) RANKS) RANKS.

#[global] Instance has_run_dec cards : Decision (has_run cards).
Proof. unfold has_run. apply _. Defined.
#[global] Instance has_straight_flush_dec cards : Decision (has_straight_flush cards).
Proof. unfold has_straight_flush. apply _. Defined.
#[global] Instance has_flush_dec cards : Decision (has_flush cards).
Proof. unfold has_flush. apply _. Defined.
#[global] Instance has_n_of_a_kind_dec n cards : Decision (has_n_of_a_kind n cards).
Proof. unfold has_n_of_a_kind. apply _. Defined.
#[global] Instance has_two_ranks_dec n m cards : Decision (has_two_ranks n m cards).
Proof. unfold has_two_ranks. apply _. Defined.

(** The best category the cards hold, by the rules of the game. *)
Definition category (cards : list Card) : string :=
  if decide (has_straight_flush cards) then "Straight Flush"
  else if decide (has_n_of_a_kind 4 cards) then "Four of a Kind"
  else if decide (has_two_ranks 3 2 cards) then "Full House"
  else if decide (has_flush cards) then "Flush"
  else if decide (has_run cards) then "Straight"
  else if decide (has_n_of_a_kind 3 cards) then "Three of a Kind"
  else if decide (has_two_ranks 2 2 cards) then "Two Pair"
  else if decide (has_n_of_a_kind 2 cards) then "Pair"
  else "High Card".

(** ** Chips on the table *)

(** The chips that are in play: the pot and the stacks. *)
Definition stake (t : TableState) : Z := pot t + sum_of chips (players t).

(** No stack, bet or pot is negative and no bet exceeds the bet to match. *)
Definition sane (t : TableState) : Prop :=
  0 ≤ pot t ∧ Forall (λ p, 0 ≤ chips p ∧ 0 ≤ bet p ≤ currentBet t) (players t).

(** What a handler never touches on a player. *)
Definition identity (p : Player) : string * string * list Card * nat :=
  (id p, name p, hand p, seatIndex p).

(** The streets [nextPhase] deals: how many cards, and the phase it sets. *)
Definition street (ph : GamePhase) : option (nat * GamePhase) :=
  match ph with
  | PreFlop => Some (3%nat, Flop)
  | Flop => Some (1%nat, Turn)
  | Turn => Some (1%nat, River)
  | _ => None
  end.

(** ** Whose turn it is *)

(** Seat [i] is the first from seat [start] on, in seat order and around
    the table, whose player's status satisfies [P]. *)
Definition first_from (P : PlayerStatus → Prop) (a : list Player) (start i : nat) : Prop :=
  ∃ k, (k < length a)%nat ∧ i = ((start + k) `mod` length a)%nat ∧
       (∃ p, a !! i = Some p ∧ P (status p)) ∧
       ∀ j, (j < k)%nat →
            ∃ q, a !! ((start + j) `mod` length a)%nat = Some q ∧ ¬ P (status q).

(** The betting of the street is over for [moveToNextPlayer]: no player
    is Active, or one is and some player is AllIn, or every Active player
    has matched the bet and, before the flop, the bet was raised or every
    Active player has chips in. *)
Definition betting_closed (env st : TableState) : Prop :=
  let activePlayers := filter (λ p, status p = Active) (players st) in
  let allInPlayers := filter (λ p, status p = AllIn) (players st) in
  (length activePlayers = 0 ∨ (length activePlayers = 1 ∧ 0 < length allInPlayers))%nat ∨
  (Forall (λ p, bet p = currentBet env) activePlayers ∧
   (phase env ≠ PreFlop ∨ currentBet env > BIG_BLIND ∨
    Forall (λ p, bet p > 0) activePlayers)).

(** ** Seats *)

(** The [players] array is in seat order, one player per seat. *)
Definition seat_order (l : list Player) : Prop :=
  StronglySorted (λ p q, (seatIndex p < seatIndex q)%nat) l.

(* ===================================================================== *)
(** * Properties *)
(* ===================================================================== *)

(** ** The deck *)

Module DeckFacts.

Import Deck.

Lemma swap_length i j a : length (swap i j a) = length a.
Proof.
  unfold swap. destruct (a !! j), (a !! i); try done.
  by rewrite !length_insert.
Qed.

Lemma swap_Permutation i j a : swap i j a ≡ₚ a.
Proof.
  unfold swap.
  destruct (a !! j) as [aj|] eqn:Hj; [|done].
  destruct (a !! i) as [ai|] eqn:Hi; [|done].
  apply Permutation_inj. split; [by rewrite !length_insert|].
  exists (λ x, if decide (x = i) then j else if decide (x = j) then i else x).
  split.
  - intros x y. repeat case_decide; intros; subst; congruence.
  - intros x.
    pose proof (lookup_lt_Some _ _ _ Hi). pose proof (lookup_lt_Some _ _ _ Hj).
    destruct (decide (x = j)) as [->|Hxj].
    + rewrite list_lookup_insert_eq by (by rewrite length_insert).
      case_decide; subst; congruence.
    + rewrite list_lookup_insert_ne by done.
      destruct (decide (x = i)) as [->|Hxi].
      * by rewrite list_lookup_insert_eq.
      * by rewrite list_lookup_insert_ne.
Qed.

Lemma shuffle_loop_spec draw i : ∀ k l (σ : Store) a,
  σ !! l = Some a →
  ∃ a', shuffle_loop draw k l i σ !! l = Some a' ∧ a' ≡ₚ a ∧
        ∀ l', l' ≠ l → shuffle_loop draw k l i σ !! l' = σ !! l'.
Proof.
  induction i as [|i IH]; intros k l σ a Ha; simpl.
  - by exists a.
  - rewrite Ha. simpl.
    destruct (IH (S k) l
                (<[l := swap (S i) (draw k `mod` (S i + 1))%nat a]> σ)
                (swap (S i) (draw k `mod` (S i + 1))%nat a)) as (a' & H1 & H2 & H3).
    { by rewrite lookup_insert_eq. }
    exists a'. split_and!; [done| |].
    + by rewrite H2, swap_Permutation.
    + intros l' Hl'. rewrite H3 by done. by rewrite lookup_insert_ne.
Qed.

Lemma createDeck_unfold token :
  createDeck token =
  (λ '(k, (s, r)),
     mkCard s r (Rank_value r +:+ "-" +:+ Suit_value s +:+ "-" +:+ token k))
  <$> imap (λ k sr, (k, sr)) (s ← SUITS; r ← RANKS; [(s, r)]).
Proof. reflexivity. Qed.

Lemma createDeck_pairs token (r : Rank) (s : Suit) :
  length (filter (λ c, rank c = r ∧ suit c = s) (createDeck token)) = 1%nat.
Proof. destruct r, s; vm_compute; reflexivity. Qed.

Lemma createDeck_length token : length (createDeck token) = 52%nat.
Proof. reflexivity. Qed.

End DeckFacts.

(** C10. [shuffleDeck] returns, at a new address, a permutation of the
    array it is given (same length, same cards with the same
    multiplicities) and leaves the given array as it was; shuffling the
    deck of [createDeck] gives 52 cards in which every (rank, suit) pair
    occurs exactly once. *)
Theorem shuffleDeck_permutation :
  (∀ (draw : nat → nat) (deck : nat) (cards : list Card) (σ : Deck.Store),
     let σ0 : Deck.Store := <[deck := cards]> σ in
     let r := Deck.shuffleDeck draw deck σ0 in
     r.1 ≠ deck ∧
     r.2 !! deck = Some cards ∧
     ∃ shuffled, r.2 !! r.1 = Some shuffled ∧
                 shuffled ≡ₚ cards ∧ length shuffled = length cards) ∧
  (∀ (token : nat → string) (draw : nat → nat),
     let d := Deck.freshShuffledDeck token draw in
     length d = 52%nat ∧
     ∀ (r : Rank) (s : Suit),
       length (filter (λ c, rank c = r ∧ suit c = s) d) = 1%nat).
Proof.
  assert (Hgen : ∀ (draw : nat → nat) (deck : nat) (cards : list Card) (σ : Deck.Store),
     let σ0 : Deck.Store := <[deck := cards]> σ in
     let r := Deck.shuffleDeck draw deck σ0 in
     r.1 ≠ deck ∧
     r.2 !! deck = Some cards ∧
     ∃ shuffled, r.2 !! r.1 = Some shuffled ∧
                 shuffled ≡ₚ cards ∧ length shuffled = length cards).
  { intros draw deck cards σ σ0 r. subst r. unfold Deck.shuffleDeck. simpl.
    set (l := fresh (dom σ0)).
    assert (Hfresh : l ∉ dom σ0) by apply is_fresh.
    assert (Hne : l ≠ deck).
    { intros ->. apply Hfresh. subst σ0. rewrite dom_insert. set_solver. }
    assert (Hd : σ0 !! deck = Some cards) by (subst σ0; by rewrite lookup_insert_eq).
    rewrite Hd. simpl.
    destruct (DeckFacts.shuffle_loop_spec draw (length cards - 1) 0 l
                (<[l := cards]> σ0) cards) as (a' & H1 & H2 & H3).
    { by rewrite lookup_insert_eq. }
    split_and!; [done| |].
    - rewrite H3 by done. by rewrite lookup_insert_ne.
    - exists a'. split_and!; [done|done|]. by rewrite H2. }
  split; [exact Hgen|].
  intros token draw d.
  assert (Hp : d ≡ₚ Deck.createDeck token).
  { subst d. unfold Deck.freshShuffledDeck.
    pose proof (Hgen draw 0%nat (Deck.createDeck token) ∅) as (_ & _ & sh & Hsh & Hperm & _).
    rewrite insert_empty in Hsh.
    destruct (Deck.shuffleDeck draw 0 {[0%nat := Deck.createDeck token]}) as [l σ'].
    simpl in *. by rewrite Hsh. }
  split.
  - by rewrite Hp.
  - intros r s. rewrite Hp. apply DeckFacts.createDeck_pairs.
Qed.

(** ** The hand evaluator *)

Module EvaluatorFacts.

Lemma value_bounds c : 2 ≤ value c ≤ 14.
Proof. unfold value. destruct (rank c); simpl; lia. Qed.

Lemma value_rank c c' : rank c = rank c' → value c = value c'.
Proof. unfold value. by intros ->. Qed.

Lemma truthy_Some o v : truthy o = Some v → o = Some v.
Proof. unfold truthy. intros; repeat case_match; by simplify_eq. Qed.

Ltac invert_evaluateHand H :=
  unfold evaluateHand in H; cbv zeta in H;
  repeat (case_match; simplify_eq; try discriminate).

(** Outside the two straight categories the score is the category base
    plus the rank value of the first card of [bestFive]. *)
Lemma evaluateHand_leading_card h c e :
  evaluateHand h c = Some e →
  rankName e ≠ "Straight" → rankName e ≠ "Straight Flush" →
  ∃ c0 b, bestFive e !! 0%nat = Some (Some c0) ∧
          category_base (rankName e) = Some b ∧ score e = b + value c0.
Proof.
  intros H Hs Hsf. invert_evaluateHand H; simpl in *; try done;
    eexists _, _; (split_and!; [reflexivity|reflexivity|reflexivity]).
Qed.

(** A Straight scores 400 plus what [getStraightHigh] found. *)
Lemma evaluateHand_Straight h c e :
  evaluateHand h c = Some e → rankName e = "Straight" →
  ∃ sh, getStraightHigh (sort_desc value (h ++ c)) = Some sh ∧ score e = 400 + sh.
Proof.
  intros H Hs. invert_evaluateHand H; simpl in *; try discriminate.
  all: match goal with
       | Ht : truthy _ = Some ?sh |- _ =>
           exists sh; split; [by apply truthy_Some|done]
       end.
Qed.

Lemma nil_in_sublists {A} (l : list A) : [] ∈ sublists l.
Proof. induction l; simpl; set_solver. Qed.

Lemma strictly_desc_in_sublists k : ∀ h uv,
  StronglySorted (λ a b, b < a) uv →
  Forall (λ x, h - Z.of_nat k < x ≤ h) uv →
  uv ∈ sublists (down_from h k).
Proof.
  induction k as [|k IH]; intros h uv Hs Hb.
  - destruct uv as [|x uv]; [simpl; set_solver|].
    apply Forall_cons in Hb as [? _]. lia.
  - destruct uv as [|x uv]; [apply nil_in_sublists|].
    simpl. apply StronglySorted_inv in Hs as [Hs Hlt].
    apply Forall_cons in Hb as [Hx Hb].
    destruct (decide (x = h)) as [->|Hne].
    + apply elem_of_app. left. apply list_elem_of_fmap. exists uv. split; [done|].
      apply IH; [done|].
      rewrite Forall_forall in Hb, Hlt |- *. intros y Hy.
      specialize (Hb y Hy). specialize (Hlt y Hy). lia.
    + apply elem_of_app. right. apply IH.
      * by apply SSorted_cons.
      * apply Forall_cons. split; [lia|].
        rewrite Forall_forall in Hb, Hlt |- *. intros y Hy.
        specialize (Hb y Hy). specialize (Hlt y Hy). lia.
Qed.

Lemma insert_desc_Permutation {A} (key : A → Z) x l : insert_desc key x l ≡ₚ x :: l.
Proof.
  induction l as [|y l IH]; simpl; [done|].
  case_decide; [|done]. rewrite IH. apply Permutation_swap.
Qed.

Lemma sort_desc_Permutation {A} (key : A → Z) l : sort_desc key l ≡ₚ l.
Proof.
  induction l as [|x l IH]; simpl; [done|].
  by rewrite insert_desc_Permutation, IH.
Qed.

Lemma insert_desc_sorted {A} (key : A → Z) x l :
  StronglySorted (λ a b, key b ≤ key a) l →
  StronglySorted (λ a b, key b ≤ key a) (insert_desc key x l).
Proof.
  induction 1 as [|y l Hs IH Hy]; simpl.
  - repeat constructor.
  - case_decide.
    + constructor; [done|].
      rewrite insert_desc_Permutation. constructor; [lia|done].
    + constructor; [by constructor|].
      constructor; [lia|].
      rewrite Forall_forall in Hy |- *. intros z Hz. specialize (Hy z Hz). lia.
Qed.

Lemma sort_desc_sorted {A} (key : A → Z) l :
  StronglySorted (λ a b, key b ≤ key a) (sort_desc key l).
Proof.
  induction l; simpl; [constructor|]. by apply insert_desc_sorted.
Qed.

Lemma sorted_NoDup_strict (l : list Z) :
  StronglySorted (λ a b, b ≤ a) l → NoDup l → StronglySorted (λ a b, b < a) l.
Proof.
  induction 1 as [|x l Hs IH Hx]; intros Hnd; [constructor|].
  apply NoDup_cons in Hnd as [Hnin Hnd].
  constructor; [by apply IH|].
  rewrite Forall_forall in Hx |- *. intros y Hy. specialize (Hx y Hy).
  assert (y ≠ x) by (intros ->; done). lia.
Qed.

Lemma set_values_acc (xs : list Z) : ∀ acc : list Z,
  let r := foldl (λ acc v, if decide (v ∈ acc) then acc else acc ++ [v]) acc xs in
  (NoDup acc → NoDup r) ∧ (∀ x, x ∈ r ↔ x ∈ acc ∨ x ∈ xs) ∧
  (length r ≤ length acc + length xs)%nat.
Proof.
  induction xs as [|v xs IH]; intros acc; simpl.
  - split_and!; [done|set_solver|lia].
  - destruct (IH (if decide (v ∈ acc) then acc else acc ++ [v])) as (H1 & H2 & H3).
    split_and!.
    + intros Hnd. apply H1. case_decide; [done|].
      apply NoDup_app. split_and!; [done|set_solver|apply NoDup_singleton].
    + intros x. rewrite H2. case_decide; set_solver.
    + etrans; [exact H3|]. case_decide; [lia|]. rewrite length_app. simpl. lia.
Qed.

Lemma set_values_NoDup xs : NoDup (set_values xs).
Proof. apply (set_values_acc xs []). constructor. Qed.

Lemma elem_of_set_values xs x : x ∈ set_values xs ↔ x ∈ xs.
Proof. unfold set_values. rewrite (proj1 (proj2 (set_values_acc xs []))). set_solver. Qed.

Lemma set_values_length xs : (length (set_values xs) ≤ length xs)%nat.
Proof. apply (set_values_acc xs []). Qed.

Lemma elem_of_uniqueValues cards v : v ∈ uniqueValues cards ↔ v ∈ value <$> cards.
Proof. unfold uniqueValues. by rewrite sort_desc_Permutation, elem_of_set_values. Qed.

Lemma uniqueValues_length cards : (length (uniqueValues cards) ≤ length cards)%nat.
Proof.
  unfold uniqueValues. rewrite sort_desc_Permutation.
  etrans; [apply set_values_length|]. by rewrite length_fmap.
Qed.

Lemma uniqueValues_in_sublists cards : uniqueValues cards ∈ sublists all_values.
Proof.
  apply strictly_desc_in_sublists.
  - apply sorted_NoDup_strict; [apply (sort_desc_sorted (λ v, v))|].
    unfold uniqueValues. rewrite sort_desc_Permutation. apply set_values_NoDup.
  - rewrite Forall_forall. intros v Hv. apply elem_of_uniqueValues in Hv.
    apply list_elem_of_fmap in Hv as (c & -> & _). pose proof (value_bounds c). lia.
Qed.

Lemma straight_checks :
  forallb (λ uv, wheel_check uv && six_high_check uv) (sublists all_values) = true.
Proof. vm_compute. reflexivity. Qed.

Lemma has_rank_value (r : Rank) (cards sorted : list Card) :
  sorted ≡ₚ cards → r ∈ rank <$> cards → RANK_VALUE r ∈ uniqueValues sorted.
Proof.
  intros Hp Hr. apply elem_of_uniqueValues. rewrite Hp.
  apply list_elem_of_fmap in Hr as (c & -> & Hc).
  apply list_elem_of_fmap. by exists c.
Qed.

Lemma lacks_rank_value (r : Rank) (cards sorted : list Card) :
  sorted ≡ₚ cards → r ∉ rank <$> cards → RANK_VALUE r ∉ uniqueValues sorted.
Proof.
  intros Hp Hr Hv. apply Hr. apply elem_of_uniqueValues in Hv. rewrite Hp in Hv.
  apply list_elem_of_fmap in Hv as (c & Hc & Hin).
  apply list_elem_of_fmap. exists c. split; [|done].
  unfold value in Hc. destruct r, (rank c); simpl in Hc; congruence.
Qed.

Lemma getStraightHigh_wheel (cards : list Card) :
  (length cards ≤ 7)%nat →
  (∀ r, r ∈ [Ace; Two; Three; Four; Five] → r ∈ rank <$> cards) →
  Six ∉ rank <$> cards →
  getStraightHigh (sort_desc value cards) = Some 5.
Proof.
  intros Hlen Hhas Hno.
  pose proof (sort_desc_Permutation value cards) as Hp.
  pose proof straight_checks as Hall. rewrite forallb_forall in Hall.
  specialize (Hall (uniqueValues (sort_desc value cards))).
  rewrite <- list_elem_of_In in Hall.
  specialize (Hall (uniqueValues_in_sublists _)).
  apply andb_true_iff in Hall as [Hw _]. unfold wheel_check in Hw.
  rewrite (bool_decide_eq_true_2 (length _ ≤ 7)%nat) in Hw; last first.
  { etrans; [apply uniqueValues_length|]. by rewrite Hp. }
  rewrite (proj2 (forallb_forall _ _)) in Hw; last first.
  { intros v Hv. apply bool_decide_eq_true.
    apply list_elem_of_In in Hv.
    assert (∃ r, r ∈ [Ace; Two; Three; Four; Five] ∧ v = RANK_VALUE r) as (r & Hr & ->).
    { set_unfold in Hv. destruct Hv as [->|[->|[->|[->|[->|[]]]]]];
        [exists Ace|exists Two|exists Three|exists Four|exists Five]; set_solver. }
    by apply (has_rank_value r cards), Hhas. }
  rewrite (bool_decide_eq_true_2 (6 ∉ _)) in Hw
    by apply (lacks_rank_value Six cards _ Hp Hno).
  simpl in Hw. by apply bool_decide_eq_true in Hw.
Qed.

Lemma getStraightHigh_six_high (cards : list Card) :
  (length cards ≤ 7)%nat →
  (∀ r, r ∈ [Two; Three; Four; Five; Six] → r ∈ rank <$> cards) →
  Seven ∉ rank <$> cards →
  getStraightHigh (sort_desc value cards) = Some 6.
Proof.
  intros Hlen Hhas Hno.
  pose proof (sort_desc_Permutation value cards) as Hp.
  pose proof straight_checks as Hall. rewrite forallb_forall in Hall.
  specialize (Hall (uniqueValues (sort_desc value cards))).
  rewrite <- list_elem_of_In in Hall.
  specialize (Hall (uniqueValues_in_sublists _)).
  apply andb_true_iff in Hall as [_ Hw]. unfold six_high_check in Hw.
  rewrite (bool_decide_eq_true_2 (length _ ≤ 7)%nat) in Hw; last first.
  { etrans; [apply uniqueValues_length|]. by rewrite Hp. }
  rewrite (proj2 (forallb_forall _ _)) in Hw; last first.
  { intros v Hv. apply bool_decide_eq_true.
    apply list_elem_of_In in Hv.
    assert (∃ r, r ∈ [Two; Three; Four; Five; Six] ∧ v = RANK_VALUE r) as (r & Hr & ->).
    { set_unfold in Hv. destruct Hv as [->|[->|[->|[->|[->|[]]]]]];
        [exists Two|exists Three|exists Four|exists Five|exists Six]; set_solver. }
    by apply (has_rank_value r cards), Hhas. }
  rewrite (bool_decide_eq_true_2 (7 ∉ _)) in Hw
    by apply (lacks_rank_value Seven cards _ Hp Hno).
  simpl in Hw. by apply bool_decide_eq_true in Hw.
Qed.

(** *** What [getFlushSuit] and [getNOfAKind] find *)

Lemma Suit_value_inj s s' : Suit_value s = Suit_value s' → s = s'.
Proof. destruct s, s'; simpl; intros; by simplify_eq. Qed.

Lemma Rank_value_inj r r' : Rank_value r = Rank_value r' → r = r'.
Proof. destruct r, r'; simpl; intros; by simplify_eq. Qed.

(** A suit returned by [getFlushSuit] has five cards, counting those
    already counted. *)
Lemma getFlushSuit_loop_count cards : ∀ (counts : gmap string nat) s,
  getFlushSuit_loop counts cards = Some s →
  (5 ≤ default 0 (counts !! Suit_value s) + length (filter (λ c, suit c = s) cards))%nat.
Proof.
  induction cards as [|c cards IH]; intros counts s; simpl; [done|].
  case_decide as Hn.
  - intros [= <-]. rewrite filter_cons_True by done. simpl. lia.
  - intros Hrec. apply IH in Hrec.
    destruct (decide (suit c = s)) as [<-|Hne].
    + rewrite lookup_insert_eq in Hrec. simpl in Hrec.
      rewrite filter_cons_True by done. simpl. lia.
    + rewrite lookup_insert_ne in Hrec by (intros ?%Suit_value_inj; done).
      by rewrite filter_cons_False.
Qed.

Lemma getFlushSuit_None cards :
  (∀ s, length (filter (λ c, suit c = s) cards) < 5)%nat → getFlushSuit cards = None.
Proof.
  intros Hno. destruct (getFlushSuit cards) as [s|] eqn:Hs; [exfalso|done].
  apply getFlushSuit_loop_count in Hs. rewrite lookup_empty in Hs. simpl in Hs.
  specialize (Hno s). lia.
Qed.

Lemma filter_none {A} (P : A → Prop) `{!∀ x, Decision (P x)} (l : list A) :
  (∀ x, x ∈ l → ¬ P x) → filter P l = [].
Proof.
  induction l as [|y l IH]; intros Hno; [done|].
  rewrite filter_cons_False by (apply Hno; left).
  apply IH. intros x Hx. apply Hno. by right.
Qed.

Lemma insert_key_Permutation k c o : insert_key k c o ≡ₚ (k, [c]) :: o.
Proof.
  induction o as [|[k' cs] o IH]; simpl; [done|].
  destruct (key_before k k'); [done|]. rewrite IH. apply Permutation_swap.
Qed.

Lemma push_at_keys k c o : (push_at k c o).*1 = o.*1.
Proof.
  induction o as [|[k' cs] o IH]; [done|].
  cbn [push_at]. case_decide; rewrite !fmap_cons; [done|]. by rewrite IH.
Qed.

Lemma elem_of_push_at k c o k' cs' :
  NoDup o.*1 → (k', cs') ∈ push_at k c o →
  (k' ≠ k ∧ (k', cs') ∈ o) ∨ (k' = k ∧ ∃ cs, (k, cs) ∈ o ∧ cs' = cs ++ [c]).
Proof.
  induction o as [|[k0 cs0] o IH]; simpl; intros Hnd Hin.
  - by apply not_elem_of_nil in Hin.
  - apply NoDup_cons in Hnd as [Hk0 Hnd]. case_decide as Hk; subst.
    + apply elem_of_cons in Hin as [[= -> ->]|Hin].
      * right. split; [done|]. exists cs0. split; [left|done].
      * left. split; [|by right]. intros ->. apply Hk0.
        apply list_elem_of_fmap. by exists (k0, cs').
    + apply elem_of_cons in Hin as [[= -> ->]|Hin].
      * left. split; [done|left].
      * destruct (IH Hnd Hin) as [[? ?]|(-> & cs & ? & ->)].
        -- left. split; [done|by right].
        -- right. split; [done|]. exists cs. split; [by right|done].
Qed.

Lemma count_card_ok processed counts c :
  counts_ok processed counts → counts_ok (processed ++ [c]) (count_card counts c).
Proof.
  intros (Hnd & Hcs & Hkeys). unfold count_card. cbv zeta. case_decide as Hk.
  - split_and!.
    + by rewrite push_at_keys.
    + intros k' cs' Hin. rewrite filter_app.
      destruct (elem_of_push_at _ _ _ _ _ Hnd Hin) as [[Hne Hin']|(-> & cs & Hin' & ->)].
      * rewrite filter_cons_False, filter_nil, app_nil_r by done. by apply Hcs.
      * rewrite filter_cons_True, filter_nil by done. f_equal. by apply Hcs.
    + intros c' Hc'. rewrite push_at_keys.
      apply elem_of_app in Hc' as [Hc'|Hc']; [by apply Hkeys|].
      apply list_elem_of_singleton in Hc'. by subst.
  - pose proof (insert_key_Permutation (Rank_value (rank c)) c counts) as Hp.
    split_and!.
    + rewrite Hp. simpl. by apply NoDup_cons.
    + intros k' cs' Hin. rewrite Hp in Hin. rewrite filter_app.
      apply elem_of_cons in Hin as [[= -> ->]|Hin].
      * rewrite filter_cons_True, filter_nil by done.
        replace (filter _ processed) with (@nil Card); [done|].
        symmetry. apply filter_none. intros c' Hc' Hkey.
        apply Hk. rewrite <- Hkey. by apply Hkeys.
      * assert (k' ≠ Rank_value (rank c)).
        { intros ->. apply Hk. apply list_elem_of_fmap. by exists (Rank_value (rank c), cs'). }
        rewrite filter_cons_False, filter_nil, app_nil_r by done. by apply Hcs.
    + intros c' Hc'. rewrite Hp. simpl.
      apply elem_of_app in Hc' as [Hc'|Hc']; [right; by apply Hkeys|].
      apply list_elem_of_singleton in Hc'. subst. left.
Qed.

Lemma foldl_count_card_ok cards : ∀ processed counts,
  counts_ok processed counts →
  counts_ok (processed ++ cards) (foldl count_card counts cards).
Proof.
  induction cards as [|c cards IH]; intros processed counts Hok; simpl.
  - by rewrite app_nil_r.
  - replace (processed ++ c :: cards) with ((processed ++ [c]) ++ cards)
      by (by rewrite <- app_assoc).
    apply IH. by apply count_card_ok.
Qed.

(** The cards [getNOfAKind] returns are the first [n] cards of one rank
    that has at least [n] cards. *)
Lemma getNOfAKind_sound cards n l :
  (0 < n)%nat → getNOfAKind cards n = Some l →
  ∃ r, l = take n (filter (λ c, rank c = r) cards) ∧
       (n ≤ length (filter (λ c, rank c = r) cards))%nat.
Proof.
  intros Hn. unfold getNOfAKind. cbv zeta. intros H.
  apply fmap_Some in H as ([k cs] & Hf & ->).
  apply find_some in Hf as [Hin Hlen]. apply bool_decide_eq_true in Hlen. simpl in *.
  apply list_elem_of_In in Hin.
  destruct (foldl_count_card_ok cards [] []) as (_ & Hcs & _).
  { split_and!; [constructor| |]; intros; by (exfalso; eapply not_elem_of_nil). }
  simpl in Hcs. apply Hcs in Hin. subst cs.
  destruct (filter (λ c, Rank_value (rank c) = k) cards) as [|c0 rest] eqn:Hfilt;
    [simpl in Hlen; lia|].
  assert (Hc0 : Rank_value (rank c0) = k).
  { assert (c0 ∈ filter (λ c, Rank_value (rank c) = k) cards) as Hc0
      by (rewrite Hfilt; left).
    by apply list_elem_of_filter in Hc0 as [? _]. }
  exists (rank c0).
  assert (Heq : filter (λ c, rank c = rank c0) cards
                = filter (λ c, Rank_value (rank c) = k) cards).
  { apply list_filter_iff. intros c. subst k. split; [by intros ->|apply Rank_value_inj]. }
  rewrite Heq, Hfilt. done.
Qed.

(** *** [evaluateHand] returns, with a positive score *)

Lemma getNOfAKind_length cards n l : getNOfAKind cards n = Some l → length l = n.
Proof.
  unfold getNOfAKind. intros H. apply fmap_Some in H as (kc & Hf & ->).
  apply find_some in Hf as [_ Hn]. apply bool_decide_eq_true in Hn.
  rewrite length_take. lia.
Qed.

Lemma getFlushSuit_loop_elem cards : ∀ counts s,
  getFlushSuit_loop counts cards = Some s → ∃ c, c ∈ cards ∧ suit c = s.
Proof.
  induction cards as [|c cards IH]; intros counts s; simpl; [done|].
  case_decide.
  - intros [= <-]. exists c. split; [left|done].
  - intros H'. destruct (IH _ _ H') as (c' & ? & ?). exists c'. split; [by right|done].
Qed.

Lemma getFlushSuit_elem cards s :
  getFlushSuit cards = Some s → filter (λ c, suit c = s) cards ≠ [].
Proof.
  unfold getFlushSuit. intros H Hnil.
  apply getFlushSuit_loop_elem in H as (c & Hc & Hs).
  assert (Hin : c ∈ filter (λ c, suit c = s) cards) by (by apply list_elem_of_filter).
  rewrite Hnil in Hin. by apply not_elem_of_nil in Hin.
Qed.

Lemma straight_scan_elem uv steps : ∀ streak v,
  straight_scan uv steps streak = Some v → v ∈ uv.
Proof.
  induction steps as [|i steps IH]; intros streak v; simpl; [done|].
  repeat case_match; eauto using list_elem_of_lookup_2.
Qed.

Lemma getStraightHigh_pos cards v : getStraightHigh cards = Some v → 1 ≤ v.
Proof.
  unfold getStraightHigh, straight_high_of. intros H.
  apply straight_scan_elem in H. unfold with_low_ace in H.
  assert (Hb : ∀ x, x ∈ uniqueValues cards → 2 ≤ x).
  { intros x Hx. apply elem_of_uniqueValues, list_elem_of_fmap in Hx as (c & -> & _).
    apply value_bounds. }
  fold (uniqueValues cards) in H.
  case_decide; [apply elem_of_app in H as [H|H]|].
  - specialize (Hb _ H). lia.
  - apply list_elem_of_singleton in H. lia.
  - specialize (Hb _ H). lia.
Qed.

Lemma evaluateHand_score_pos h c e : evaluateHand h c = Some e → 0 < score e.
Proof.
  intros H. invert_evaluateHand H; simpl.
  all: repeat match goal with
       | Ht : truthy _ = Some _ |- _ => apply truthy_Some, getStraightHigh_pos in Ht
       end.
  all: try match goal with
       | |- context [value ?c] => pose proof (value_bounds c)
       end; lia.
Qed.

Lemma evaluateHand_is_Some h c : h ++ c ≠ [] → is_Some (evaluateHand h c).
Proof.
  intros Hne. destruct (evaluateHand h c) as [e|] eqn:H; [eauto|exfalso].
  invert_evaluateHand H.
  all: repeat match goal with
       | Hg : getNOfAKind _ _ = Some [] |- _ => apply getNOfAKind_length in Hg; done
       end.
  all: try match goal with
       | Hf : getFlushSuit ?l = Some ?s, Hnil : filter _ ?l = [] |- _ =>
           by apply getFlushSuit_elem in Hf
       end.
  all: match goal with
       | Hnil : sort_desc value ?l = [] |- _ =>
           pose proof (sort_desc_Permutation value l) as Hp;
           rewrite Hnil in Hp; by apply Permutation_nil in Hp
       end.
Qed.

(** Every Four of a Kind result carries four cards in [bestFive]. *)
Lemma four_of_a_kind_length h c e :
  evaluateHand h c = Some e → rankName e = "Four of a Kind" →
  length (bestFive e) = 4%nat.
Proof.
  intros H Hn. invert_evaluateHand H; simpl in *; try discriminate.
  all: match goal with
       | Hq : getNOfAKind _ 4 = Some _ |- _ =>
           apply getNOfAKind_length in Hq; simpl in Hq; by rewrite length_fmap
       end.
Qed.

(** *** Five given ranks among at most seven cards

    Cards that show five distinct ranks and are at most seven leave no room
    for four of a kind, nor for three of one rank with two of another. *)

Section five_ranks.

Variable L : list Rank.
Hypothesis L_NoDup : NoDup L.
Hypothesis L_without_one : ∀ r, (4 ≤ length (filter (λ x, x ≠ r) L))%nat.
Hypothesis L_without_two : ∀ r r', (3 ≤ length (filter (λ x, x ≠ r' ∧ x ≠ r) L))%nat.

Variable cards : list Card.
Hypothesis cards_length : (length cards ≤ 7)%nat.
Hypothesis cards_ranks : Forall (λ r, r ∈ rank <$> cards) L.

Lemma distinct_ranks_bound (Q : Rank → Prop) `{!∀ r, Decision (Q r)} :
  (length (filter Q L) ≤ length (filter (λ c, Q (rank c)) cards))%nat.
Proof.
  rewrite <- (length_fmap rank (filter _ cards)).
  apply submseteq_length, NoDup_submseteq; [by apply NoDup_filter|].
  intros r Hr. apply list_elem_of_filter in Hr as [HQ Hr].
  rewrite Forall_forall in cards_ranks.
  apply cards_ranks, list_elem_of_fmap in Hr as (c & -> & Hc).
  apply list_elem_of_fmap. exists c. split; [done|]. by apply list_elem_of_filter.
Qed.

Lemma filter_rank_split (r : Rank) (l : list Card) :
  (length (filter (λ c, rank c = r) l) + length (filter (λ c, rank c ≠ r) l)
   = length l)%nat.
Proof.
  rewrite <- length_app.
  apply Permutation_length, (filter_app_complement (λ c, rank c = r)).
Qed.

Lemma rank_count_at_most_three r :
  (length (filter (λ c, rank c = r) cards) ≤ 3)%nat.
Proof.
  pose proof (filter_rank_split r cards).
  pose proof (distinct_ranks_bound (λ x, x ≠ r)).
  pose proof (L_without_one r). lia.
Qed.

Lemma no_three_and_two r r' :
  r' ≠ r →
  (3 ≤ length (filter (λ c, rank c = r) cards))%nat →
  (2 ≤ length (filter (λ c, rank c = r') (filter (λ c, rank c ≠ r) cards)))%nat →
  False.
Proof.
  intros Hne H3 H2.
  pose proof (filter_rank_split r cards).
  pose proof (filter_rank_split r' (filter (λ c, rank c ≠ r) cards)) as Hsplit.
  rewrite (list_filter_filter (λ c, rank c ≠ r')) in Hsplit.
  pose proof (distinct_ranks_bound (λ x, x ≠ r' ∧ x ≠ r)).
  pose proof (L_without_two r r'). lia.
Qed.

(** On such cards, without a flush, a straight found by [getStraightHigh]
    is what [evaluateHand] returns. *)
Lemma evaluateHand_plain_straight h c sh :
  cards = sort_desc value (h ++ c) →
  getFlushSuit cards = None →
  getStraightHigh cards = Some sh → sh ≠ 0 →
  evaluateHand h c
  = Some (mkEval (400 + sh) "Straight" (Some <$> take 5 cards)).
Proof.
  intros Hcards Hflush Hsh Hnz.
  assert (Hquads : getNOfAKind cards 4 = None).
  { destruct (getNOfAKind cards 4) as [l|] eqn:Hq; [exfalso|done].
    apply getNOfAKind_sound in Hq as (r & _ & Hr); [|lia].
    pose proof (rank_count_at_most_three r). lia. }
  assert (Htruthy : truthy (Some sh) = Some sh).
  { unfold truthy. by rewrite decide_False. }
  unfold evaluateHand. cbv zeta. rewrite <- Hcards.
  rewrite Hflush, Hquads, Hsh, Htruthy.
  destruct (getNOfAKind cards 3) as [[|t0 ts]|] eqn:Ht.
  - apply getNOfAKind_length in Ht. done.
  - destruct (getNOfAKind (filter (λ c0, rank c0 ≠ rank t0) cards) 2) as [l2|] eqn:Hp;
      [exfalso|done].
    apply getNOfAKind_sound in Ht as (r & Hts & Hr); [|lia].
    assert (rank t0 = r) as <-.
    { assert (t0 ∈ take 3 (filter (λ c, rank c = r) cards)) as Hin
        by (rewrite <- Hts; left).
      apply subseteq_take, list_elem_of_filter in Hin as [? _]. done. }
    apply getNOfAKind_sound in Hp as (r' & _ & Hr'); [|lia].
    assert (r' ≠ rank t0).
    { intros ->.
      rewrite (list_filter_filter (λ c, rank c = rank t0)) in Hr'.
      rewrite filter_none in Hr'; [simpl in Hr'; lia|]. naive_solver. }
    by eapply (no_three_and_two (rank t0) r').
  - done.
Qed.

End five_ranks.

Lemma wheel_ranks_spread :
  NoDup [Ace; Two; Three; Four; Five] ∧
  (∀ r, (4 ≤ length (filter (λ x, x ≠ r) [Ace; Two; Three; Four; Five]))%nat) ∧
  (∀ r r', (3 ≤ length (filter (λ x, x ≠ r' ∧ x ≠ r) [Ace; Two; Three; Four; Five]))%nat).
Proof.
  split_and!; [compute_done|intros []; vm_compute; lia|intros [] []; vm_compute; lia].
Qed.

Lemma six_high_ranks_spread :
  NoDup [Two; Three; Four; Five; Six] ∧
  (∀ r, (4 ≤ length (filter (λ x, x ≠ r) [Two; Three; Four; Five; Six]))%nat) ∧
  (∀ r r', (3 ≤ length (filter (λ x, x ≠ r' ∧ x ≠ r) [Two; Three; Four; Five; Six]))%nat).
Proof.
  split_and!; [compute_done|intros []; vm_compute; lia|intros [] []; vm_compute; lia].
Qed.

Lemma no_flush_sorted cards : no_flush cards → getFlushSuit (sort_desc value cards) = None.
Proof.
  intros Hno. apply getFlushSuit_None. intros s.
  rewrite sort_desc_Permutation. unfold no_flush in Hno. rewrite Forall_forall in Hno.
  apply Hno. destruct s; compute_done.
Qed.

End EvaluatorFacts.

Section evaluator_claims.

Import EvaluatorFacts.

(** C2, as stated, fails: a pair of aces with a king kicker and a pair of
    aces with a queen kicker get the same score, so the king does not make
    the first hand compare greater. *)
Lemma kicker_does_not_order :
  ∃ ek eq,
    evaluateHand ace_king ace_board = Some ek ∧
    evaluateHand ace_queen ace_board = Some eq ∧
    rankName ek = "Pair" ∧ rankName eq = "Pair" ∧
    rank <$> omap (λ c, c) (bestFive ek) = [Ace; Ace; King; Eight; Seven] ∧
    rank <$> omap (λ c, c) (bestFive eq) = [Ace; Ace; Queen; Eight; Seven] ∧
    ¬ (score eq < score ek).
Proof.
  eexists _, _. split; [vm_compute; reflexivity|].
  split; [vm_compute; reflexivity|]. simpl. split_and!; try reflexivity. lia.
Qed.

(** C3. Three pairs (fours, threes, twos) with a king: the Two Pair that
    [evaluateHand] returns is built on the twos and the threes and scored
    on the twos, the lowest pair; and two pairs (nines and twos) are scored
    on the twos. The claim asks for fours and threes, scored on the fours,
    and for the nines. With three pairs of court cards (kings, queens,
    jacks), whose rank strings are not numeric keys, the result is built on
    the kings and the queens and scored on the kings. *)
Theorem two_pair_takes_lowest_numeric_pairs :
  evaluateHand [card Four Hearts; card Four Diamonds]
    [card Three Clubs; card Three Spades; card Two Hearts; card Two Diamonds;
     card King Spades]
  = Some (mkEval 202 "Two Pair"
            [Some (card Two Hearts); Some (card Two Diamonds);
             Some (card Three Clubs); Some (card Three Spades);
             Some (card King Spades)]) ∧
  evaluateHand [card Two Hearts; card Two Diamonds]
    [card Nine Clubs; card Nine Spades; card King Hearts]
  = Some (mkEval 202 "Two Pair"
            [Some (card Two Hearts); Some (card Two Diamonds);
             Some (card Nine Clubs); Some (card Nine Spades);
             Some (card King Hearts)]) ∧
  evaluateHand [card Jack Hearts; card Jack Diamonds]
    [card Queen Clubs; card Queen Spades; card King Hearts; card King Diamonds;
     card Nine Spades]
  = Some (mkEval 213 "Two Pair"
            [Some (card King Hearts); Some (card King Diamonds);
             Some (card Queen Clubs); Some (card Queen Spades);
             Some (card Jack Hearts)]).
Proof. split_and!; vm_compute; reflexivity. Qed.

(** C8. Among inputs of at most seven cards without five cards of one
    suit: an input holding A, 2, 3, 4, 5 and no 6 evaluates to a Straight,
    and so does an input holding 2, 3, 4, 5, 6 and no 7; the score of the
    first is below the score of the second and above the score of every
    High Card evaluation. *)
Theorem wheel_between_high_card_and_six_high :
  ∀ hw cw hs cs hh ch eh,
    (length (hw ++ cw) ≤ 7)%nat →
    Forall (λ r, r ∈ rank <$> hw ++ cw) [Ace; Two; Three; Four; Five] →
    Six ∉ rank <$> hw ++ cw →
    no_flush (hw ++ cw) →
    (length (hs ++ cs) ≤ 7)%nat →
    Forall (λ r, r ∈ rank <$> hs ++ cs) [Two; Three; Four; Five; Six] →
    Seven ∉ rank <$> hs ++ cs →
    no_flush (hs ++ cs) →
    evaluateHand hh ch = Some eh → rankName eh = "High Card" →
    ∃ ew es,
      evaluateHand hw cw = Some ew ∧ evaluateHand hs cs = Some es ∧
      rankName ew = "Straight" ∧ rankName es = "Straight" ∧
      score eh < score ew ∧ score ew < score es.
Proof.
  intros hw cw hs cs hh ch eh Lw Hw Nw Fw Ls Hs Ns Fs Eh Rh.
  destruct wheel_ranks_spread as (Wnd & W1 & W2).
  destruct six_high_ranks_spread as (Snd & S1 & S2).
  pose proof (sort_desc_Permutation value (hw ++ cw)) as Pw.
  pose proof (sort_desc_Permutation value (hs ++ cs)) as Ps.
  assert (Ew : evaluateHand hw cw
               = Some (mkEval (400 + 5) "Straight"
                         (Some <$> take 5 (sort_desc value (hw ++ cw))))).
  { apply (evaluateHand_plain_straight [Ace; Two; Three; Four; Five] Wnd W1 W2
             (sort_desc value (hw ++ cw))); try done.
    - by rewrite Pw.
    - eapply Forall_impl; [exact Hw|]. intros r Hr. simpl in Hr. by rewrite Pw.
    - by apply no_flush_sorted.
    - rewrite Forall_forall in Hw. by apply getStraightHigh_wheel. }
  assert (Es : evaluateHand hs cs
               = Some (mkEval (400 + 6) "Straight"
                         (Some <$> take 5 (sort_desc value (hs ++ cs))))).
  { apply (evaluateHand_plain_straight [Two; Three; Four; Five; Six] Snd S1 S2
             (sort_desc value (hs ++ cs))); try done.
    - by rewrite Ps.
    - eapply Forall_impl; [exact Hs|]. intros r Hr. simpl in Hr. by rewrite Ps.
    - by apply no_flush_sorted.
    - rewrite Forall_forall in Hs. by apply getStraightHigh_six_high. }
  eexists _, _. split; [exact Ew|]. split; [exact Es|]. simpl.
  split; [done|]. split; [done|].
  destruct (evaluateHand_leading_card _ _ _ Eh) as (c0 & b & _ & Hb & ->).
  { rewrite Rh. discriminate. }
  { rewrite Rh. discriminate. }
  rewrite Rh in Hb. vm_compute in Hb. simplify_eq.
  pose proof (value_bounds c0). lia.
Qed.

(** The theorem at a wheel with a pair of kings, a six-high straight with
    an ace and a king, and an ace-high hand. *)
Lemma wheel_between_high_card_and_six_high_witness :
  ∃ ew es eh,
    evaluateHand [card Ace Hearts; card Two Diamonds]
      [card Three Clubs; card Four Spades; card Five Hearts; card King Clubs;
       card King Spades] = Some ew ∧
    evaluateHand [card Two Hearts; card Three Diamonds]
      [card Four Clubs; card Five Spades; card Six Hearts; card Ace Diamonds;
       card King Clubs] = Some es ∧
    evaluateHand [card Ace Hearts; card King Diamonds]
      [card Queen Clubs; card Jack Spades; card Nine Hearts; card Seven Diamonds;
       card Two Spades] = Some eh ∧
    score eh < score ew ∧ score ew < score es.
Proof.
  destruct (wheel_between_high_card_and_six_high
            [card Ace Hearts; card Two Diamonds]
            [card Three Clubs; card Four Spades; card Five Hearts; card King Clubs;
             card King Spades]
            [card Two Hearts; card Three Diamonds]
            [card Four Clubs; card Five Spades; card Six Hearts; card Ace Diamonds;
             card King Clubs]
            [card Ace Hearts; card King Diamonds]
            [card Queen Clubs; card Jack Spades; card Nine Hearts; card Seven Diamonds;
             card Two Spades]
            (mkEval 14 "High Card"
               (Some <$> [card Ace Hearts; card King Diamonds; card Queen Clubs;
                          card Jack Spades; card Nine Hearts])))
    as (ew & es & Hw & Hs & _ & _ & Hlt).
  - simpl; lia.
  - compute_done.
  - compute_done.
  - compute_done.
  - simpl; lia.
  - compute_done.
  - compute_done.
  - compute_done.
  - vm_compute; reflexivity.
  - reflexivity.
  - exists ew, es, (mkEval 14 "High Card"
               (Some <$> [card Ace Hearts; card King Diamonds; card Queen Clubs;
                          card Jack Spades; card Nine Hearts])).
    split; [exact Hw|]. split; [exact Hs|]. split; [vm_compute; reflexivity|exact Hlt].
Defined.

(** C9. Four aces and a king: the [bestFive] of the Four of a Kind that
    [evaluateHand] returns is the four aces, four cards, without the king
    the claim asks for as fifth card (every Four of a Kind result has four
    cards, [EvaluatorFacts.four_of_a_kind_length]). With three aces, a king
    and a queen the Three of a Kind branch does add its kickers and returns
    five cards. *)
Theorem four_of_a_kind_bestFive_has_four_cards :
  evaluateHand [card Ace Hearts; card Ace Diamonds]
    [card Ace Clubs; card Ace Spades; card King Hearts]
  = Some (mkEval 714 "Four of a Kind"
            [Some (card Ace Hearts); Some (card Ace Diamonds);
             Some (card Ace Clubs); Some (card Ace Spades)]) ∧
  evaluateHand [card Ace Hearts; card Ace Diamonds]
    [card Ace Clubs; card Queen Spades; card King Hearts]
  = Some (mkEval 314 "Three of a Kind"
            [Some (card Ace Hearts); Some (card Ace Diamonds);
             Some (card Ace Clubs); Some (card King Hearts);
             Some (card Queen Spades)]).
Proof. split; vm_compute; reflexivity. Qed.

End evaluator_claims.

(** ** The engine *)

Module AppFacts.

Import EvaluatorFacts.

(** A run of [scan] either stops on a player whose status is not skipped,
    or every position it looked at is skipped. *)
Lemma scan_spec (skip : PlayerStatus → bool) (a : list Player) budget : ∀ idx r,
  scan skip a idx budget = Some r →
  (∃ p, a !! r = Some p ∧ skip (status p) = false) ∨
  (∀ k, (k ≤ budget)%nat →
        ∃ p, a !! Nat.iter k (λ i, (i + 1) `mod` length a)%nat idx = Some p ∧
             skip (status p) = true).
Proof.
  induction budget as [|b IH]; intros idx r; simpl.
  - destruct (a !! idx) as [p|] eqn:Hp; [|done].
    destruct (skip (status p)) eqn:Hs; intros; simplify_eq; [|left; eauto].
    right. intros k Hk. assert (k = 0)%nat as -> by lia. simpl. eauto.
  - destruct (a !! idx) as [p|] eqn:Hp; [|done].
    destruct (skip (status p)) eqn:Hs; intros Hr; simplify_eq; [|left; eauto].
    destruct (IH _ _ Hr) as [?|Hall]; [by left|right].
    intros [|k] Hk; [simpl; eauto|].
    rewrite Nat.iter_succ_r. apply Hall. lia.
Qed.

Lemma iter_next_index n idx k :
  (0 < n)%nat → (idx < n)%nat →
  Nat.iter k (λ i, (i + 1) `mod` n)%nat idx = ((idx + k) `mod` n)%nat.
Proof.
  intros Hn Hidx. induction k as [|k IH]; simpl.
  - rewrite Nat.add_0_r. by rewrite Nat.mod_small.
  - rewrite IH. rewrite Nat.Div0.add_mod_idemp_l. f_equal. lia.
Qed.

(** Started inside the array with a budget of its length, [scan] stops on
    a player that is not skipped as soon as the array has one. *)
Lemma scan_finds (skip : PlayerStatus → bool) (a : list Player) idx r :
  (idx < length a)%nat →
  Exists (λ p, skip (status p) = false) a →
  scan skip a idx (length a) = Some r →
  ∃ p, a !! r = Some p ∧ skip (status p) = false.
Proof.
  intros Hidx Hex Hr.
  destruct (scan_spec _ _ _ _ _ Hr) as [?|Hall]; [done|exfalso].
  apply Exists_exists in Hex as (q & Hq & Hs).
  apply list_elem_of_lookup in Hq as [j Hj].
  pose proof (lookup_lt_Some _ _ _ Hj) as Hjn.
  destruct (Hall ((j + length a - idx) `mod` length a)%nat) as (p & Hp & Hps).
  { pose proof (Nat.mod_upper_bound (j + length a - idx) (length a)). lia. }
  rewrite iter_next_index in Hp by lia.
  rewrite Nat.Div0.add_mod_idemp_r in Hp.
  replace (idx + (j + length a - idx))%nat with (j + 1 * length a)%nat in Hp by lia.
  rewrite Nat.Div0.mod_add, Nat.mod_small in Hp by lia.
  congruence.
Qed.

Lemma scan_Some_lt (skip : PlayerStatus → bool) (a : list Player) budget : ∀ idx r,
  scan skip a idx budget = Some r → (r < length a)%nat.
Proof.
  induction budget as [|b IH]; intros idx r; simpl;
    destruct (a !! idx) as [p|] eqn:Hp; try done;
    destruct (skip (status p)); intros; simplify_eq; eauto using lookup_lt_Some.
Qed.

Lemma scan_is_Some (skip : PlayerStatus → bool) (a : list Player) budget : ∀ idx,
  (idx < length a)%nat → is_Some (scan skip a idx budget).
Proof.
  induction budget as [|b IH]; intros idx Hidx; simpl;
    destruct (lookup_lt_is_Some_2 a idx Hidx) as [p ->];
    destruct (skip (status p)); eauto.
  apply IH. apply Nat.mod_upper_bound. lia.
Qed.

Lemma status_alter_chips (f : Player → Z) i (l : list Player) :
  status <$> alter (λ p, with_chips (f p) p) i l = status <$> l.
Proof.
  revert i. induction l as [|x l IH]; intros [|i]; try done.
  change (status x :: (status <$> alter (λ p, with_chips (f p) p) i l)
          = status x :: (status <$> l)).
  by rewrite IH.
Qed.

Lemma status_clear_bets (l : list Player) : status <$> (with_bet 0 <$> l) = status <$> l.
Proof. rewrite <- list_fmap_compose. by apply list_fmap_ext. Qed.

(** [moveToNextPlayer] writes [showCards] and [activePlayerIdx] only. *)
Lemma moveToNextPlayer_cells env st :
  let r := moveToNextPlayer env st in
  players r.1 = players st ∧ pot r.1 = pot st ∧ currentBet r.1 = currentBet st ∧
  phase r.1 = phase st ∧ gameLogs r.1 = gameLogs st.
Proof.
  unfold moveToNextPlayer. cbv zeta.
  repeat case_match; simpl; done.
Qed.

(** [handleShowdown] leaves the turn pointer and every status alone. *)
Lemma handleShowdown_turn env st :
  let r := handleShowdown env st in
  activePlayerIdx r.1 = activePlayerIdx st ∧
  status <$> players r.1 = status <$> players st.
Proof.
  unfold handleShowdown. cbv zeta.
  repeat case_match; simpl; try done.
  split; [done|]. apply status_alter_chips.
Qed.

(** *** The showdown loop picks the first best score *)

Lemma showdown_fold cc (l : list Player) : ∀ b w d,
  Forall (λ p, is_Some (evaluateHand (hand p) cc)) l →
  ∃ b' w' d',
    foldl (showdown_step cc) (Some (b, w, d)) l = Some (b', w', d') ∧
    ((b' = b ∧ w' = w ∧ d' = d ∧ Forall (scores_at_most cc b) l) ∨
     (∃ l1 p l2 e,
        l = l1 ++ p :: l2 ∧ evaluateHand (hand p) cc = Some e ∧
        w' = Some p ∧ b' = score e ∧ d' = rankName e ∧ b < score e ∧
        Forall (scores_below cc (score e)) l1 ∧
        Forall (scores_at_most cc (score e)) l2)).
Proof.
  induction l as [|x l IH]; intros b w d Hall.
  - exists b, w, d. split; [done|]. left. by repeat split.
  - apply Forall_cons in Hall as [[ex Hex] Hall]. simpl. rewrite Hex. simpl.
    case_decide as Hgt.
    + destruct (IH (score ex) (Some x) (rankName ex) Hall)
        as (b' & w' & d' & Hf & [(-> & -> & -> & Hle)|Hlater]).
      * exists (score ex), (Some x), (rankName ex). split; [done|]. right.
        exists [], x, l, ex. split_and!; first [done|lia|constructor].
      * destruct Hlater as (l1 & p & l2 & e & -> & He & -> & -> & -> & Hlt & H1 & H2).
        exists (score e), (Some p), (rankName e). split; [done|]. right.
        exists (x :: l1), p, l2, e. split_and!; try done; try lia.
        constructor; [|done]. intros e' He'. simplify_eq. done.
    + destruct (IH b w d Hall)
        as (b' & w' & d' & Hf & [(-> & -> & -> & Hle)|Hlater]).
      * exists b, w, d. split; [done|]. left. split_and!; try done.
        constructor; [|done]. intros e' He'. simplify_eq. lia.
      * destruct Hlater as (l1 & p & l2 & e & -> & He & -> & -> & -> & Hlt & H1 & H2).
        exists (score e), (Some p), (rankName e). split; [done|]. right.
        exists (x :: l1), p, l2, e. split_and!; try done.
        constructor; [|done]. intros e' He'. simplify_eq. lia.
Qed.

Lemma filter_split {A} (P : A → Prop) `{!∀ x, Decision (P x)} (l : list A) : ∀ l1 x l2,
  filter P l = l1 ++ x :: l2 →
  ∃ k1 k2, l = k1 ++ x :: k2 ∧ filter P k1 = l1 ∧ filter P k2 = l2.
Proof.
  induction l as [|y l IH]; intros l1 x l2 Hf.
  - by destruct l1.
  - rewrite filter_cons in Hf. case_decide as Hy.
    + destruct l1 as [|z l1]; simplify_eq/=.
      * exists [], l. by rewrite filter_nil.
      * destruct (IH _ _ _ H1) as (k1 & k2 & -> & <- & <-).
        exists (z :: k1), k2. split_and!; [done| |done].
        rewrite filter_cons. by rewrite decide_True.
    + destruct (IH _ _ _ Hf) as (k1 & k2 & -> & <- & <-).
      exists (y :: k1), k2. split_and!; [done| |done].
      rewrite filter_cons. by rewrite decide_False.
Qed.

Lemma findIndex_nonneg {A} (f : A → bool) (l : list A) : -1 ≤ findIndex f l.
Proof. induction l; simpl; repeat case_match; lia. Qed.

Lemma findIndex_middle (k1 : list Player) x k2 :
  id x ∉ id <$> k1 →
  findIndex (λ p, bool_decide (id p = id x)) (k1 ++ x :: k2) = Z.of_nat (length k1).
Proof.
  induction k1 as [|y k1 IH]; intros Hnin; simpl.
  - by rewrite bool_decide_eq_true_2.
  - rewrite bool_decide_eq_false_2 by set_solver.
    rewrite IH by set_solver. case_decide; lia.
Qed.

Lemma alter_middle {A} (f : A → A) (k1 : list A) x k2 :
  alter f (length k1) (k1 ++ x :: k2) = k1 ++ f x :: k2.
Proof. induction k1 as [|y k1 IH]; simpl; [done|]. by f_equal. Qed.

Lemma handleShowdown_pays env st :
  NoDup (id <$> players st) →
  Forall (λ p, hand p ≠ []) (players st) →
  Exists in_hand (players st) →
  ∃ before w after ew,
    players st = before ++ w :: after ∧
    in_hand w ∧
    evaluateHand (hand w) (communityCards env) = Some ew ∧
    Forall (λ q, in_hand q → scores_below (communityCards env) (score ew) q) before ∧
    Forall (λ q, in_hand q → scores_at_most (communityCards env) (score ew) q) after ∧
    players (handleShowdown env st).1
      = before ++ with_chips (chips w + pot env) w :: after ∧
    winnerIdx (handleShowdown env st).1 = Some (Z.of_nat (length before)).
Proof.
  intros Hnd Hhands Hex. unfold handleShowdown. cbv zeta. simpl.
  set (cc := communityCards env).
  assert (Hne : filter in_hand (players st) ≠ []).
  { apply Exists_exists in Hex as (q & Hq & Hin). intros Hnil.
    assert (q ∈ filter in_hand (players st)) as Hq' by (by apply list_elem_of_filter).
    rewrite Hnil in Hq'. by apply not_elem_of_nil in Hq'. }
  rewrite decide_False by (by destruct (filter in_hand (players st))).
  assert (Hall : Forall (λ p, is_Some (evaluateHand (hand p) cc)) (filter in_hand (players st))).
  { rewrite Forall_forall. intros q Hq. apply list_elem_of_filter in Hq as [_ Hq].
    rewrite Forall_forall in Hhands. apply evaluateHand_is_Some.
    specialize (Hhands q Hq). by destruct (hand q). }
  destruct (showdown_fold cc _ (-1) None EmptyString Hall)
    as (b' & w' & d' & Hf & [(-> & -> & -> & Hle)|Hwin]).
  { exfalso. destruct (filter in_hand (players st)) as [|q l]; [done|].
    apply Forall_cons in Hall as [[e He] _]. apply Forall_cons in Hle as [Hq _].
    specialize (Hq e He). apply evaluateHand_score_pos in He. lia. }
  destruct Hwin as (l1 & w & l2 & ew & Hsplit & Hew & -> & -> & -> & _ & H1 & H2).
  rewrite Hf.
  destruct (filter_split _ _ _ _ _ Hsplit) as (before & after & Hps & <- & <-).
  assert (Hw : in_hand w).
  { assert (w ∈ filter in_hand (players st)) as Hin by (rewrite Hsplit; set_solver).
    by apply list_elem_of_filter in Hin as [? _]. }
  assert (Hfresh : id w ∉ id <$> before).
  { rewrite Hps, fmap_app, fmap_cons in Hnd.
    apply NoDup_app in Hnd as (_ & Hdis & _). intros Hin.
    apply (Hdis _ Hin). left. }
  rewrite Hps, findIndex_middle by done.
  rewrite decide_False by lia. rewrite Nat2Z.id, alter_middle.
  exists before, w, after, ew. split_and!; try done.
  - rewrite Forall_forall. intros q Hq Hqin.
    rewrite Forall_forall in H1. apply H1. by apply list_elem_of_filter.
  - rewrite Forall_forall. intros q Hq Hqin.
    rewrite Forall_forall in H2. apply H2. by apply list_elem_of_filter.
Qed.

End AppFacts.

(** ** The seat-based [startNewHand], heads-up *)

Module SeatedFacts.

Import EvaluatorFacts AppFacts.

(** Reduction modulo [n] below [2 n]. *)
Lemma mod_below_twice (x n : nat) :
  (x < 2 * n)%nat → (x `mod` n = if decide (x < n) then x else x - n)%nat.
Proof.
  intros Hx. case_decide; [by apply Nat.mod_small|].
  replace x with ((x - n) + 1 * n)%nat at 1 by lia.
  rewrite Nat.Div0.mod_add. apply Nat.mod_small. lia.
Qed.

Lemma scan_prefix (skip : PlayerStatus → bool) (a : list Player) budget : ∀ idx r,
  scan skip a idx budget = Some r →
  ∃ k, (k ≤ budget)%nat ∧
       r = Nat.iter k (λ i, (i + 1) `mod` length a)%nat idx ∧
       ∀ j, (j < k)%nat →
            ∃ p, a !! Nat.iter j (λ i, (i + 1) `mod` length a)%nat idx = Some p ∧
                 skip (status p) = true.
Proof.
  induction budget as [|b IH]; intros idx r; simpl.
  - destruct (a !! idx) as [p|] eqn:Hp; [|done].
    destruct (skip (status p)); intros; simplify_eq; exists 0%nat;
      (split_and!; [lia|done|intros; lia]).
  - destruct (a !! idx) as [p|] eqn:Hp; [|done].
    destruct (skip (status p)) eqn:Hs; intros Hr; simplify_eq.
    + destruct (IH _ _ Hr) as (k & Hk & -> & Hpre).
      exists (S k). split_and!; [lia|by rewrite Nat.iter_succ_r|].
      intros [|j] Hj; [simpl; eauto|].
      rewrite Nat.iter_succ_r. apply Hpre. lia.
    + exists 0%nat. split_and!; [lia|done|intros; lia].
Qed.

Lemma scan_ext (skip : PlayerStatus → bool) (a a' : list Player) budget : ∀ idx,
  status <$> a = status <$> a' → scan skip a idx budget = scan skip a' idx budget.
Proof.
  intros idx Hst.
  assert (Hlen : length a = length a').
  { by rewrite <- (length_fmap status a), Hst, length_fmap. }
  revert idx. induction budget as [|b IH]; intros idx; simpl.
  - assert (Hi : status <$> a !! idx = status <$> a' !! idx)
      by (by rewrite <- !list_lookup_fmap, Hst).
    destruct (a !! idx), (a' !! idx); simplify_eq/=; [|done]. by rewrite Hi.
  - assert (Hi : status <$> a !! idx = status <$> a' !! idx)
      by (by rewrite <- !list_lookup_fmap, Hst).
    destruct (a !! idx), (a' !! idx); simplify_eq/=; [|done].
    rewrite Hi, Hlen. by rewrite IH.
Qed.

Lemma seated_at_ext l l' i :
  status <$> l = status <$> l' → seated_at l i → seated_at l' i.
Proof.
  intros Hst (p & Hp & Hs).
  assert (Hi : status <$> l !! i = status <$> l' !! i)
    by (by rewrite <- !list_lookup_fmap, Hst).
  rewrite Hp in Hi. destruct (l' !! i) as [p'|] eqn:Hp'; simplify_eq/=.
  exists p'. split; [done|]. congruence.
Qed.



Lemma seated_at_lt l i : seated_at l i → (i < length l)%nat.
Proof. intros (p & Hp & _). by eapply lookup_lt_Some. Qed.

Lemma seated_Exists l i :
  seated_at l i → Exists (λ p, bool_decide (status p = Busted) = false) l.
Proof.
  intros (p & Hp & Hs). apply Exists_exists. exists p.
  split; [by eapply list_elem_of_lookup_2|]. by apply bool_decide_eq_false.
Qed.

Lemma next_seated_hits l idx i :
  (idx < length l)%nat → seated_at l i →
  ∃ r, Seated.next_seated l idx = Some r ∧ seated_at l r.
Proof.
  intros Hidx Hi. unfold Seated.next_seated.
  destruct (scan_is_Some (λ s, bool_decide (s = Busted)) l (length l) idx Hidx) as [r Hr].
  exists r. split; [done|].
  destruct (scan_finds _ _ _ _ Hidx (seated_Exists _ _ Hi) Hr) as (p & Hp & Hs).
  exists p. split; [done|]. by apply bool_decide_eq_false in Hs.
Qed.


Lemma reset_seated (cur : list Player) i :
  seated_at (App.reset_player <$> cur) i ↔ ∃ p, cur !! i = Some p ∧ chips p > 0.
Proof.
  unfold seated_at. rewrite list_lookup_fmap. split.
  - intros (p & Hp & Hs). destruct (cur !! i) as [c|]; simplify_eq/=.
    exists c. split; [done|]. case_decide; [done|]. by destruct Hs.
  - intros (c & -> & Hc). exists (App.reset_player c). split; [done|].
    simpl. by rewrite decide_True.
Qed.

Lemma reset_count (cur : list Player) :
  length (filter (λ p, status p ≠ Busted) (App.reset_player <$> cur))
  = length (filter (λ p, chips p > 0) cur).
Proof.
  induction cur as [|c cur IH]; [done|].
  rewrite fmap_cons.
  destruct (decide (chips c > 0)) as [Hc|Hc].
  - rewrite (filter_cons_True (λ p, chips p > 0)) by done.
    rewrite filter_cons_True; [simpl; by rewrite IH|].
    simpl. by rewrite decide_True.
  - rewrite (filter_cons_False (λ p, chips p > 0)) by done.
    rewrite filter_cons_False; [done|].
    simpl. rewrite decide_False by done. naive_solver.
Qed.


Lemma find_at (f : Player → bool) (l : list Player) : ∀ d x,
  l !! d = Some x → f x = true →
  (∀ i p, l !! i = Some p → f p = true → i = d) →
  List.find f l = Some x ∧ findIndex f l = Z.of_nat d.
Proof.
  induction l as [|y l IH]; intros d x Hd Hx Honly; [done|].
  destruct d as [|d]; simplify_eq/=.
  - by rewrite Hx.
  - destruct (f y) eqn:Hy.
    { by specialize (Honly 0%nat y eq_refl Hy). }
    destruct (IH d x Hd Hx) as [-> ->].
    { intros i p Hp Hf. specialize (Honly (S i) p Hp Hf). lia. }
    split; [done|]. case_decide; lia.
Qed.

Lemma alter_first_at (f : Player → bool) g (l : list Player) d :
  findIndex f l = Z.of_nat d → Seated.alter_first f g l = alter g d l.
Proof.
  intros Hi. unfold Seated.alter_first. cbv zeta.
  rewrite Hi, decide_False by lia. by rewrite Nat2Z.id.
Qed.






Lemma status_flags (rs0 : list Player) d :
  status <$> alter (with_isDealer true) d (Seated.clear_flags <$> rs0) = status <$> rs0.
Proof.
  apply list_eq. intros i.
  rewrite !list_lookup_fmap, list_lookup_alter, list_lookup_fmap.
  case_decide; subst; rewrite ?list_lookup_fmap; by destruct (rs0 !! _).
Qed.


End SeatedFacts.

(** ** The turn *)

Module TurnFacts.

Import EvaluatorFacts AppFacts SeatedFacts.

(** Started at seat [start] with a budget of the length of the array,
    [scan] stops on the first seat from there on that is not skipped, as
    soon as the array has one. *)
Lemma scan_first_from (skip : PlayerStatus → bool) (P : PlayerStatus → Prop)
    (a : list Player) (start r : nat) :
  (∀ s, skip s = false ↔ P s) →
  Exists (λ p, P (status p)) a →
  scan skip a (start `mod` length a)%nat (length a) = Some r →
  first_from P a start r.
Proof.
  intros HP Hex Hscan.
  assert (Hn : (0 < length a)%nat).
  { destruct a; [by inversion Hex|simpl; lia]. }
  assert (Hidx : (start `mod` length a < length a)%nat)
    by (apply Nat.mod_upper_bound; lia).
  assert (Hex' : Exists (λ p, skip (status p) = false) a).
  { eapply Exists_impl; [exact Hex|]. intros p. apply HP. }
  destruct (scan_finds _ _ _ _ Hidx Hex' Hscan) as (p & Hp & Hs).
  destruct (scan_prefix _ _ _ _ _ Hscan) as (k & Hk & Hr & Hpre).
  assert (Hiter : ∀ j, Nat.iter j (λ i, (i + 1) `mod` length a)%nat
                         (start `mod` length a)%nat
                       = ((start + j) `mod` length a)%nat).
  { intros j. rewrite iter_next_index by lia. by rewrite Nat.Div0.add_mod_idemp_l. }
  exists k. split_and!.
  - destruct (decide (k < length a)%nat) as [|Hge]; [done|exfalso].
    apply Exists_exists in Hex' as (q & Hq & Hqs).
    apply list_elem_of_lookup in Hq as [j0 Hj0].
    pose proof (lookup_lt_Some _ _ _ Hj0) as Hj0n.
    destruct (Hpre ((j0 + length a - start `mod` length a) `mod` length a)%nat)
      as (p' & Hp' & Hps').
    { pose proof (Nat.mod_upper_bound (j0 + length a - start `mod` length a) (length a)).
      lia. }
    rewrite iter_next_index in Hp' by lia.
    rewrite Nat.Div0.add_mod_idemp_r in Hp'.
    replace (start `mod` length a + (j0 + length a - start `mod` length a))%nat
      with (j0 + 1 * length a)%nat in Hp' by lia.
    rewrite Nat.Div0.mod_add, Nat.mod_small in Hp' by lia.
    congruence.
  - by rewrite Hr, Hiter.
  - exists p. split; [done|]. by apply HP.
  - intros j Hj. destruct (Hpre j Hj) as (q & Hq & Hqs).
    rewrite Hiter in Hq. exists q. split; [done|].
    intros HPq. apply HP in HPq. congruence.
Qed.

Lemma first_from_ext (P : PlayerStatus → Prop) (a a' : list Player) (start i : nat) :
  status <$> a = status <$> a' → first_from P a start i → first_from P a' start i.
Proof.
  intros Hst (k & Hk & Hi & (p & Hp & HPp) & Hpre).
  assert (Hlen : length a = length a').
  { by rewrite <- (length_fmap status a), Hst, length_fmap. }
  assert (Hlook : ∀ j q, a !! j = Some q → ∃ q', a' !! j = Some q' ∧ status q' = status q).
  { intros j q Hq.
    assert (Hj : status <$> a !! j = status <$> a' !! j)
      by (by rewrite <- !list_lookup_fmap, Hst).
    rewrite Hq in Hj. destruct (a' !! j) as [q'|]; simplify_eq/=. eauto. }
  exists k. rewrite <- Hlen. split_and!; [done|done| |].
  - destruct (Hlook _ _ Hp) as (p' & Hp' & Hs). exists p'. by rewrite Hs.
  - intros j Hj. destruct (Hpre j Hj) as (q & Hq & Hnq).
    destruct (Hlook _ _ Hq) as (q' & Hq' & Hs). exists q'. by rewrite Hs.
Qed.

Lemma forallb_bool_decide {A} (Q : A → Prop) `{!∀ x, Decision (Q x)} (l : list A) :
  forallb (λ x, bool_decide (Q x)) l = true ↔ Forall Q l.
Proof.
  induction l as [|x l IH]; simpl; [by split; [constructor|]|].
  rewrite andb_true_iff, bool_decide_eq_true, IH, Forall_cons. done.
Qed.

(** [moveToNextPlayer] either ends the street and leaves the turn where
    it is, or passes the turn to the first Active player after the one
    who acted. *)
Lemma moveToNextPlayer_turn env st :
  players st ≠ [] →
  let r := moveToNextPlayer env st in
  (betting_closed env st ∧ (∃ ms, r.2 = Some (NextPhaseAfter ms)) ∧
   activePlayerIdx r.1 = activePlayerIdx st) ∨
  (¬ betting_closed env st ∧ r.2 = None ∧
   first_from (λ s, s = Active) (players r.1) (activePlayerIdx env + 1)
     (activePlayerIdx r.1)).
Proof.
  intros Hne. unfold moveToNextPlayer, betting_closed. cbv zeta.
  cbn [players setShowCards].
  assert (Hn : (0 < length (players st))%nat).
  { destruct (players st); [done|simpl; lia]. }
  destruct (scan_is_Some (λ s, bool_decide (s = Folded ∨ s = Busted ∨ s = AllIn))
              (players st) (length (players st))
              ((activePlayerIdx env + 1) `mod` length (players st))%nat)
    as [nextIdx Hscan].
  { apply Nat.mod_upper_bound. lia. }
  rewrite Hscan.
  case_decide as Hcount.
  { left. split_and!; [by left|by eexists|done]. }
  destruct (forallb _ _ && _) eqn:Hb.
  - left. split_and!; [right|by eexists|done].
    apply andb_true_iff in Hb as [Hm Hrest].
    apply forallb_bool_decide in Hm. split; [done|].
    apply orb_true_iff in Hrest as [Hrest|Hrest].
    + apply orb_true_iff in Hrest as [Hrest|Hrest].
      * left. by apply bool_decide_eq_true in Hrest.
      * right. left. by apply bool_decide_eq_true in Hrest.
    + right. right. by apply forallb_bool_decide in Hrest.
  - right. split_and!; [|done|].
    + intros [Hc|[Hm Hrest]]; [done|].
      apply andb_false_iff in Hb as [Hb|Hb].
      * apply (forallb_bool_decide (λ p, bet p = currentBet env)) in Hm. congruence.
      * apply orb_false_iff in Hb as [Hb1 Hb3].
        apply orb_false_iff in Hb1 as [Hb1 Hb2].
        apply bool_decide_eq_false in Hb1, Hb2.
        destruct Hrest as [?|[?|Hrest]]; [done|done|].
        apply (forallb_bool_decide (λ p, bet p > 0)) in Hrest. congruence.
    + cbn [players activePlayerIdx setActivePlayerIdx fst].
      apply (scan_first_from (λ s, bool_decide (s = Folded ∨ s = Busted ∨ s = AllIn)));
        [| |done].
      * intros s. rewrite bool_decide_eq_false. destruct s; naive_solver.
      * destruct (filter (λ p, status p = Active) (players st)) as [|q l] eqn:Hf.
        { exfalso. apply Hcount. by left. }
        assert (Hq : q ∈ filter (λ p, status p = Active) (players st))
          by (rewrite Hf; left).
        apply list_elem_of_filter in Hq as [Hs Hq].
        apply Exists_exists. by exists q.
Qed.

(** [nextPhase] gives the turn to the first player after the dealer, in
    the array of its render, who is Active or AllIn. *)
Lemma nextPhase_turn env st :
  Exists (λ p, status p = Active ∨ status p = AllIn) (players env) →
  let r := nextPhase env st in
  first_from (λ s, s = Active ∨ s = AllIn) (players r.1) (dealerIdx env + 1)
    (activePlayerIdx r.1).
Proof.
  intros Hex. unfold nextPhase. cbv zeta.
  set (newPlayers := with_bet 0 <$> players env).
  assert (Hex' : Exists (λ p, status p = Active ∨ status p = AllIn) newPlayers).
  { apply Exists_fmap. eapply Exists_impl; [exact Hex|]. done. }
  assert (Hlen : (0 < length newPlayers)%nat).
  { destruct newPlayers; [by inversion Hex'|simpl; lia]. }
  destruct (scan_is_Some (λ s, bool_decide (s ≠ Active ∧ s ≠ AllIn)) newPlayers
              (length newPlayers) ((dealerIdx env + 1) `mod` length newPlayers)%nat)
    as [nextActive Hscan].
  { apply Nat.mod_upper_bound. lia. }
  rewrite Hscan.
  assert (Hfirst : first_from (λ s, s = Active ∨ s = AllIn) newPlayers
                     (dealerIdx env + 1) nextActive).
  { apply (scan_first_from (λ s, bool_decide (s ≠ Active ∧ s ≠ AllIn))); [|done|done].
    intros s. rewrite bool_decide_eq_false. destruct s; naive_solver. }
  destruct (phase env); simpl.
  all: repeat (let c := fresh in let d := fresh in destruct (pop _) as [c d]); simpl.
  all: try exact Hfirst.
  all: match goal with
       | |- context [handleShowdown ?e ?t] =>
           destruct (handleShowdown_turn e t) as [Ha Hb]; cbv zeta in Ha, Hb;
           rewrite Ha; simpl;
           eapply first_from_ext; [symmetry; exact Hb|]; simpl; exact Hfirst
       end.
Qed.

End TurnFacts.

Section engine_claims.

Import EvaluatorFacts AppFacts TurnFacts.

(** C1. Heads-up, 1000 chips each. Before the hand the total
    [pot + chips + bets] is 2000. [startNewHand] puts each blind both in
    the poster's [bet] and in the pot: the total is 2030. If the player to
    act then calls, the 10 chips of the call are again added to both: the
    total is 2040. If that player folds instead, [handleFold] pays the
    other player the pot plus the bets: the pot and the bets are 0 and the
    stacks hold 2030 chips, 30 more than the two players brought. *)
Theorem chip_total_changes_within_a_hand :
  let st0 := initial heads_up in
  let st1 := startNewHand token0 draw0 0 heads_up st0 in
  let called := (handleCheckCall st1).1 in
  let folded := (handleFold st1).1 in
  chip_total st0 = 2000 ∧
  (pot st1, chips <$> players st1, bet <$> players st1) = (30, [980; 990], [20; 10]) ∧
  chip_total st1 = 2030 ∧
  (pot called, chips <$> players called, bet <$> players called)
    = (40, [980; 980], [20; 20]) ∧
  chip_total called = 2040 ∧
  (pot folded, chips <$> players folded, bet <$> players folded)
    = (0, [1040; 990], [0; 0]) ∧
  chip_total folded = 2030.
Proof. vm_compute. done. Qed.

(** C6. Heads-up, the button on the first player: [startNewHand] of
    App.tsx gives the dealer the big blind (20 posted) and the other
    player the small blind (10 posted). The seat-based variant, on the
    same players, gives the dealer the small blind, as it does on every
    table with two players in chips
    ([SeatedFacts.seated_heads_up_dealer_posts_small_blind]). *)
Theorem heads_up_dealer_posts_big_blind :
  (λ p, (isDealer p, isSmallBlind p, isBigBlind p, bet p))
    <$> players (startNewHand token0 draw0 0 heads_up (initial heads_up))
  = [(true, false, true, 20); (false, true, false, 10)] ∧
  (λ p, (isDealer p, isSmallBlind p, isBigBlind p, bet p))
    <$> (default [] (players <$> Seated.startNewHand token0 draw0 0 heads_up (initial heads_up)))
  = [(true, true, false, 10); (false, false, true, 20)].
Proof. vm_compute. done. Qed.

(** C5, as stated, fails at the street boundary: after that run
    [nextPhase] sets [activePlayerIdx] to the player who is AllIn. *)
Lemma nextPhase_selects_all_in_player :
  let st0 := startNewHand token0 draw0 0 short_stack (initial short_stack) in
  let r1 := handleCheckCall st0 in
  let r2 := handleCheckCall r1.1 in
  let r3 := run_scheduled token0 draw0 r1.1 r2 in
  r1.2 = None ∧ r2.2 = Some (NextPhaseAfter 500) ∧
  phase r3.1 = Flop ∧ activePlayerIdx r3.1 = 1%nat ∧
  status <$> players r3.1 !! activePlayerIdx r3.1 = Some AllIn.
Proof. vm_compute. done. Qed.

(** C5, amended. After a player action at a table with players,
    [moveToNextPlayer] either finds the betting of the street over,
    schedules [nextPhase] and leaves [activePlayerIdx] as it is, or
    schedules nothing and sets [activePlayerIdx] to the first player
    after the one who acted, in seat order and around the table, whose
    status is Active. At a street boundary, when some player of its
    render is Active or AllIn, [nextPhase] sets [activePlayerIdx] to the
    first player after the dealer whose status is Active or AllIn: never
    Folded or Busted, possibly AllIn. *)
Theorem turn_advance_targets :
  (∀ env st,
     players st ≠ [] →
     let r := moveToNextPlayer env st in
     (betting_closed env st ∧ (∃ ms, r.2 = Some (NextPhaseAfter ms)) ∧
      activePlayerIdx r.1 = activePlayerIdx st) ∨
     (¬ betting_closed env st ∧ r.2 = None ∧
      first_from (λ s, s = Active) (players r.1) (activePlayerIdx env + 1)
        (activePlayerIdx r.1))) ∧
  (∀ env st,
     Exists (λ p, status p = Active ∨ status p = AllIn) (players env) →
     let r := nextPhase env st in
     first_from (λ s, s = Active ∨ s = AllIn) (players r.1) (dealerIdx env + 1)
       (activePlayerIdx r.1)).
Proof. split; [apply moveToNextPlayer_turn|apply nextPhase_turn]. Qed.

(** The theorem at the run above: before the flop the turn passes from
    the first player to the second, and the flop starts with the second,
    who is AllIn. *)
Lemma turn_advance_targets_witness :
  let st0 := startNewHand token0 draw0 0 short_stack (initial short_stack) in
  let r1 := handleCheckCall st0 in
  let r2 := handleCheckCall r1.1 in
  let env := setPlayers (players r2.1) r1.1 in
  (players st0 ≠ [] ∧
   first_from (λ s, s = Active) (players (moveToNextPlayer st0 st0).1)
     (activePlayerIdx st0 + 1) (activePlayerIdx (moveToNextPlayer st0 st0).1)) ∧
  (Exists (λ p, status p = Active ∨ status p = AllIn) (players env) ∧
   first_from (λ s, s = Active ∨ s = AllIn) (players (nextPhase env r2.1).1)
     (dealerIdx env + 1) (activePlayerIdx (nextPhase env r2.1).1)).
Proof.
  intros st0 r1 r2 env.
  assert (H0 : players st0 ≠ []) by (vm_compute; discriminate).
  assert (H : Exists (λ p, status p = Active ∨ status p = AllIn) (players env)).
  { apply Exists_exists. exists (mkPlayer "B" "B" 0 15
      (default [] (hand <$> players r2.1 !! 1%nat)) AllIn false true false 0).
    split; [|by right]. apply list_elem_of_lookup. exists 1%nat. vm_compute. reflexivity. }
  split.
  - split; [exact H0|].
    destruct (proj1 turn_advance_targets st0 st0 H0) as [(_ & [ms Hms] & _)|(_ & _ & Hf)].
    + vm_compute in Hms. discriminate Hms.
    + exact Hf.
  - split; [exact H|]. exact (proj2 turn_advance_targets env r2.1 H).
Defined.

(** C7, as stated, fails: a raise the player cannot pay is dropped
    without any trace, no log entry and no error for the caller. *)
Lemma rejected_raise_surfaces_nothing :
  ∃ pRef, players raise_table !! activePlayerIdx raise_table = Some pRef ∧
          currentBet raise_table + BIG_BLIND - bet pRef > chips pRef ∧
          ¬ surfaced raise_table (handleRaise BIG_BLIND raise_table).
Proof.
  eexists. split; [reflexivity|]. split; [vm_compute; reflexivity|].
  unfold surfaced. intros H. apply H. vm_compute. reflexivity.
Qed.

(** C7, amended. For [handleRaise(amount)] with [pRef] the player to act,
    [totalBet = currentBet + amount] and [needed = totalBet - pRef.bet]:
    if [needed > pRef.chips] the call changes nothing and schedules
    nothing (and reports nothing); otherwise the player's bet becomes
    [totalBet], their chips drop by [needed], [currentBet] becomes
    [totalBet], the pot grows by [needed], and the other players are as
    they were. *)
Theorem handleRaise_spec (amount : Z) (env : TableState) (pRef : Player) :
  players env !! activePlayerIdx env = Some pRef →
  let totalBet := currentBet env + amount in
  let needed := totalBet - bet pRef in
  (needed > chips pRef → handleRaise amount env = (env, None)) ∧
  (needed ≤ chips pRef →
     let st := (handleRaise amount env).1 in
     players st = <[activePlayerIdx env :=
                      with_bet totalBet (with_chips (chips pRef - needed) pRef)]> (players env) ∧
     currentBet st = totalBet ∧
     pot st = pot env + needed).
Proof.
  intros Hp totalBet needed. unfold handleRaise. rewrite Hp. cbv zeta.
  fold totalBet. fold needed. split; intros Hn.
  - by rewrite decide_True.
  - rewrite decide_False by lia.
    match goal with
    | |- context [moveToNextPlayer ?e ?t] =>
        destruct (moveToNextPlayer_cells e t) as (H1 & H2 & H3 & _)
    end.
    cbv zeta in H1, H2, H3. rewrite H1, H2, H3. done.
Qed.

(** The theorem at a raise that cannot be paid and at one that can. *)
Lemma handleRaise_spec_witness :
  handleRaise BIG_BLIND raise_table = (raise_table, None) ∧
  pot (handleRaise BIG_BLIND (setActivePlayerIdx 0 raise_table)).1 = 60.
Proof.
  pose proof (handleRaise_spec BIG_BLIND raise_table
                (mkPlayer "B" "B" 5 0 [] Active false true false 0) eq_refl) as [H1 _].
  pose proof (handleRaise_spec BIG_BLIND (setActivePlayerIdx 0 raise_table)
                (mkPlayer "A" "A" 980 20 [] Active true false false 0) eq_refl) as [_ H2].
  split.
  - apply H1. vm_compute. reflexivity.
  - assert (Hle : currentBet (setActivePlayerIdx 0 raise_table) + BIG_BLIND - 20 ≤ 980)
      by (vm_compute; intros E; discriminate E).
    destruct (H2 Hle) as (_ & _ & H). rewrite H. reflexivity.
Defined.

(** C4, as stated, fails: the street ends, the showdown finds the two
    players with the same score, the same ranks in [bestFive], and pays the
    40 chips of the pot to the first of them; the second receives nothing
    instead of 20. *)
Lemma showdown_tie_pays_first_player_only :
  let r := nextPhase river_table river_table in
  ∃ ex ey,
    evaluateHand ace_king ace_board = Some ex ∧
    evaluateHand ace_king_too ace_board = Some ey ∧
    score ex = score ey ∧
    (rank <$> omap (λ c, c) (bestFive ex)) = (rank <$> omap (λ c, c) (bestFive ey)) ∧
    phase r.1 = Showdown ∧
    pot river_table = 40 ∧
    chips <$> players river_table = [980; 980] ∧
    chips <$> players r.1 = [1020; 980].
Proof.
  eexists _, _. split; [vm_compute; reflexivity|]. split; [vm_compute; reflexivity|].
  vm_compute. done.
Qed.

(** C4, amended. At showdown, with distinct player ids, every player
    holding cards and some player neither Folded nor Busted: the whole pot,
    as the handler reads it, is added to the chips of one player, the first
    in seat order among the players neither Folded nor Busted whose score is
    maximal (the ones seated before score strictly less, the ones seated
    after at most as much); every other player, tied or not, keeps the
    same chips. *)
Theorem showdown_first_best_takes_pot (env st : TableState) :
  NoDup (id <$> players st) →
  Forall (λ p, hand p ≠ []) (players st) →
  Exists in_hand (players st) →
  ∃ before w after ew,
    players st = before ++ w :: after ∧
    in_hand w ∧
    evaluateHand (hand w) (communityCards env) = Some ew ∧
    Forall (λ q, in_hand q → scores_below (communityCards env) (score ew) q) before ∧
    Forall (λ q, in_hand q → scores_at_most (communityCards env) (score ew) q) after ∧
    players (handleShowdown env st).1
      = before ++ with_chips (chips w + pot env) w :: after ∧
    winnerIdx (handleShowdown env st).1 = Some (Z.of_nat (length before)).
Proof. apply handleShowdown_pays. Qed.

(** The theorem at the tied table above. *)
Lemma showdown_first_best_takes_pot_witness :
  ∃ before w after,
    players river_table = before ++ w :: after ∧
    players (handleShowdown river_table river_table).1
      = before ++ with_chips (chips w + pot river_table) w :: after.
Proof.
  assert (H1 : NoDup (id <$> players river_table)) by compute_done.
  assert (H2 : Forall (λ p, hand p ≠ []) (players river_table)).
  { repeat constructor; simpl; discriminate. }
  assert (H3 : Exists in_hand (players river_table)).
  { apply Exists_cons_hd. vm_compute. exact I. }
  destruct (showdown_first_best_takes_pot river_table river_table H1 H2 H3)
    as (before & w & after & ew & Hps & _ & _ & _ & _ & Hpaid & _).
  exists before, w, after. split; [exact Hps|exact Hpaid].
Defined.

End engine_claims.

(* ===================================================================== *)
(** * Further properties of the hand evaluator *)
(* ===================================================================== *)

Module EvaluatorMore.

Import EvaluatorFacts.

Lemma getStraightHigh_le cards v : getStraightHigh cards = Some v → v ≤ 14.
Proof.
  unfold getStraightHigh, straight_high_of. intros H.
  apply straight_scan_elem in H. unfold with_low_ace in H.
  assert (Hb : ∀ x, x ∈ uniqueValues cards → x ≤ 14).
  { intros x Hx. apply elem_of_uniqueValues, list_elem_of_fmap in Hx as (c & -> & _).
    apply value_bounds. }
  case_decide; [apply elem_of_app in H as [H|H]|].
  - by apply Hb.
  - apply list_elem_of_singleton in H. lia.
  - by apply Hb.
Qed.

Lemma score_band h c e :
  evaluateHand h c = Some e →
  ∃ k, category_base (rankName e) = Some (100 * k) ∧ 100 * k < score e ≤ 100 * k + 14.
Proof.
  intros H. invert_evaluateHand H; simpl.
  all: repeat match goal with
       | Ht : truthy _ = Some _ |- _ =>
           apply truthy_Some in Ht;
           pose proof (getStraightHigh_pos _ _ Ht); apply getStraightHigh_le in Ht
       end.
  all: try match goal with
       | |- context [value ?c] => pose proof (value_bounds c)
       end.
  all: first [ by (exists 8; split; [reflexivity|lia])
             | by (exists 7; split; [reflexivity|lia])
             | by (exists 6; split; [reflexivity|lia])
             | by (exists 5; split; [reflexivity|lia])
             | by (exists 4; split; [reflexivity|lia])
             | by (exists 3; split; [reflexivity|lia])
             | by (exists 2; split; [reflexivity|lia])
             | by (exists 1; split; [reflexivity|lia])
             | by (exists 0; split; [reflexivity|lia]) ].
Qed.

(** *** The straight scan finds the highest run *)

Lemma straight_checks_all : forallb straight_check (sublists all_values) = true.
Proof. vm_compute. reflexivity. Qed.

Lemma getStraightHigh_highest_run cards :
  getStraightHigh cards = highest_run (uniqueValues cards).
Proof.
  pose proof straight_checks_all as H. rewrite forallb_forall in H.
  specialize (H (uniqueValues cards)).
  unfold straight_check in H. unfold getStraightHigh.
  eapply bool_decide_eq_true_1, H, list_elem_of_In, uniqueValues_in_sublists.
Qed.

Lemma run_fromb_spec vs h : run_fromb vs h = true ↔ run_from vs h.
Proof.
  unfold run_fromb, run_from. rewrite forallb_forall. split.
  - intros H k Hk. assert (Hin : In k [0; 1; 2; 3; 4]) by (simpl; lia).
    by apply H, bool_decide_eq_true in Hin.
  - intros H k Hk. apply bool_decide_eq_true, H. simpl in Hk. lia.
Qed.

Lemma run_from_ext vs vs' h :
  (∀ v, v ∈ vs ↔ v ∈ vs') → run_from vs h ↔ run_from vs' h.
Proof.
  intros Hext. unfold run_from, has_value.
  split; intros H k Hk; specialize (H k Hk); by rewrite ?Hext in *.
Qed.

Lemma run_from_bounds cards h : run_from (value <$> cards) h → 5 ≤ h ≤ 14.
Proof.
  intros H.
  assert (Hv : ∀ v, has_value (value <$> cards) v → 1 ≤ v ≤ 14).
  { intros v [Hv|[-> _]]; [|lia].
    apply list_elem_of_fmap in Hv as (c & -> & _). pose proof (value_bounds c). lia. }
  pose proof (Hv _ (H 0 ltac:(lia))). pose proof (Hv _ (H 4 ltac:(lia))). lia.
Qed.

Lemma find_down_from (f : Z → bool) k : ∀ a,
  (∀ h, List.find f (down_from a k) = Some h ↔
        a - Z.of_nat k < h ≤ a ∧ f h = true ∧ ∀ h', h < h' ≤ a → f h' = false) ∧
  (List.find f (down_from a k) = None ↔ ∀ h, a - Z.of_nat k < h ≤ a → f h = false).
Proof.
  induction k as [|k IH]; intros a.
  - simpl. split; [intros h|]; split; try done; [lia|intros; lia].
  - cbn [down_from List.find]. destruct (IH (a - 1)) as [IH1 IH2].
    destruct (f a) eqn:Hfa.
    + split; [intros h|]; split.
      * intros [= <-]. split_and!; first [done|lia|intros; lia].
      * intros (Hr & Hf & Hmax). f_equal.
        destruct (decide (h = a)) as [|Hne]; [done|].
        specialize (Hmax a ltac:(lia)). congruence.
      * done.
      * intros H. specialize (H a ltac:(lia)). congruence.
    + split; [intros h|].
      * rewrite IH1. split.
        -- intros (Hr & Hf & Hmax). split; [lia|]. split; [done|].
           intros h' Hh'. destruct (decide (h' = a)) as [->|]; [done|]. apply Hmax. lia.
        -- intros (Hr & Hf & Hmax).
           assert (h ≠ a) by (intros ->; congruence).
           split; [lia|]. split; [done|]. intros; apply Hmax; lia.
      * rewrite IH2. split.
        -- intros H h Hh. destruct (decide (h = a)) as [->|]; [done|]. apply H. lia.
        -- intros H h Hh. apply H. lia.
Qed.

Lemma not_run_fromb vs h : run_fromb vs h = false ↔ ¬ run_from vs h.
Proof. rewrite <- run_fromb_spec. by destruct (run_fromb vs h). Qed.

(** *** [getFlushSuit] misses no suit *)

Lemma getFlushSuit_loop_complete cards : ∀ (counts : gmap string nat),
  (∀ s, default 0 (counts !! Suit_value s) < 5)%nat →
  getFlushSuit_loop counts cards = None →
  ∀ s, (default 0 (counts !! Suit_value s)
        + length (filter (λ c, suit c = s) cards) < 5)%nat.
Proof.
  induction cards as [|c cards IH]; intros counts Hlt H s; simpl in *.
  - specialize (Hlt s). lia.
  - case_decide as Hn; [done|].
    assert (Hlt' : ∀ s', (default 0 (<[Suit_value (suit c) :=
              (default 0 (counts !! Suit_value (suit c)) + 1)%nat]> counts
              !! Suit_value s') < 5)%nat).
    { intros s'. destruct (decide (s' = suit c)) as [->|Hne].
      - rewrite lookup_insert_eq. simpl. lia.
      - rewrite lookup_insert_ne; [apply Hlt|]. intros E. by apply Suit_value_inj in E. }
    specialize (IH _ Hlt' H s).
    destruct (decide (suit c = s)) as [<-|Hne].
    + rewrite filter_cons_True by done. rewrite lookup_insert_eq in IH. simpl in *. lia.
    + rewrite filter_cons_False by done.
      rewrite lookup_insert_ne in IH; [done|]. intros E. by apply Suit_value_inj in E.
Qed.

(** *** [getNOfAKind] misses no rank *)

Lemma counts_ok_all cards : counts_ok cards (foldl count_card [] cards).
Proof.
  apply (foldl_count_card_ok cards [] []).
  split_and!; [constructor| |]; intros; by (exfalso; eapply not_elem_of_nil).
Qed.

Lemma filter_Rank_value (r : Rank) (cards : list Card) :
  filter (λ c, Rank_value (rank c) = Rank_value r) cards = filter (λ c, rank c = r) cards.
Proof. apply list_filter_iff. intros c. split; [apply Rank_value_inj|by intros ->]. Qed.

Lemma getNOfAKind_None cards n :
  (0 < n)%nat →
  getNOfAKind cards n = None ↔
  ∀ r, (length (filter (λ c, rank c = r) cards) < n)%nat.
Proof.
  intros Hn. destruct (counts_ok_all cards) as (_ & Hcs & Hkeys).
  unfold getNOfAKind. cbv zeta. rewrite fmap_None. split.
  - intros Hf r.
    destruct (filter (λ c, rank c = r) cards) as [|c0 rest] eqn:Hfilt; [simpl; lia|].
    assert (Hc0 : c0 ∈ filter (λ c, rank c = r) cards) by (rewrite Hfilt; left).
    apply list_elem_of_filter in Hc0 as [Hr Hc0].
    apply Hkeys, list_elem_of_fmap in Hc0 as ([k cs] & Hk & Hin). simpl in Hk. subst k.
    pose proof (Hcs _ _ Hin) as Hcs'.
    apply list_elem_of_In in Hin.
    eapply find_none in Hf; [|exact Hin]. apply bool_decide_eq_false in Hf. simpl in Hf.
    rewrite <- Hfilt. rewrite <- Hr, <- filter_Rank_value, <- Hcs'. lia.
  - intros Hall.
    destruct (List.find _ _) as [[k cs]|] eqn:Hf; [exfalso|done].
    apply find_some in Hf as [Hin Hlen]. apply bool_decide_eq_true in Hlen. simpl in Hlen.
    apply list_elem_of_In in Hin. apply Hcs in Hin. subst cs.
    destruct (filter (λ c, Rank_value (rank c) = k) cards) as [|c0 rest] eqn:Hfilt;
      [simpl in Hlen; lia|].
    assert (Hc0 : c0 ∈ filter (λ c, Rank_value (rank c) = k) cards)
      by (rewrite Hfilt; left).
    apply list_elem_of_filter in Hc0 as [Hk _]. subst k.
    rewrite filter_Rank_value in Hfilt. specialize (Hall (rank c0)).
    rewrite Hfilt in Hall. lia.
Qed.

Lemma getNOfAKind_counts_below cards n :
  (0 < n)%nat → getNOfAKind cards n = None →
  ∀ r, (length (filter (λ c, rank c = r) cards) < n)%nat.
Proof. intros Hn. by apply getNOfAKind_None. Qed.

Lemma getNOfAKind_subseteq cards n l : getNOfAKind cards n = Some l → l ⊆ cards.
Proof.
  unfold getNOfAKind. cbv zeta. intros H.
  apply fmap_Some in H as ([k cs] & Hf & ->). simpl.
  apply find_some in Hf as [Hin _]. apply list_elem_of_In in Hin.
  destruct (counts_ok_all cards) as (_ & Hcs & _). apply Hcs in Hin. subst cs.
  intros x Hx. apply subseteq_take in Hx. by apply list_elem_of_filter in Hx as [_ ?].
Qed.

Lemma flush_cards_length cards s :
  getFlushSuit cards = Some s → (5 ≤ length (filter (λ c, suit c = s) cards))%nat.
Proof.
  unfold getFlushSuit. intros H. apply getFlushSuit_loop_count in H.
  rewrite lookup_empty in H. simpl in H. lia.
Qed.

Lemma others_length (r : Rank) (cards : list Card) k :
  (5 ≤ length cards)%nat →
  (length (filter (λ c, rank c = r) cards) < k)%nat →
  (5 - (k - 1) ≤ length (filter (λ c, rank c ≠ r) cards))%nat.
Proof.
  intros H5 Hk.
  assert (length (filter (λ c, rank c = r) cards)
          + length (filter (λ c, rank c ≠ r) cards) = length cards)%nat.
  { rewrite <- length_app.
    apply Permutation_length, (filter_app_complement (λ c, rank c = r)). }
  lia.
Qed.

Lemma bestFive_length_cases h c e :
  (5 ≤ length (h ++ c))%nat →
  evaluateHand h c = Some e →
  length (bestFive e) = 4%nat ∧ rankName e = "Four of a Kind" ∨
  length (bestFive e) = 5%nat ∧ rankName e ≠ "Four of a Kind".
Proof.
  intros H5 H.
  assert (Hlen : (5 ≤ length (sort_desc value (h ++ c)))%nat)
    by (by rewrite sort_desc_Permutation).
  invert_evaluateHand H; cbn [bestFive rankName].
  all: repeat match goal with
       | Hg : getNOfAKind _ _ = Some _ |- _ =>
           apply getNOfAKind_length in Hg; cbn [length] in Hg
       | Hg : getNOfAKind ?l 4 = None |- _ =>
           pose proof (getNOfAKind_counts_below l 4 ltac:(lia) Hg); clear Hg
       | Hg : getNOfAKind (sort_desc ?k ?l) 3 = None |- _ =>
           pose proof (getNOfAKind_counts_below (sort_desc k l) 3 ltac:(lia) Hg); clear Hg
       | Hf : getFlushSuit _ = Some _ |- _ => apply flush_cards_length in Hf
       end.
  all: try match goal with
       | Hq : ∀ r, (length (filter _ ?l) < ?k)%nat
         |- context [filter (λ c, rank c ≠ rank ?t) ?l] =>
           pose proof (others_length (rank t) l k Hlen (Hq (rank t)))
       end.
  all: repeat match goal with
       | Hf : filter _ _ = _ :: _ |- _ => rewrite Hf in *
       end.
  all: rewrite ?length_fmap, ?length_app, ?length_fmap, ?length_app, ?length_take;
       cbn [length] in *.
  all: first [ left; split; [lia|done] | right; split; [lia|done] ].
Qed.

End EvaluatorMore.

Section evaluator_more.

Import EvaluatorFacts EvaluatorMore.

(** X1. [evaluateHand] throws exactly when it is given no card at all:
    with at least one card, in the hand or on the board, it returns an
    evaluation. *)
Theorem evaluateHand_throws_iff_no_cards (h c : list Card) :
  evaluateHand h c = None ↔ h = [] ∧ c = [].
Proof.
  split.
  - intros H. destruct (decide (h ++ c = [])) as [E|E]; [by apply app_eq_nil in E|].
    apply evaluateHand_is_Some in E as [e He]. congruence.
  - intros [-> ->]. reflexivity.
Qed.

(** X2. The score of an evaluation lies strictly above the base of its
    category and at most 14 above it, the bases being 100 apart: a hand of
    a higher category always outscores a hand of a lower one. *)
Theorem score_orders_categories (h1 c1 h2 c2 : list Card) (e1 e2 : HandEvaluation) :
  evaluateHand h1 c1 = Some e1 → evaluateHand h2 c2 = Some e2 →
  ∃ b1 b2,
    category_base (rankName e1) = Some b1 ∧ category_base (rankName e2) = Some b2 ∧
    b1 < score e1 ≤ b1 + 14 ∧ b2 < score e2 ≤ b2 + 14 ∧
    (b1 < b2 → score e1 < score e2).
Proof.
  intros H1 H2.
  apply score_band in H1 as (k1 & Hb1 & Hs1). apply score_band in H2 as (k2 & Hb2 & Hs2).
  exists (100 * k1), (100 * k2). split_and!; try done; lia.
Qed.

Lemma score_orders_categories_witness :
  ∃ e1 e2 b1 b2,
    evaluateHand ace_king ace_board = Some e1 ∧
    evaluateHand [card Two Clubs; card Two Spades] ace_board = Some e2 ∧
    category_base (rankName e1) = Some b1 ∧ category_base (rankName e2) = Some b2 ∧
    b1 < score e1 ≤ b1 + 14 ∧ b2 < score e2 ≤ b2 + 14 ∧
    (b1 < b2 → score e1 < score e2).
Proof.
  eexists _, _.
  assert (H1 : evaluateHand ace_king ace_board
               = Some (mkEval 114 "Pair"
                   (Some <$> [card Ace Hearts; card Ace Spades; card King Diamonds;
                              card Eight Diamonds; card Seven Clubs]))) by reflexivity.
  assert (H2 : evaluateHand [card Two Clubs; card Two Spades] ace_board
               = Some (mkEval 302 "Three of a Kind"
                   (Some <$> [card Two Clubs; card Two Spades; card Two Hearts;
                              card Ace Spades; card Eight Diamonds]))) by reflexivity.
  destruct (score_orders_categories _ _ _ _ _ _ H1 H2) as (b1 & b2 & H).
  exists b1, b2. split; [exact H1|]. split; [exact H2|]. exact H.
Defined.

(** X3. [getStraightHigh] returns the top value of the highest run of five
    consecutive rank values among the cards, an ace counting as 14 and as
    1, and [null] exactly when there is no such run. *)
Theorem getStraightHigh_is_highest_run (cards : list Card) :
  (∀ h, getStraightHigh cards = Some h ↔
        run_from (value <$> cards) h ∧
        ∀ h', h < h' → ¬ run_from (value <$> cards) h') ∧
  (getStraightHigh cards = None ↔ ∀ h, ¬ run_from (value <$> cards) h).
Proof.
  rewrite getStraightHigh_highest_run. unfold highest_run.
  destruct (find_down_from (run_fromb (uniqueValues cards)) 10 14) as [HS HN].
  assert (Hext : ∀ h, run_from (uniqueValues cards) h ↔ run_from (value <$> cards) h).
  { intros h. apply run_from_ext, elem_of_uniqueValues. }
  split.
  - intros h. rewrite HS. split.
    + intros (Hr & Hf & Hmax). apply run_fromb_spec, Hext in Hf. split; [done|].
      intros h' Hlt Hrun. pose proof (run_from_bounds _ _ Hrun).
      specialize (Hmax h' ltac:(lia)). apply not_run_fromb in Hmax.
      by apply Hmax, Hext.
    + intros (Hrun & Hmax). pose proof (run_from_bounds _ _ Hrun).
      split; [lia|]. split; [by apply run_fromb_spec, Hext|].
      intros h' Hh'. apply not_run_fromb. rewrite Hext. apply Hmax. lia.
  - rewrite HN. split.
    + intros H h Hrun. pose proof (run_from_bounds _ _ Hrun).
      specialize (H h ltac:(lia)). apply not_run_fromb in H. by apply H, Hext.
    + intros H h _. apply not_run_fromb. rewrite Hext. apply H.
Qed.

(** X4. [getFlushSuit] returns a suit only if at least five of the cards
    have it, and returns [null] exactly when no suit has five cards. *)
Theorem getFlushSuit_five_of_a_suit (cards : list Card) :
  (∀ s, getFlushSuit cards = Some s →
        (5 ≤ length (filter (λ c, suit c = s) cards))%nat) ∧
  (getFlushSuit cards = None ↔
   ∀ s, (length (filter (λ c, suit c = s) cards) < 5)%nat).
Proof.
  split; [intros s; apply flush_cards_length|]. split.
  - intros H s.
    pose proof (getFlushSuit_loop_complete cards ∅) as Hc.
    specialize (Hc ltac:(intros; rewrite lookup_empty; simpl; lia) H s).
    rewrite lookup_empty in Hc. simpl in Hc. lia.
  - apply getFlushSuit_None.
Qed.

(** X5. For [n] at least 1, [getNOfAKind] returns the first [n] cards, in
    array order, of a rank that at least [n] of the cards have, and
    returns [null] exactly when no rank has [n] cards. *)
Theorem getNOfAKind_finds_a_rank (cards : list Card) (n : nat) :
  (0 < n)%nat →
  (∀ l, getNOfAKind cards n = Some l →
        ∃ r, l = take n (filter (λ c, rank c = r) cards) ∧
             (n ≤ length (filter (λ c, rank c = r) cards))%nat) ∧
  (getNOfAKind cards n = None ↔
   ∀ r, (length (filter (λ c, rank c = r) cards) < n)%nat).
Proof.
  intros Hn. split; [intros l; by apply getNOfAKind_sound|by apply getNOfAKind_None].
Qed.

Lemma getNOfAKind_finds_a_rank_witness :
  (0 < 2)%nat ∧
  (∀ l, getNOfAKind (ace_king ++ ace_board) 2 = Some l →
        ∃ r, l = take 2 (filter (λ c, rank c = r) (ace_king ++ ace_board)) ∧
             (2 ≤ length (filter (λ c, rank c = r) (ace_king ++ ace_board)))%nat) ∧
  (getNOfAKind (ace_king ++ ace_board) 2 = None ↔
   ∀ r, (length (filter (λ c, rank c = r) (ace_king ++ ace_board)) < 2)%nat).
Proof.
  assert (H : (0 < 2)%nat) by lia.
  split; [exact H|]. exact (getNOfAKind_finds_a_rank (ace_king ++ ace_board) 2 H).
Defined.

(** X6. Given at least five cards, [bestFive] has five entries in every
    category but Four of a Kind, where it has four. *)
Theorem bestFive_length (h c : list Card) (e : HandEvaluation) :
  (5 ≤ length (h ++ c))%nat →
  evaluateHand h c = Some e →
  length (bestFive e)
  = if decide (rankName e = "Four of a Kind") then 4%nat else 5%nat.
Proof.
  intros H5 H. destruct (bestFive_length_cases h c e H5 H) as [[-> Hn]|[-> Hn]].
  - by rewrite decide_True.
  - by rewrite decide_False.
Qed.

Lemma bestFive_length_witness :
  ∃ e, (5 ≤ length (ace_king ++ ace_board))%nat ∧
       evaluateHand ace_king ace_board = Some e ∧
       length (bestFive e)
       = if decide (rankName e = "Four of a Kind") then 4%nat else 5%nat.
Proof.
  eexists.
  assert (H5 : (5 ≤ length (ace_king ++ ace_board))%nat) by (simpl; lia).
  assert (H1 : evaluateHand ace_king ace_board
               = Some (mkEval 114 "Pair"
                   (Some <$> [card Ace Hearts; card Ace Spades; card King Diamonds;
                              card Eight Diamonds; card Seven Clubs]))) by reflexivity.
  split; [exact H5|]. split; [exact H1|].
  exact (bestFive_length _ _ _ H5 H1).
Defined.

(** X7. Every card in [bestFive] is one of the cards given. *)
Theorem bestFive_cards_are_given (h c : list Card) (e : HandEvaluation) (x : Card) :
  evaluateHand h c = Some e → Some x ∈ bestFive e → x ∈ h ++ c.
Proof.
  intros H Hx.
  rewrite <- (sort_desc_Permutation value (h ++ c)).
  invert_evaluateHand H; cbn [bestFive] in Hx.
  all: repeat match goal with
       | Hg : getNOfAKind _ _ = Some _ |- _ => apply getNOfAKind_subseteq in Hg
       end.
  all: try (apply elem_of_app in Hx as [Hx|Hx];
            [|apply list_elem_of_singleton in Hx; symmetry in Hx;
              apply head_Some_elem_of in Hx;
              by apply list_elem_of_filter in Hx as [_ Hx]]).
  all: apply list_elem_of_fmap in Hx as (y & [= <-] & Hy).
  all: repeat match goal with
       | Hy : _ ∈ _ ++ _ |- _ => apply elem_of_app in Hy as [Hy|Hy]
       | Hy : _ ∈ take _ _ |- _ => apply subseteq_take in Hy
       | Hs : ?l ⊆ _, Hy : _ ∈ ?l |- _ => apply Hs in Hy
       | Hy : _ ∈ filter _ _ |- _ => apply list_elem_of_filter in Hy as [_ Hy]
       end.
  all: try done.
  all: match goal with
       | Hf : filter _ ?l = ?k, Hy : ?x ∈ ?k |- ?x ∈ ?l =>
           rewrite <- Hf in Hy; by apply list_elem_of_filter in Hy as [_ Hy]
       end.
Qed.

Lemma bestFive_cards_are_given_witness :
  ∃ e, evaluateHand ace_king ace_board = Some e ∧
       Some (card King Diamonds) ∈ bestFive e ∧
       card King Diamonds ∈ ace_king ++ ace_board.
Proof.
  eexists.
  assert (H1 : evaluateHand ace_king ace_board
               = Some (mkEval 114 "Pair"
                   (Some <$> [card Ace Hearts; card Ace Spades; card King Diamonds;
                              card Eight Diamonds; card Seven Clubs]))) by reflexivity.
  assert (H2 : Some (card King Diamonds) ∈ bestFive (mkEval 114 "Pair"
                   (Some <$> [card Ace Hearts; card Ace Spades; card King Diamonds;
                              card Eight Diamonds; card Seven Clubs])))
    by (simpl; do 2 right; left).
  split; [exact H1|]. split; [exact H2|].
  exact (bestFive_cards_are_given _ _ _ _ H1 H2).
Defined.

End evaluator_more.

(* ===================================================================== *)
(** * Further properties of the engine *)
(* ===================================================================== *)

Module EngineMore.

Import EvaluatorFacts AppFacts.

(** *** Sums over the players *)

Lemma sum_of_from (f : Player → Z) (ps : list Player) : ∀ a,
  foldl (λ acc p, acc + f p) a ps = a + sum_of f ps.
Proof.
  unfold sum_of. induction ps as [|p ps IH]; intros a; simpl; [lia|].
  rewrite (IH (a + f p)), (IH (0 + f p)). lia.
Qed.

Lemma sum_of_cons f p ps : sum_of f (p :: ps) = f p + sum_of f ps.
Proof. unfold sum_of at 1. simpl. rewrite sum_of_from. lia. Qed.

Lemma sum_of_app f l1 l2 : sum_of f (l1 ++ l2) = sum_of f l1 + sum_of f l2.
Proof.
  induction l1 as [|p l1 IH]; [done|].
  rewrite <- app_comm_cons, !sum_of_cons, IH. lia.
Qed.

Lemma sum_of_insert f (l : list Player) i p q :
  l !! i = Some p → sum_of f (<[i := q]> l) = sum_of f l - f p + f q.
Proof.
  revert i. induction l as [|x l IH]; intros [|i] H; simplify_eq/=.
  - rewrite !sum_of_cons. lia.
  - rewrite !sum_of_cons, (IH i) by done. lia.
Qed.

Lemma sum_of_alter f g (l : list Player) i p :
  l !! i = Some p → sum_of f (alter g i l) = sum_of f l - f p + f (g p).
Proof.
  revert i. induction l as [|x l IH]; intros [|i] H; simplify_eq/=.
  - rewrite !sum_of_cons. lia.
  - rewrite !sum_of_cons, (IH i) by done. lia.
Qed.

Lemma sum_of_alter_same f g (l : list Player) i :
  (∀ p, f (g p) = f p) → sum_of f (alter g i l) = sum_of f l.
Proof.
  intros Hg. revert i. induction l as [|x l IH]; intros [|i]; try done.
  - change (alter g 0%nat (x :: l)) with (g x :: l). by rewrite !sum_of_cons, Hg.
  - change (alter g (S i) (x :: l)) with (x :: alter g i l). by rewrite !sum_of_cons, IH.
Qed.

Lemma sum_of_fmap f g (h : Player → Player) (l : list Player) :
  (∀ p, f (h p) = g p) → sum_of f (h <$> l) = sum_of g l.
Proof.
  intros Hh. induction l as [|p l IH]; [done|].
  rewrite fmap_cons, !sum_of_cons, IH, Hh. done.
Qed.

Lemma sum_of_zero f (l : list Player) : Forall (λ p, f p = 0) l → sum_of f l = 0.
Proof.
  induction 1 as [|p l Hp _ IH]; [done|]. rewrite sum_of_cons, IH, Hp. done.
Qed.

Lemma sum_of_nonneg f (l : list Player) : Forall (λ p, 0 ≤ f p) l → 0 ≤ sum_of f l.
Proof.
  induction 1 as [|p l Hp _ IH]; [done|]. rewrite sum_of_cons. lia.
Qed.

Lemma sum_of_Permutation f (l l' : list Player) : l ≡ₚ l' → sum_of f l = sum_of f l'.
Proof.
  induction 1; rewrite ?sum_of_cons; try done; try lia; congruence.
Qed.

(** *** What [moveToNextPlayer] and the showdown leave alone *)

Lemma moveToNextPlayer_stake env st : stake (moveToNextPlayer env st).1 = stake st.
Proof.
  unfold stake. destruct (moveToNextPlayer_cells env st) as (-> & -> & _). done.
Qed.

Lemma moveToNextPlayer_currentBet env st :
  currentBet (moveToNextPlayer env st).1 = currentBet st.
Proof. by destruct (moveToNextPlayer_cells env st) as (_ & _ & -> & _). Qed.

Lemma moveToNextPlayer_players env st :
  players (moveToNextPlayer env st).1 = players st.
Proof. by destruct (moveToNextPlayer_cells env st) as (-> & _). Qed.

Lemma moveToNextPlayer_pot env st : pot (moveToNextPlayer env st).1 = pot st.
Proof. by destruct (moveToNextPlayer_cells env st) as (_ & -> & _). Qed.

Lemma moveToNextPlayer_sane env st : sane st → sane (moveToNextPlayer env st).1.
Proof.
  unfold sane.
  by rewrite moveToNextPlayer_players, moveToNextPlayer_pot, moveToNextPlayer_currentBet.
Qed.

Lemma findIndex_found {A} (f : A → bool) (l : list A) x :
  x ∈ l → f x = true →
  ∃ y, l !! Z.to_nat (findIndex f l) = Some y ∧ f y = true ∧ 0 ≤ findIndex f l.
Proof.
  induction l as [|z l IH]; intros Hin Hf; [by apply not_elem_of_nil in Hin|].
  simpl. destruct (f z) eqn:Hz; [by exists z|].
  apply elem_of_cons in Hin as [->|Hin]; [congruence|].
  destruct (IH Hin Hf) as (y & Hy & Hfy & Hpos).
  rewrite decide_False by lia. exists y. split_and!; [|done|lia].
  replace (Z.to_nat (1 + findIndex f l)) with (S (Z.to_nat (findIndex f l))) by lia.
  done.
Qed.

(** The cells of the table after [handleShowdown]: the players change by
    one stack at most, which grows by the pot of the render. *)
Lemma handleShowdown_players env st :
  players (handleShowdown env st).1 = players st ∨
  ∃ i, players (handleShowdown env st).1
       = alter (λ p, with_chips (chips p + pot env) p) i (players st).
Proof.
  unfold handleShowdown. cbv zeta. simpl.
  case_decide; [by left|].
  destruct (foldl _ _ _) as [[[b [w|]] d]|]; simpl; [|by left..].
  case_decide; [by left|right; eauto].
Qed.

Lemma handleShowdown_cells env st :
  pot (handleShowdown env st).1 = pot st ∧
  currentBet (handleShowdown env st).1 = currentBet st.
Proof.
  unfold handleShowdown. cbv zeta. simpl.
  case_decide; [done|].
  by destruct (foldl _ _ _) as [[[b [w|]] d]|].
Qed.

(** *** [pop] at the end of the deck *)

Lemma pop_snoc {A} (d : list A) x : pop (d ++ [x]) = (Some x, d).
Proof.
  unfold pop. rewrite last_snoc, length_app. simpl.
  replace (length d + 1 - 1)%nat with (length d) by lia.
  by rewrite take_app_length.
Qed.

Lemma split_last_cards {A} (d : list A) k :
  (k ≤ length d)%nat →
  ∃ d0 dealt, d = d0 ++ reverse dealt ∧ length dealt = k.
Proof.
  intros Hk. exists (take (length d - k) d), (reverse (drop (length d - k) d)).
  rewrite reverse_involutive, take_drop, length_reverse, length_drop. split; [done|lia].
Qed.

(** *** Identity and status of the players *)

Lemma identity_insert (l : list Player) i p q :
  l !! i = Some p → identity q = identity p →
  identity <$> <[i := q]> l = identity <$> l.
Proof.
  intros H Hq. rewrite list_fmap_insert, Hq.
  apply list_insert_id. by rewrite list_lookup_fmap, H.
Qed.

Lemma identity_alter (g : Player → Player) (l : list Player) i :
  (∀ p, identity (g p) = identity p) →
  identity <$> alter g i l = identity <$> l.
Proof.
  intros Hg. apply list_eq. intros j.
  rewrite !list_lookup_fmap, list_lookup_alter.
  case_decide; subst; [|done]. destruct (l !! j); simpl; by rewrite ?Hg.
Qed.

Lemma identity_fmap (g : Player → Player) (l : list Player) :
  (∀ p, identity (g p) = identity p) → identity <$> (g <$> l) = identity <$> l.
Proof.
  intros Hg. rewrite <- list_fmap_compose. apply list_fmap_ext. intros _ p _. apply Hg.
Qed.

Lemma status_insert_other (l : list Player) i j q :
  j ≠ i → (status <$> <[i := q]> l) !! j = (status <$> l) !! j.
Proof. intros Hne. by rewrite !list_lookup_fmap, list_lookup_insert_ne. Qed.

Lemma sane_cells (t t' : TableState) :
  pot t' = pot t → currentBet t' = currentBet t → players t' = players t →
  sane t → sane t'.
Proof. unfold sane. by intros -> -> ->. Qed.

Lemma sane_lookup (t : TableState) i p :
  sane t → players t !! i = Some p → 0 ≤ pot t ∧ 0 ≤ chips p ∧ 0 ≤ bet p ≤ currentBet t.
Proof.
  intros [Hpot Hall] Hp. rewrite Forall_lookup in Hall. split; [done|]. by apply (Hall i).
Qed.

Lemma handleShowdown_sane env st : 0 ≤ pot env → sane st → sane (handleShowdown env st).1.
Proof.
  intros Hpot [Hp Hall]. unfold sane.
  destruct (handleShowdown_cells env st) as [-> ->]. split; [done|].
  destruct (handleShowdown_players env st) as [->|[i ->]]; [done|].
  apply Forall_alter; [done|]. intros x Hx. simpl. rewrite Forall_forall in Hall.
  assert (Hin : x ∈ players st) by (by eapply list_elem_of_lookup_2).
  apply Hall in Hin. lia.
Qed.

Lemma nextPhase_scan_is_Some (skip : PlayerStatus → bool) (a : list Player) d :
  a ≠ [] → is_Some (scan skip a ((d + 1) `mod` length a)%nat (length a)).
Proof.
  intros Hne. apply scan_is_Some. apply Nat.mod_upper_bound.
  destruct a; [done|simpl; lia].
Qed.

Lemma ids_of_identity (l l' : list Player) :
  identity <$> l = identity <$> l' → id <$> l = id <$> l'.
Proof.
  intros H. apply (f_equal (fmap (λ x : string * string * list Card * nat, x.1.1.1))) in H.
  rewrite <- !list_fmap_compose in H. exact H.
Qed.

Lemma insert_in_hand (l : list Player) i p :
  in_hand p → (i < length l)%nat → Exists in_hand (<[i := p]> l).
Proof.
  intros Hp Hi. apply Exists_exists. exists p. split; [|done].
  apply list_elem_of_lookup. exists i. by apply list_lookup_insert_eq.
Qed.

(** A showdown that finds every player with cards pays the pot of the
    render it runs in, once. *)
Lemma handleShowdown_sum env st :
  NoDup (id <$> players st) →
  Forall (λ p, hand p ≠ []) (players st) →
  Exists in_hand (players st) →
  sum_of chips (players (handleShowdown env st).1) = sum_of chips (players st) + pot env.
Proof.
  intros H1 H2 H3.
  destruct (handleShowdown_pays env st H1 H2 H3)
    as (before & w & after & ew & Hl & _ & _ & _ & _ & -> & _).
  rewrite Hl, !sum_of_app, !sum_of_cons. simpl. lia.
Qed.

End EngineMore.

Section engine_more.

Import EvaluatorFacts AppFacts EngineMore.

(** X8. A check or call moves [paid], the smaller of the amount to call
    and the stack, from the stack of the player to act to that player's
    bet and to the pot; the player becomes AllIn when the amount to call
    is at least the stack; no other player and no other stack changes,
    nor does the bet to match. The pot plus the stacks is therefore the
    same before and after [handleCheckCall], and so it is before and
    after [handleRaise]. *)
Theorem betting_keeps_pot_plus_stacks (env : TableState) (amount : Z) (p : Player) :
  players env !! activePlayerIdx env = Some p →
  let paid := Z.min (currentBet env - bet p) (chips p) in
  let st := (handleCheckCall env).1 in
  players st
  = <[activePlayerIdx env :=
        with_status (if decide (currentBet env - bet p >= chips p) then AllIn else status p)
          (with_bet (bet p + paid) (with_chips (chips p - paid) p))]> (players env) ∧
  pot st = pot env + paid ∧
  currentBet st = currentBet env ∧
  stake st = stake env ∧
  stake (handleRaise amount env).1 = stake env.
Proof.
  intros Hp paid st. subst paid st.
  assert (Hcall : players (handleCheckCall env).1
      = <[activePlayerIdx env :=
            with_status (if decide (currentBet env - bet p >= chips p) then AllIn else status p)
              (with_bet (bet p + Z.min (currentBet env - bet p) (chips p))
                 (with_chips (chips p - Z.min (currentBet env - bet p) (chips p)) p))]>
          (players env) ∧
    pot (handleCheckCall env).1 = pot env + Z.min (currentBet env - bet p) (chips p) ∧
    currentBet (handleCheckCall env).1 = currentBet env).
  { unfold handleCheckCall. rewrite Hp. cbv zeta.
    case_decide as Hall;
      rewrite moveToNextPlayer_players, moveToNextPlayer_pot, moveToNextPlayer_currentBet;
      simpl.
    - rewrite Z.min_r by lia. split_and!; [|done|done].
      f_equal. unfold with_status, with_bet, with_chips. simpl. f_equal; lia.
    - rewrite Z.min_l by lia. done. }
  destruct Hcall as (Hplayers & Hpot & Hbet).
  split_and!; [done|done|done| |].
  - unfold stake. rewrite Hplayers, Hpot, (sum_of_insert _ _ _ _ _ Hp). simpl.
    generalize (Z.min (currentBet env - bet p) (chips p)). intros; lia.
  - clear Hplayers Hpot Hbet.
    unfold handleRaise. rewrite Hp. cbv zeta. case_decide; [done|].
    rewrite moveToNextPlayer_stake. unfold stake. simpl.
    rewrite (sum_of_insert _ _ _ _ _ Hp). simpl. lia.
Qed.

(** The theorem at the river, where Y faces a bet of 20. *)
Lemma betting_keeps_pot_plus_stacks_witness :
  let st := (handleCheckCall river_bet_table).1 in
  chips <$> players st = [960; 960] ∧ bet <$> players st = [20; 20] ∧
  pot st = 80 ∧ stake st = stake river_bet_table.
Proof.
  assert (H1 : players river_bet_table !! activePlayerIdx river_bet_table
               = Some (mkPlayer "Y" "Y" 980 0 ace_king_too Active false true false 0))
    by reflexivity.
  destruct (betting_keeps_pot_plus_stacks river_bet_table BIG_BLIND _ H1)
    as (Hplayers & Hpot & _ & Hstake & _).
  cbv zeta. rewrite Hplayers, Hpot. split_and!; [reflexivity|reflexivity|reflexivity|].
  exact Hstake.
Defined.

(** X9. No stack, bet or pot becomes negative and no bet exceeds the bet
    to match: this holds after a fold, a check or call, a raise by a
    non-negative amount and the end of a street if it held before, also
    when the end of the street runs from an earlier render. *)
Theorem stacks_never_go_negative (env st : TableState) (amount : Z) :
  sane env → sane st → 0 ≤ amount →
  sane (handleFold env).1 ∧ sane (handleCheckCall env).1 ∧
  sane (handleRaise amount env).1 ∧ sane (nextPhase env st).1.
Proof.
  intros Henv Hst Hamount. split_and!.
  - unfold handleFold.
    destruct (players env !! activePlayerIdx env) as [p|] eqn:Hp; [|done].
    destruct (sane_lookup _ _ _ Henv Hp) as (Hpot & Hchips & Hbet).
    cbv zeta.
    assert (Hfolded : Forall (λ q, 0 ≤ chips q ∧ 0 ≤ bet q ≤ currentBet env)
                        (<[activePlayerIdx env := with_status Folded p]> (players env))).
    { apply Forall_insert; [apply Henv|done]. }
    destruct (filter in_hand _) as [|w [|w' ws]] eqn:Hf;
      try (apply moveToNextPlayer_sane; split; [done|exact Hfolded]).
    case_decide; [split; [done|exact Hfolded]|].
    split; simpl; [done|].
    apply Forall_fmap, Forall_alter.
    + eapply Forall_impl; [exact Hfolded|]. simpl. intros; lia.
    + intros x Hx. simpl.
      assert (0 ≤ sum_of bet (<[activePlayerIdx env := with_status Folded p]> (players env))).
      { apply sum_of_nonneg. eapply Forall_impl; [exact Hfolded|]. simpl. intros; lia. }
      rewrite Forall_forall in Hfolded.
      assert (Hin : x ∈ <[activePlayerIdx env := with_status Folded p]> (players env))
        by (by eapply list_elem_of_lookup_2).
      apply Hfolded in Hin. lia.
  - unfold handleCheckCall.
    destruct (players env !! activePlayerIdx env) as [p|] eqn:Hp; [|done].
    destruct (sane_lookup _ _ _ Henv Hp) as (Hpot & Hchips & Hbet).
    cbv zeta. case_decide; apply moveToNextPlayer_sane; split; simpl; try lia.
    all: apply Forall_insert; [apply Henv|simpl; lia].
  - unfold handleRaise.
    destruct (players env !! activePlayerIdx env) as [p|] eqn:Hp; [|done].
    destruct (sane_lookup _ _ _ Henv Hp) as (Hpot & Hchips & Hbet).
    cbv zeta. case_decide; [done|]. apply moveToNextPlayer_sane. split; simpl; [lia|].
    apply Forall_insert; [|simpl; lia].
    eapply Forall_impl; [apply Henv|]. simpl. intros; lia.
  - assert (Hcleared : sane (setCurrentBet 0 (setPlayers (with_bet 0 <$> players env) st))).
    { split; simpl; [apply Hst|]. apply Forall_fmap.
      eapply Forall_impl; [apply Henv|]. simpl. intros; lia. }
    unfold nextPhase. cbv zeta.
    destruct (scan _ _ _ _) as [nextActive|]; [|done].
    destruct (phase env); repeat (destruct (pop _)); try exact Hcleared.
    all: apply handleShowdown_sane; [apply Henv|exact Hcleared].
Qed.

Lemma stacks_never_go_negative_witness :
  sane (handleFold raise_table).1 ∧ sane (handleCheckCall raise_table).1 ∧
  sane (handleRaise BIG_BLIND raise_table).1 ∧ sane (nextPhase raise_table raise_table).1.
Proof.
  assert (H : sane raise_table).
  { split; [vm_compute; discriminate|]. repeat constructor; vm_compute; discriminate. }
  assert (Ha : 0 ≤ BIG_BLIND) by (vm_compute; discriminate).
  exact (stacks_never_go_negative raise_table raise_table BIG_BLIND H H Ha).
Defined.

(** X10. Before the flop, the turn and the river, [nextPhase] moves the
    last three, one and one cards of the deck of its render to the board
    of its render, in the order they are popped and without burning a
    card, sets the next phase, puts the players of its render on the
    table with every bet zeroed, zeroes the bet to match, and leaves the
    pot of the table alone. *)
Theorem nextPhase_deals_the_street (env st : TableState) (k : nat) (next : GamePhase) :
  street (phase env) = Some (k, next) →
  players env ≠ [] →
  (k ≤ length (deck env))%nat →
  ∃ dealt,
    length dealt = k ∧
    deck env = deck (nextPhase env st).1 ++ reverse dealt ∧
    communityCards (nextPhase env st).1 = communityCards env ++ dealt ∧
    phase (nextPhase env st).1 = next ∧
    (nextPhase env st).2 = None ∧
    players (nextPhase env st).1 = with_bet 0 <$> players env ∧
    currentBet (nextPhase env st).1 = 0 ∧
    pot (nextPhase env st).1 = pot st.
Proof.
  intros Hstreet Hne Hk.
  destruct (split_last_cards (deck env) k Hk) as (d0 & dealt & Hd & Hlen).
  exists dealt.
  destruct (nextPhase_scan_is_Some (λ s, bool_decide (s ≠ Active ∧ s ≠ AllIn))
              (with_bet 0 <$> players env) (dealerIdx env)) as [nextActive Hscan].
  { by destruct (players env). }
  unfold nextPhase. cbv zeta. rewrite Hscan, Hd.
  destruct (phase env); cbn [street] in Hstreet; simplify_eq.
  - destruct dealt as [|a [|b [|c [|? ?]]]]; try discriminate.
    rewrite !reverse_cons, reverse_nil.
    replace (d0 ++ (([] ++ [c]) ++ [b]) ++ [a]) with (((d0 ++ [c]) ++ [b]) ++ [a])
      by (by rewrite <- !app_assoc).
    rewrite !pop_snoc. simpl. by rewrite <- !app_assoc.
  - destruct dealt as [|a [|? ?]]; try discriminate.
    rewrite reverse_singleton, pop_snoc. done.
  - destruct dealt as [|a [|? ?]]; try discriminate.
    rewrite reverse_singleton, pop_snoc. done.
Qed.

Lemma nextPhase_deals_the_street_witness :
  let env := setDeck ace_board (setPhase PreFlop raise_table) in
  ∃ dealt,
    length dealt = 3%nat ∧
    deck env = deck (nextPhase env env).1 ++ reverse dealt ∧
    communityCards (nextPhase env env).1 = communityCards env ++ dealt ∧
    phase (nextPhase env env).1 = Flop ∧
    (nextPhase env env).2 = None ∧
    players (nextPhase env env).1 = with_bet 0 <$> players env ∧
    currentBet (nextPhase env env).1 = 0 ∧
    pot (nextPhase env env).1 = pot env.
Proof.
  intros env.
  assert (H1 : street (phase env) = Some (3%nat, Flop)) by reflexivity.
  assert (H2 : players env ≠ []) by discriminate.
  assert (H3 : (3 ≤ length (deck env))%nat) by (vm_compute; lia).
  exact (nextPhase_deals_the_street env env 3 Flop H1 H2 H3).
Defined.

(** X11. When a fold leaves exactly one player in the hand and the ids
    are distinct, that player's stack grows by the pot plus every bet on
    the table, and no other stack changes; every bet and the pot are
    zeroed, the folding player is Folded, [winnerIdx] is the seat of the
    player paid, the phase is Showdown and the next hand is counted down
    from 4. The stacks then hold what the stacks and the pot held, plus
    the bets once more. *)
Theorem fold_to_one_player_pays_pot_and_bets (env : TableState) (p w : Player) :
  players env !! activePlayerIdx env = Some p →
  NoDup (id <$> players env) →
  filter in_hand (<[activePlayerIdx env := with_status Folded p]> (players env)) = [w] →
  ∃ before after,
    <[activePlayerIdx env := with_status Folded p]> (players env) = before ++ w :: after ∧
    players (handleFold env).1
    = with_bet 0 <$>
        (before ++ with_chips (chips w + (pot env + sum_of bet (players env))) w :: after) ∧
    winnerIdx (handleFold env).1 = Some (Z.of_nat (length before)) ∧
    phase (handleFold env).1 = Showdown ∧
    pot (handleFold env).1 = 0 ∧
    (handleFold env).2 = Some (NextHandCountdown 4) ∧
    sum_of chips (players (handleFold env).1)
    = sum_of chips (players env) + pot env + sum_of bet (players env).
Proof.
  intros Hp Hids Hw. unfold handleFold. rewrite Hp. cbv zeta. rewrite Hw.
  remember (<[activePlayerIdx env := with_status Folded p]> (players env))
    as newPlayers eqn:Hnew.
  assert (Hin : w ∈ newPlayers).
  { assert (w ∈ filter in_hand newPlayers) as Hin by (rewrite Hw; left).
    by apply list_elem_of_filter in Hin as [_ ?]. }
  apply list_elem_of_split in Hin as (before & after & Hsplit).
  assert (Hids' : id <$> newPlayers = id <$> players env).
  { rewrite Hnew, list_fmap_insert. simpl.
    apply list_insert_id. by rewrite list_lookup_fmap, Hp. }
  assert (Hnin : id w ∉ id <$> before).
  { rewrite <- Hids', Hsplit, fmap_app, fmap_cons in Hids.
    apply NoDup_app in Hids as (_ & Hdis & _).
    intros Hb. apply (Hdis _ Hb). left. }
  assert (Hbets : sum_of bet newPlayers = sum_of bet (players env)).
  { rewrite Hnew, (sum_of_insert _ _ _ _ _ Hp). simpl. lia. }
  assert (Hchips : sum_of chips newPlayers = sum_of chips (players env)).
  { rewrite Hnew, (sum_of_insert _ _ _ _ _ Hp). simpl. lia. }
  exists before, after. split; [done|].
  rewrite Hbets. rewrite <- Hchips. clear Hnew Hbets Hchips Hids' Hw. subst newPlayers.
  rewrite findIndex_middle by done.
  rewrite decide_False by lia. rewrite Nat2Z.id, alter_middle. simpl.
  split_and!; try done.
  rewrite (sum_of_fmap chips chips) by done.
  rewrite !sum_of_app, !sum_of_cons. simpl. lia.
Qed.

(** The theorem at the river: Y folds and X is paid the pot of 40. *)
Lemma fold_to_one_player_pays_pot_and_bets_witness :
  chips <$> players (handleFold river_table).1 = [1020; 980] ∧
  status <$> players (handleFold river_table).1 = [Active; Folded] ∧
  pot (handleFold river_table).1 = 0.
Proof.
  assert (H1 : players river_table !! activePlayerIdx river_table
               = Some (mkPlayer "Y" "Y" 980 0 ace_king_too Active false true false 0))
    by reflexivity.
  assert (H2 : NoDup (id <$> players river_table)) by compute_done.
  assert (H3 : filter in_hand
                 (<[activePlayerIdx river_table :=
                      with_status Folded
                        (mkPlayer "Y" "Y" 980 0 ace_king_too Active false true false 0)]>
                    (players river_table))
               = [mkPlayer "X" "X" 980 0 ace_king Active true false true 0])
    by reflexivity.
  destruct (fold_to_one_player_pays_pot_and_bets river_table _ _ H1 H2 H3)
    as (before & after & Hsplit & Hplayers & _ & _ & Hpot & _).
  split_and!; [|reflexivity|exact Hpot].
  reflexivity.
Defined.

(** X12. A fold, a check or call and a raise add, remove, reorder and
    rename no player, touch no hand and no seat, and change no status
    but that of the player to act. [nextPhase], with the showdown it may
    run, puts the players of its own render on the table: the same
    players in the same order, with their ids, names, hands, seats and
    statuses, whatever players the table holds when it fires. *)
Theorem handlers_keep_the_players (env st : TableState) (amount : Z) :
  identity <$> players (handleFold env).1 = identity <$> players env ∧
  identity <$> players (handleCheckCall env).1 = identity <$> players env ∧
  identity <$> players (handleRaise amount env).1 = identity <$> players env ∧
  identity <$> players (nextPhase env st).1 = identity <$> players env ∧
  status <$> players (nextPhase env st).1 = status <$> players env ∧
  ∀ j, j ≠ activePlayerIdx env →
    (status <$> players (handleFold env).1) !! j = (status <$> players env) !! j ∧
    (status <$> players (handleCheckCall env).1) !! j = (status <$> players env) !! j ∧
    (status <$> players (handleRaise amount env).1) !! j = (status <$> players env) !! j.
Proof.
  split_and!.
  - unfold handleFold.
    destruct (players env !! activePlayerIdx env) as [p|] eqn:Hp; [|done].
    cbv zeta. destruct (filter in_hand _) as [|w [|w' ws]].
    2: case_decide.
    all: rewrite ?moveToNextPlayer_players; simpl.
    all: rewrite ?identity_fmap, ?identity_alter by done.
    all: by eapply identity_insert.
  - unfold handleCheckCall.
    destruct (players env !! activePlayerIdx env) as [p|] eqn:Hp; [|done].
    cbv zeta. case_decide; rewrite moveToNextPlayer_players; simpl;
      by eapply identity_insert.
  - unfold handleRaise.
    destruct (players env !! activePlayerIdx env) as [p|] eqn:Hp; [|done].
    cbv zeta. case_decide; [done|]. rewrite moveToNextPlayer_players. simpl.
    by eapply identity_insert.
  - unfold nextPhase. cbv zeta.
    destruct (scan _ _ _ _) as [nextActive|]; simpl; [|by apply identity_fmap].
    destruct (phase env); repeat (destruct (pop _)); simpl;
      try (by apply identity_fmap).
    all: match goal with
         | |- context [handleShowdown ?e ?s] =>
             destruct (handleShowdown_players e s) as [->|[i ->]]
         end; simpl; rewrite ?identity_alter by done; by apply identity_fmap.
  - unfold nextPhase. cbv zeta.
    destruct (scan _ _ _ _) as [nextActive|]; simpl; [|by apply status_clear_bets].
    destruct (phase env); repeat (destruct (pop _)); simpl;
      try (by apply status_clear_bets).
    all: match goal with
         | |- context [handleShowdown ?e ?s] =>
             destruct (handleShowdown_turn e s) as [_ ->]
         end; simpl; by apply status_clear_bets.
  - intros j Hj. split_and!.
    + unfold handleFold.
      destruct (players env !! activePlayerIdx env) as [p|] eqn:Hp; [|done].
      cbv zeta. destruct (filter in_hand _) as [|w [|w' ws]].
      2: case_decide.
      all: rewrite ?moveToNextPlayer_players; simpl.
      all: rewrite ?status_clear_bets, ?status_alter_chips.
      all: by apply status_insert_other.
    + unfold handleCheckCall.
      destruct (players env !! activePlayerIdx env) as [p|] eqn:Hp; [|done].
      cbv zeta. case_decide; rewrite moveToNextPlayer_players; simpl;
        by apply status_insert_other.
    + unfold handleRaise.
      destruct (players env !! activePlayerIdx env) as [p|] eqn:Hp; [|done].
      cbv zeta. case_decide; [done|]. rewrite moveToNextPlayer_players. simpl.
      by apply status_insert_other.
Qed.

(** X13. A call that closes the betting on the river is not paid out:
    the callback that [handleCheckCall] schedules belongs to the render of
    the click, so the showdown it runs pays the pot as it was before the
    call. The stacks then hold the stacks and the pot of before the call,
    less the chips called. *)
Theorem river_call_is_not_paid_out (token : nat → string) (draw : nat → nat)
    (env : TableState) (p : Player) :
  players env !! activePlayerIdx env = Some p →
  status p = Active →
  street (phase env) = None →
  NoDup (id <$> players env) →
  Forall (λ q, hand q ≠ []) (players env) →
  (∃ ms, (handleCheckCall env).2 = Some (NextPhaseAfter ms)) →
  let paid := Z.min (currentBet env - bet p) (chips p) in
  let called := handleCheckCall env in
  let shown := run_scheduled token draw env called in
  pot called.1 = pot env + paid ∧
  sum_of chips (players called.1) = sum_of chips (players env) - paid ∧
  sum_of chips (players shown.1) = sum_of chips (players env) + pot env - paid.
Proof.
  intros Hp Hactive Hstreet Hids Hhands [ms Hms] paid called shown. subst called shown.
  assert (Hcalled : ∃ p', players (handleCheckCall env).1
                          = <[activePlayerIdx env := p']> (players env) ∧
            in_hand p' ∧ identity p' = identity p ∧ chips p' = chips p - paid ∧
            pot (handleCheckCall env).1 = pot env + paid).
  { subst paid. unfold handleCheckCall. rewrite Hp. cbv zeta.
    case_decide; rewrite moveToNextPlayer_players, moveToNextPlayer_pot; simpl;
      eexists; (split; [reflexivity|]); simpl.
    - split_and!; [done|done|lia|lia].
    - unfold in_hand. simpl. rewrite Hactive. split_and!; [done|done|lia|lia]. }
  destruct Hcalled as (p' & Hplayers & Hin & Hid & Hchips & Hpot).
  assert (Hsum : sum_of chips (players (handleCheckCall env).1)
                 = sum_of chips (players env) - paid).
  { rewrite Hplayers, (sum_of_insert _ _ _ _ _ Hp). lia. }
  split; [done|]. split; [done|].
  destruct (handleCheckCall env) as [st1 sch]. simpl in *. subst sch. simpl.
  assert (Hne : players st1 ≠ []).
  { rewrite Hplayers. intros E. apply (f_equal length) in E.
    rewrite length_insert in E. apply lookup_lt_Some in Hp. simpl in E. lia. }
  unfold nextPhase. cbv zeta. cbn [setPlayers players dealerIdx phase].
  destruct (nextPhase_scan_is_Some (λ s, bool_decide (s ≠ Active ∧ s ≠ AllIn))
              (with_bet 0 <$> players st1) (dealerIdx env)) as [nextActive Hscan].
  { by destruct (players st1). }
  rewrite Hscan.
  assert (Hshow : ∀ env' st2, pot env' = pot env →
            players st2 = with_bet 0 <$> players st1 →
            sum_of chips (players (handleShowdown env' st2).1)
            = sum_of chips (players env) + pot env - paid).
  { intros env' st2 Hpot' H2. rewrite handleShowdown_sum.
    - rewrite H2, Hpot', (sum_of_fmap chips chips) by done. lia.
    - rewrite (ids_of_identity _ (players env)); [done|].
      rewrite H2, identity_fmap by done.
      rewrite Hplayers. by apply (identity_insert _ _ p).
    - rewrite H2. apply Forall_fmap. rewrite Hplayers. apply Forall_insert.
      + eapply Forall_impl; [exact Hhands|]. done.
      + simpl. rewrite Forall_lookup in Hhands. specialize (Hhands _ _ Hp).
        assert (hand p' = hand p) as -> by (by injection Hid). done.
    - rewrite H2. apply Exists_fmap. rewrite Hplayers.
      apply (Exists_impl in_hand); [|done].
      apply insert_in_hand; [done|]. by apply lookup_lt_Some in Hp. }
  destruct (phase env); try discriminate; by apply Hshow.
Qed.

Lemma river_call_is_not_paid_out_witness :
  let called := handleCheckCall river_bet_table in
  let shown := run_scheduled token0 draw0 river_bet_table called in
  pot called.1 = 80 ∧
  sum_of chips (players called.1) = 1920 ∧
  sum_of chips (players shown.1) = 1980.
Proof.
  assert (H1 : players river_bet_table !! activePlayerIdx river_bet_table
               = Some (mkPlayer "Y" "Y" 980 0 ace_king_too Active false true false 0))
    by reflexivity.
  assert (H2 : status (mkPlayer "Y" "Y" 980 0 ace_king_too Active false true false 0)
               = Active) by reflexivity.
  assert (H3 : street (phase river_bet_table) = None) by reflexivity.
  assert (H4 : NoDup (id <$> players river_bet_table)) by compute_done.
  assert (H5 : Forall (λ q, hand q ≠ []) (players river_bet_table))
    by (repeat constructor; discriminate).
  assert (H6 : ∃ ms, (handleCheckCall river_bet_table).2 = Some (NextPhaseAfter ms))
    by (exists 500%nat; reflexivity).
  exact (river_call_is_not_paid_out token0 draw0 river_bet_table _ H1 H2 H3 H4 H5 H6).
Defined.

(** X14. After the flop a street is over as soon as one player has
    acted without raising: when every Active player's bet equals the bet
    to match and the phase is not PreFlop, a check or call by an Active
    player schedules [nextPhase] and passes the turn to nobody. *)
Theorem first_check_ends_the_street (env : TableState) (p : Player) :
  players env !! activePlayerIdx env = Some p →
  status p = Active →
  phase env ≠ PreFlop →
  Forall (λ q, status q = Active → bet q = currentBet env) (players env) →
  (∃ ms, (handleCheckCall env).2 = Some (NextPhaseAfter ms)) ∧
  activePlayerIdx (handleCheckCall env).1 = activePlayerIdx env.
Proof.
  intros Hp Hactive Hphase Hbets.
  assert (Hbet : bet p = currentBet env).
  { rewrite Forall_lookup in Hbets. by apply (Hbets _ _ Hp). }
  assert (Hmove : ∀ p' st, (status p' = Active → bet p' = currentBet env) →
            players st = <[activePlayerIdx env := p']> (players env) →
            activePlayerIdx st = activePlayerIdx env →
            (∃ ms, (moveToNextPlayer env st).2 = Some (NextPhaseAfter ms)) ∧
            activePlayerIdx (moveToNextPlayer env st).1 = activePlayerIdx env).
  { intros p' st Hbet' Hst Hidx. unfold moveToNextPlayer. cbv zeta.
    cbn [players setShowCards].
    destruct (scan_is_Some (λ s, bool_decide (s = Folded ∨ s = Busted ∨ s = AllIn))
                (players st) (length (players st))
                ((activePlayerIdx env + 1) `mod` length (players st))%nat)
      as [nextIdx ->].
    { apply Nat.mod_upper_bound. rewrite Hst, length_insert.
      apply lookup_lt_Some in Hp. lia. }
    case_decide; [split; [by eexists|done]|].
    assert (Hall : forallb (λ q, bool_decide (bet q = currentBet env))
                     (filter (λ q, status q = Active) (players st)) = true).
    { apply forallb_forall. intros q Hq. apply bool_decide_eq_true.
      apply list_elem_of_In, list_elem_of_filter in Hq as [Hs Hq].
      rewrite Hst in Hq. apply list_elem_of_lookup in Hq as [j Hj].
      destruct (decide (j = activePlayerIdx env)) as [->|Hne].
      - rewrite list_lookup_insert_eq in Hj by (by apply lookup_lt_Some in Hp).
        simplify_eq. by apply Hbet'.
      - rewrite list_lookup_insert_ne in Hj by done.
        rewrite Forall_lookup in Hbets. by apply (Hbets _ _ Hj). }
    rewrite Hall. rewrite (bool_decide_eq_true_2 (phase env ≠ PreFlop)) by done.
    simpl. split; [by eexists|done]. }
  unfold handleCheckCall. rewrite Hp. cbv zeta.
  case_decide; (eapply Hmove; [|simpl; reflexivity|done]); simpl; [done|lia].
Qed.

Lemma first_check_ends_the_street_witness :
  (∃ ms, (handleCheckCall river_table).2 = Some (NextPhaseAfter ms)) ∧
  activePlayerIdx (handleCheckCall river_table).1 = activePlayerIdx river_table.
Proof.
  assert (H1 : players river_table !! activePlayerIdx river_table
               = Some (mkPlayer "Y" "Y" 980 0 ace_king_too Active false true false 0))
    by reflexivity.
  assert (H2 : status (mkPlayer "Y" "Y" 980 0 ace_king_too Active false true false 0)
               = Active) by reflexivity.
  assert (H3 : phase river_table ≠ PreFlop) by discriminate.
  assert (H4 : Forall (λ q, status q = Active → bet q = currentBet river_table)
                 (players river_table)) by (repeat constructor).
  exact (first_check_ends_the_street river_table _ H1 H2 H3 H4).
Defined.

End engine_more.

(* ===================================================================== *)
(** * Further properties of [startNewHand] *)
(* ===================================================================== *)

Module NewHandFacts.

Import EvaluatorFacts AppFacts EngineMore.

Lemma freshShuffledDeck_Permutation token draw :
  Deck.freshShuffledDeck token draw ≡ₚ Deck.createDeck token.
Proof.
  unfold Deck.freshShuffledDeck, Deck.shuffleDeck.
  rewrite lookup_singleton_eq. cbn [default]. unfold Datatypes.id.
  set (l := fresh (dom _)).
  destruct (DeckFacts.shuffle_loop_spec draw (length (Deck.createDeck token) - 1) 0 l
              (<[l := Deck.createDeck token]> {[0%nat := Deck.createDeck token]})
              (Deck.createDeck token)) as (a' & -> & Hp & _).
  { by rewrite lookup_insert_eq. }
  done.
Qed.

Lemma fmap_alter_same {B} (f : Player → B) (g : Player → Player) (l : list Player) i :
  (∀ p, f (g p) = f p) → f <$> alter g i l = f <$> l.
Proof.
  intros Hg. apply list_eq. intros j.
  rewrite !list_lookup_fmap, list_lookup_alter.
  case_decide; subst; [|done]. destruct (l !! j); simpl; by rewrite ?Hg.
Qed.

Lemma sum_of_fmap_eq (f : Player → Z) (l l' : list Player) :
  f <$> l = f <$> l' → sum_of f l = sum_of f l'.
Proof.
  revert l'. induction l as [|p l IH]; intros [|p' l'] H; simplify_eq/=; [done|].
  rewrite !sum_of_cons. erewrite IH by done. congruence.
Qed.

(** The players [startNewHand] keeps are those with chips, reset. *)
Lemma reset_filter (cur : list Player) :
  filter (λ p, status p ≠ Busted) (reset_player <$> cur)
  = reset_player <$> filter (λ p, chips p > 0) cur.
Proof.
  induction cur as [|c cur IH]; [done|].
  rewrite fmap_cons.
  destruct (decide (chips c > 0)) as [Hc|Hc].
  - rewrite (filter_cons_True (λ p, chips p > 0)) by done.
    rewrite filter_cons_True; [by rewrite IH|].
    simpl. by rewrite decide_True.
  - rewrite (filter_cons_False (λ p, chips p > 0)) by done.
    rewrite filter_cons_False; [done|].
    simpl. rewrite decide_False by done. naive_solver.
Qed.

(** *** Dealing *)

Lemma deal_any (l : list Player) : ∀ acc dk,
  ∃ l' dk', foldl deal_hand (acc, dk) l = (acc ++ l', dk') ∧
            Forall2 same_but_hand l l'.
Proof.
  induction l as [|p l IH]; intros acc dk; simpl.
  - exists [], dk. by rewrite app_nil_r.
  - unfold deal_hand at 2. simpl.
    match goal with
    | |- context [foldl _ (acc ++ [?p'], ?dk') l] =>
        destruct (IH (acc ++ [p']) dk') as (l' & dk'' & -> & HF);
        exists (p' :: l'), dk''
    end.
    split; [by rewrite <- app_assoc|]. constructor; [by eexists|done].
Qed.

Lemma deal_hand_two acc (d0 : list Card) c2 c1 p :
  deal_hand (acc, d0 ++ [c2; c1]) p = (acc ++ [with_hand [c1; c2] p], d0).
Proof.
  unfold deal_hand. cbn [fst snd].
  replace (d0 ++ [c2; c1]) with ((d0 ++ [c2]) ++ [c1]) by (by rewrite <- app_assoc).
  by rewrite !pop_snoc.
Qed.

Lemma deal_cards (l : list Player) : ∀ acc dk,
  (2 * length l ≤ length dk)%nat →
  ∃ l' dk', foldl deal_hand (acc, dk) l = (acc ++ l', dk') ∧
            Forall (λ p, length (hand p) = 2%nat) l' ∧
            concat (hand <$> l') ++ dk' ≡ₚ dk.
Proof.
  induction l as [|p l IH]; intros acc dk Hlen.
  - exists [], dk. by rewrite app_nil_r.
  - simpl in Hlen.
    destruct (split_last_cards dk 2 ltac:(lia)) as (d0 & two & -> & Htwo).
    destruct two as [|c1 [|c2 [|? ?]]]; try discriminate.
    rewrite !reverse_cons, reverse_nil in *. cbn [app] in *.
    cbn [foldl]. rewrite deal_hand_two.
    rewrite length_app in Hlen. simpl in Hlen.
    destruct (IH (acc ++ [with_hand [c1; c2] p]) d0 ltac:(lia))
      as (l' & dk' & -> & Hall & Hperm).
    exists (with_hand [c1; c2] p :: l'), dk'.
    split; [by rewrite <- app_assoc|]. split; [by constructor|].
    rewrite fmap_cons. cbn [concat hand with_hand].
    rewrite <- Hperm.
    rewrite (Permutation_app_comm (concat (hand <$> l') ++ dk') [c2; c1]).
    simpl. apply perm_swap.
Qed.

Lemma same_but_hand_fmap {B} (f : Player → B) (l l' : list Player) :
  (∀ p h, f (with_hand h p) = f p) →
  Forall2 same_but_hand l l' → f <$> l' = f <$> l.
Proof.
  intros Hf. induction 1 as [|p p' l l' [h ->] _ IH]; [done|].
  by rewrite !fmap_cons, IH, Hf.
Qed.

Lemma same_but_hand_Forall (P : Player → Prop) (l l' : list Player) :
  (∀ p h, P p → P (with_hand h p)) →
  Forall2 same_but_hand l l' → Forall P l → Forall P l'.
Proof.
  intros HP. induction 1 as [|p p' l l' [h ->] _ IH]; [done|].
  intros [Hp Hl]%Forall_cons. constructor; [by apply HP|by apply IH].
Qed.

(** *** The blinds *)

Lemma post_blind_sums (b : Z) (l : list Player) i p :
  l !! i = Some p → bet p = 0 →
  sum_of chips (alter (post_blind b) i l) = sum_of chips l - blind_amount b p ∧
  sum_of bet (alter (post_blind b) i l) = sum_of bet l + blind_amount b p.
Proof.
  intros Hp Hbet.
  rewrite !(sum_of_alter _ _ _ _ _ Hp). simpl. lia.
Qed.

(** *** The table after [startNewHand], with two players or more in chips *)

Lemma startNewHand_table token draw d cur st :
  let live := filter (λ p, chips p > 0) cur in
  let n := length live in
  let sb := ((d + 1) `mod` n)%nat in
  let bb := ((d + 2) `mod` n)%nat in
  (2 ≤ n)%nat →
  ∃ seated dealt ps pb,
    seated
    = alter (with_isBigBlind true) bb
        (alter (with_isSmallBlind true) sb
           (alter (with_isDealer true) (d `mod` n)%nat (reset_player <$> live))) ∧
    foldl deal_hand ([], Deck.freshShuffledDeck token draw) seated
    = (dealt, deck (startNewHand token draw d cur st)) ∧
    Forall2 same_but_hand seated dealt ∧
    dealt !! sb = Some ps ∧ dealt !! bb = Some pb ∧ sb ≠ bb ∧
    players (startNewHand token draw d cur st)
    = alter (post_blind BIG_BLIND) bb (alter (post_blind SMALL_BLIND) sb dealt) ∧
    pot (startNewHand token draw d cur st)
    = blind_amount SMALL_BLIND ps + blind_amount BIG_BLIND pb ∧
    phase (startNewHand token draw d cur st) = PreFlop ∧
    currentBet (startNewHand token draw d cur st) = BIG_BLIND ∧
    communityCards (startNewHand token draw d cur st) = [] ∧
    activePlayerIdx (startNewHand token draw d cur st) = ((bb + 1) `mod` n)%nat ∧
    dealerIdx (startNewHand token draw d cur st) = d.
Proof.
  intros live n sb bb Hn.
  unfold startNewHand. cbv zeta. rewrite reset_filter. fold live.
  rewrite length_fmap. fold n. rewrite decide_False by lia. fold sb bb.
  set (seated := alter (with_isBigBlind true) bb _).
  destruct (deal_any seated [] (Deck.freshShuffledDeck token draw))
    as (dealt & dk & Hdeal & Hsame).
  rewrite Hdeal. cbn [fst snd app].
  assert (Hlen : length dealt = n).
  { apply Forall2_length in Hsame. rewrite <- Hsame. subst seated.
    by rewrite !length_alter, length_fmap. }
  assert (Hsb : (sb < n)%nat) by (apply Nat.mod_upper_bound; lia).
  assert (Hbb : (bb < n)%nat) by (apply Nat.mod_upper_bound; lia).
  assert (Hne : sb ≠ bb).
  { subst sb bb. intros E.
    assert (((d + 2) `mod` n = ((d + 1) `mod` n + 1) `mod` n)%nat) as E'.
    { rewrite Nat.Div0.add_mod_idemp_l. f_equal. lia. }
    rewrite <- E in E'.
    pose proof (Nat.mod_upper_bound (d + 1) n ltac:(lia)) as Hlt.
    destruct (decide ((d + 1) `mod` n + 1 < n)%nat).
    - rewrite (Nat.mod_small ((d + 1) `mod` n + 1)) in E' by lia. lia.
    - replace ((d + 1) `mod` n + 1)%nat with n in E' by lia.
      rewrite Nat.Div0.mod_same in E'. lia. }
  destruct (lookup_lt_is_Some_2 dealt sb ltac:(lia)) as [ps Hps].
  destruct (lookup_lt_is_Some_2 dealt bb ltac:(lia)) as [pb Hpb].
  exists seated, dealt, ps, pb.
  rewrite Hps. rewrite list_lookup_alter_ne by done. rewrite Hpb. simpl.
  split_and!; try done.
Qed.

Lemma filter_all {A} (P : A → Prop) `{!∀ x, Decision (P x)} (l : list A) :
  Forall P l → filter P l = l.
Proof.
  induction 1 as [|x l Hx _ IH]; [done|]. by rewrite filter_cons_True, IH.
Qed.

Lemma post_blind_total (b : Z) (l : list Player) i :
  (∀ p, l !! i = Some p → bet p = 0) →
  (λ p, chips p + bet p) <$> alter (post_blind b) i l = (λ p, chips p + bet p) <$> l.
Proof.
  intros Hi. apply list_eq. intros j.
  rewrite !list_lookup_fmap, list_lookup_alter.
  case_decide; subst; [|done]. destruct (l !! j) as [p|] eqn:Hp; [|done].
  simpl. rewrite (Hi p) by done. f_equal. lia.
Qed.

(** The blinds of a hand that is dealt. *)
Lemma startNewHand_stacks token draw d cur st :
  let live := filter (λ p, chips p > 0) cur in
  let n := length live in
  let st' := startNewHand token draw d cur st in
  (2 ≤ n)%nat →
  ∃ ps pb,
    live !! ((d + 1) `mod` n)%nat = Some ps ∧
    live !! ((d + 2) `mod` n)%nat = Some pb ∧
    pot st' = Z.min (chips ps) SMALL_BLIND + Z.min (chips pb) BIG_BLIND ∧
    pot st' = sum_of bet (players st') ∧
    stake st' = sum_of chips live ∧
    currentBet st' = BIG_BLIND ∧
    sane st' ∧
    phase st' = PreFlop ∧
    id <$> players st' = id <$> live ∧
    (λ p, chips p + bet p) <$> players st' = chips <$> live.
Proof.
  intros live n st' Hn. subst st'.
  destruct (startNewHand_table token draw d cur st Hn)
    as (seated & dealt & ps & pb & Hseated & _ & Hsame & Hps & Hpb & Hne
        & Hplayers & Hpot & Hphase & Hbet & _).
  fold live n in Hseated, Hps, Hpb, Hne, Hplayers, Hpot.
  set (sb := ((d + 1) `mod` n)%nat) in *. set (bb := ((d + 2) `mod` n)%nat) in *.
  assert (Hchips : chips <$> dealt = chips <$> live).
  { rewrite (same_but_hand_fmap chips _ _ ltac:(done) Hsame). subst seated.
    rewrite !fmap_alter_same by done.
    rewrite <- list_fmap_compose. by apply list_fmap_ext. }
  assert (Hall : Forall (λ p, 0 < chips p ∧ bet p = 0) dealt).
  { eapply (same_but_hand_Forall (λ p, 0 < chips p ∧ bet p = 0)); [done|exact Hsame|].
    subst seated. repeat (apply Forall_alter; [|done]).
    apply Forall_fmap, Forall_forall. intros p Hp. simpl.
    apply list_elem_of_filter in Hp as [Hp _]. split; [lia|done]. }
  assert (Hlive : ∀ i p, dealt !! i = Some p →
            ∃ q, live !! i = Some q ∧ chips q = chips p ∧ 0 < chips p ∧ bet p = 0).
  { intros i p Hp.
    assert (Hc : (chips <$> live) !! i = Some (chips p))
      by (by rewrite <- Hchips, list_lookup_fmap, Hp).
    rewrite list_lookup_fmap in Hc. destruct (live !! i) as [q|]; [|done].
    rewrite Forall_lookup in Hall. destruct (Hall _ _ Hp).
    exists q. simplify_eq/=. done. }
  destruct (Hlive _ _ Hps) as (qs & Hqs & Hcs & Hs0 & Hsbet).
  destruct (Hlive _ _ Hpb) as (qb & Hqb & Hcb & Hb0 & Hbbet).
  assert (Hpb' : alter (post_blind SMALL_BLIND) sb dealt !! bb = Some pb)
    by (by rewrite list_lookup_alter_ne).
  destruct (post_blind_sums SMALL_BLIND dealt sb ps Hps Hsbet) as [Hc1 Hb1].
  destruct (post_blind_sums BIG_BLIND _ bb pb Hpb' Hbbet) as [Hc2 Hb2].
  assert (Hzero : sum_of bet dealt = 0).
  { apply sum_of_zero. eapply Forall_impl; [exact Hall|]. by intros ? [_ ?]. }
  assert (Hids : id <$> dealt = id <$> live).
  { rewrite (same_but_hand_fmap id _ _ ltac:(done) Hsame). subst seated.
    rewrite !fmap_alter_same by done.
    rewrite <- list_fmap_compose. by apply list_fmap_ext. }
  assert (Htotal : (λ p, chips p + bet p) <$> dealt = chips <$> live).
  { rewrite <- Hchips. apply list_eq. intros i. rewrite !list_lookup_fmap.
    destruct (dealt !! i) as [p|] eqn:Hp; [|done]. simpl.
    destruct (Hlive _ _ Hp) as (_ & _ & _ & _ & ->). f_equal. lia. }
  exists qs, qb.
  split; [done|]. split; [done|].
  unfold stake, sane. rewrite Hphase, Hplayers, Hpot, Hbet, Hc2, Hb2, Hc1, Hb1, Hzero.
  rewrite (sum_of_fmap_eq chips dealt live Hchips).
  unfold blind_amount. rewrite Hcs, Hcb.
  split_and!; try done; try lia.
  - unfold SMALL_BLIND, BIG_BLIND. lia.
  - apply Forall_alter; [apply Forall_alter|].
    + eapply Forall_impl; [exact Hall|]. unfold BIG_BLIND. intros; lia.
    + intros x _ [? ?]. unfold post_blind, blind_amount, SMALL_BLIND, BIG_BLIND. simpl. lia.
    + intros x _ ?. unfold post_blind, blind_amount, BIG_BLIND. simpl. lia.
  - by rewrite !fmap_alter_same.
  - rewrite !post_blind_total; [done|by intros; simplify_eq..].
Qed.



End NewHandFacts.

Section new_hand.

Import EvaluatorFacts AppFacts EngineMore NewHandFacts.

(** X15. With two to twenty-six players in chips, [startNewHand] keeps
    exactly those players, in order, makes each Active and deals each two
    cards; the hands and what is left of the deck are together the 52
    cards of [createDeck], so no card is dealt twice. *)
Theorem startNewHand_deals_two_cards_each (token : nat → string) (draw : nat → nat)
    (d : nat) (cur : list Player) (st : TableState) :
  let live := filter (λ p, chips p > 0) cur in
  let st' := startNewHand token draw d cur st in
  (2 ≤ length live ≤ 26)%nat →
  phase st' = PreFlop ∧ communityCards st' = [] ∧
  id <$> players st' = id <$> live ∧
  Forall (λ p, status p = Active ∧ length (hand p) = 2%nat) (players st') ∧
  concat (hand <$> players st') ++ deck st' ≡ₚ Deck.createDeck token.
Proof.
  intros live st' [Hn H26]. subst st'.
  destruct (startNewHand_table token draw d cur st Hn)
    as (seated & dealt & ps & pb & Hseated & Hdeal & Hsame & _ & _ & _ & -> & _ & -> & _ & -> & _).
  fold live in Hseated.
  assert (Hlen : length seated = length live).
  { subst seated. by rewrite !length_alter, length_fmap. }
  destruct (deal_cards seated [] (Deck.freshShuffledDeck token draw))
    as (dealt' & dk' & Hdeal' & Htwo & Hperm).
  { rewrite Hlen, freshShuffledDeck_Permutation, DeckFacts.createDeck_length. lia. }
  rewrite Hdeal in Hdeal'. cbn [app] in Hdeal'. injection Hdeal' as <- Hdk.
  rewrite <- Hdk in Hperm.
  split_and!; try done.
  - rewrite !fmap_alter_same by done.
    rewrite (same_but_hand_fmap id _ _ ltac:(done) Hsame). subst seated.
    rewrite !fmap_alter_same by done.
    rewrite <- list_fmap_compose. by apply list_fmap_ext.
  - apply Forall_alter; [apply Forall_alter|]; try (intros ? ? [? ?]; by split).
    apply Forall_and. split; [|done].
    eapply (same_but_hand_Forall (λ p, status p = Active)); [done|exact Hsame|].
    subst seated. repeat (apply Forall_alter; [|done]).
    apply Forall_fmap, Forall_forall. intros p Hp. simpl.
    apply list_elem_of_filter in Hp as [Hp _]. by rewrite decide_True.
  - rewrite !fmap_alter_same by done.
    by rewrite Hperm, freshShuffledDeck_Permutation.
Qed.

Lemma startNewHand_deals_two_cards_each_witness :
  let live := filter (λ p, chips p > 0) heads_up in
  let st' := startNewHand token0 draw0 0 heads_up (initial heads_up) in
  (2 ≤ length live ≤ 26)%nat ∧
  phase st' = PreFlop ∧ communityCards st' = [] ∧
  id <$> players st' = id <$> live ∧
  Forall (λ p, status p = Active ∧ length (hand p) = 2%nat) (players st') ∧
  concat (hand <$> players st') ++ deck st' ≡ₚ Deck.createDeck token0.
Proof.
  intros live st'.
  assert (H : (2 ≤ length live ≤ 26)%nat) by (vm_compute; lia).
  split; [exact H|].
  exact (startNewHand_deals_two_cards_each token0 draw0 0 heads_up (initial heads_up) H).
Defined.



(** X17. With fewer than two players in chips [startNewHand] deals no
    hand: the phase goes back to Setup, the players without chips leave
    the table, the one left, if any, keeps the stack and is named in the
    log as the winner ([undefined] when nobody is left), and deck, board
    and pot stay as they were. *)
Theorem startNewHand_ends_the_game (token : nat → string) (draw : nat → nat)
    (d : nat) (cur : list Player) (st : TableState) :
  let live := filter (λ p, chips p > 0) cur in
  let st' := startNewHand token draw d cur st in
  (length live < 2)%nat →
  phase st' = Setup ∧
  players st' = reset_player <$> live ∧
  chips <$> players st' = chips <$> live ∧
  gameLogs st'
  = gameLogs st ++ [mkLog ("Game Over! " +:+ default "undefined" (name <$> head live)
                           +:+ " wins everything!") winner] ∧
  deck st' = deck st ∧ communityCards st' = communityCards st ∧ pot st' = pot st.
Proof.
  intros live st' Hn. subst st'.
  unfold startNewHand. cbv zeta. rewrite reset_filter. fold live.
  rewrite length_fmap, decide_True by done. simpl.
  split_and!; try done.
  - rewrite <- list_fmap_compose. by apply list_fmap_ext.
  - by destruct live.
Qed.

Lemma startNewHand_ends_the_game_witness :
  let cur := [seated "A" 2000; seated "B" 0] in
  let live := filter (λ p, chips p > 0) cur in
  let st' := startNewHand token0 draw0 1 cur river_table in
  (length live < 2)%nat ∧
  phase st' = Setup ∧
  players st' = reset_player <$> live ∧
  chips <$> players st' = chips <$> live ∧
  gameLogs st'
  = gameLogs river_table
    ++ [mkLog ("Game Over! " +:+ default "undefined" (name <$> head live)
               +:+ " wins everything!") winner] ∧
  deck st' = deck river_table ∧ communityCards st' = communityCards river_table ∧
  pot st' = pot river_table.
Proof.
  intros cur live st'.
  assert (H : (length live < 2)%nat) by (vm_compute; lia).
  split; [exact H|].
  exact (startNewHand_ends_the_game token0 draw0 1 cur river_table H).
Defined.

(** X18. [startGame] does nothing with fewer than two players; with two
    or more and a positive buy-in it gives every player the buy-in,
    whatever the stack was, and starts the first hand with all of them:
    the pot and the stacks then hold the buy-in times the number of
    players. *)
Theorem startGame_buys_everyone_in (token : nat → string) (draw : nat → nat)
    (buyInAmount : Z) (env : TableState) :
  ((length (players env) < 2)%nat → startGame token draw buyInAmount env = env) ∧
  ((2 ≤ length (players env))%nat → 0 < buyInAmount →
   let st' := startGame token draw buyInAmount env in
   phase st' = PreFlop ∧
   id <$> players st' = id <$> players env ∧
   Forall (λ p, chips p + bet p = buyInAmount) (players st') ∧
   stake st' = Z.of_nat (length (players env)) * buyInAmount).
Proof.
  split; [intros Hn; unfold startGame; by rewrite decide_True|].
  intros Hn Hbuy st'. subst st'. unfold startGame. rewrite decide_False by lia.
  cbv zeta.
  set (ready := with_chips buyInAmount <$> players env).
  set (st0 := setPhase PreFlop (setPlayers ready env)).
  assert (Hlive : filter (λ p, chips p > 0) ready = ready).
  { apply filter_all, Forall_fmap, Forall_true. simpl. intros; lia. }
  assert (Hlen : length ready = length (players env))
    by (subst ready; by rewrite length_fmap).
  destruct (startNewHand_stacks token draw 0 ready st0 ltac:(rewrite Hlive; lia))
    as (ps & pb & _ & _ & _ & _ & Hstake & _ & _ & Hphase & Hids & Htotal).
  rewrite Hlive in *.
  assert (Hready : chips <$> ready = replicate (length (players env)) buyInAmount).
  { subst ready. clear. induction (players env) as [|p l IH]; [done|].
    csimpl. by rewrite IH. }
  split_and!.
  - done.
  - rewrite Hids. subst ready. rewrite <- list_fmap_compose. by apply list_fmap_ext.
  - rewrite Hready in Htotal. apply Forall_forall. intros p Hp.
    apply (list_elem_of_fmap_2 (λ p, chips p + bet p)) in Hp.
    rewrite Htotal in Hp. by apply elem_of_replicate in Hp as [? _].
  - rewrite Hstake. subst ready.
    rewrite (sum_of_fmap chips (λ _, buyInAmount)) by done.
    clear. induction (players env) as [|p l IH]; [done|].
    rewrite sum_of_cons, IH. simpl length. lia.
Qed.

Lemma startGame_buys_everyone_in_witness :
  let st' := startGame token0 draw0 500 (initial short_stack) in
  phase st' = PreFlop ∧
  id <$> players st' = id <$> players (initial short_stack) ∧
  Forall (λ p, chips p + bet p = 500) (players st') ∧
  stake st' = Z.of_nat (length (players (initial short_stack))) * 500.
Proof.
  assert (H1 : (2 ≤ length (players (initial short_stack)))%nat) by (vm_compute; lia).
  assert (H2 : 0 < 500) by lia.
  exact (proj2 (startGame_buys_everyone_in token0 draw0 500 (initial short_stack)) H1 H2).
Defined.

End new_hand.

(* ===================================================================== *)
(** * Taking and leaving a seat *)
(* ===================================================================== *)

Module SeatingFacts.

Import EvaluatorFacts NewHandFacts.

Lemma sort_desc_snoc {A} (key : A → Z) (l : list A) x :
  sort_desc key (l ++ [x]) = foldr (insert_desc key) [x] l.
Proof. unfold sort_desc. by rewrite foldr_app. Qed.

(** An element that no element passes goes to the front. *)
Lemma insert_desc_front {A} (key : A → Z) (y : A) (m : list A) :
  Forall (λ z, key z ≤ key y) m → insert_desc key y m = y :: m.
Proof.
  destruct m as [|z m]; [done|]. intros [Hz _]%Forall_cons. simpl.
  by rewrite decide_False by lia.
Qed.

(** The new player goes between the players of the lower seats and those
    of the higher seats. *)
Lemma insert_by_seat (x : Player) (l : list Player) :
  seat_order l → seatIndex x ∉ seatIndex <$> l →
  foldr (insert_desc Seated.by_seat) [x] l
  = filter (λ p, (seatIndex p < seatIndex x)%nat) l
    ++ x :: filter (λ p, (seatIndex x < seatIndex p)%nat) l.
Proof.
  unfold seat_order. induction l as [|y l IH]; [done|].
  intros [Hy Hl]%StronglySorted_cons Hx.
  rewrite fmap_cons, not_elem_of_cons in Hx. destruct Hx as [Hxy Hx].
  cbn [foldr]. rewrite IH by done.
  destruct (decide (seatIndex y < seatIndex x)%nat) as [Hlt|Hge].
  - rewrite filter_cons_True by done.
    rewrite (filter_cons_False (λ p, (seatIndex x < seatIndex p)%nat)) by lia.
    apply insert_desc_front, Forall_app. split.
    + apply Forall_forall. intros z Hz. apply list_elem_of_filter in Hz as [_ Hz].
      rewrite Forall_forall in Hy. specialize (Hy _ Hz). unfold Seated.by_seat. lia.
    + constructor; [unfold Seated.by_seat; lia|].
      apply Forall_forall. intros z Hz. apply list_elem_of_filter in Hz as [_ Hz].
      rewrite Forall_forall in Hy. specialize (Hy _ Hz). unfold Seated.by_seat. lia.
  - assert (Hgt : (seatIndex x < seatIndex y)%nat) by lia.
    rewrite filter_cons_False by done.
    rewrite (filter_cons_True (λ p, (seatIndex x < seatIndex p)%nat)) by done.
    rewrite (filter_none (λ p, (seatIndex p < seatIndex x)%nat)).
    2: { intros z Hz. rewrite Forall_forall in Hy. specialize (Hy _ Hz). lia. }
    rewrite (filter_all (λ p, (seatIndex x < seatIndex p)%nat)).
    2: { eapply Forall_impl; [exact Hy|]. simpl. intros; lia. }
    cbn [app insert_desc]. rewrite decide_True by (unfold Seated.by_seat; lia).
    f_equal. apply insert_desc_front.
    eapply Forall_impl; [exact Hy|]. unfold Seated.by_seat. simpl. intros; lia.
Qed.

(** A list in seat order splits at any seat that is free. *)
Lemma seat_order_split (s : nat) (l : list Player) :
  seat_order l → s ∉ seatIndex <$> l →
  filter (λ p, (seatIndex p < s)%nat) l ++ filter (λ p, (s < seatIndex p)%nat) l = l.
Proof.
  unfold seat_order. induction l as [|y l IH]; [done|].
  intros [Hy Hl]%StronglySorted_cons Hs.
  rewrite fmap_cons, not_elem_of_cons in Hs. destruct Hs as [Hsy Hs].
  destruct (decide (seatIndex y < s)%nat) as [Hlt|Hge].
  - rewrite filter_cons_True by done.
    rewrite (filter_cons_False (λ p, (s < seatIndex p)%nat)) by lia.
    cbn [app]. by rewrite IH.
  - rewrite filter_cons_False by done.
    rewrite (filter_cons_True (λ p, (s < seatIndex p)%nat)) by lia.
    rewrite (filter_none (λ p, (seatIndex p < s)%nat)).
    2: { intros z Hz. rewrite Forall_forall in Hy. specialize (Hy _ Hz). lia. }
    rewrite (filter_all (λ p, (s < seatIndex p)%nat)); [done|].
    eapply Forall_impl; [exact Hy|]. simpl. intros; lia.
Qed.

Lemma seat_taken (s : nat) (l : list Player) :
  existsb (λ p, bool_decide (seatIndex p = s)) l = true ↔ s ∈ seatIndex <$> l.
Proof.
  rewrite existsb_exists, list_elem_of_fmap. split.
  - intros (p & Hp & Hs). apply bool_decide_eq_true in Hs. exists p.
    split; [done|]. by apply list_elem_of_In.
  - intros (p & -> & Hp). exists p. split; [by apply list_elem_of_In|].
    by apply bool_decide_eq_true.
Qed.

Lemma seat_free (s : nat) (l : list Player) :
  s ∉ seatIndex <$> l → existsb (λ p, bool_decide (seatIndex p = s)) l = false.
Proof.
  intros Hs. destruct (existsb _ l) eqn:E; [|done]. by apply seat_taken in E.
Qed.

(** The players after a player sat down on a free seat. *)
Lemma performSitDown_players seatIdx name buyIn playerId env st :
  seat_order (players env) → seatIdx ∉ seatIndex <$> players env →
  players (Seated.performSitDown seatIdx name buyIn playerId env st)
  = filter (λ p, (seatIndex p < seatIdx)%nat) (players env)
    ++ mkPlayer playerId name buyIn 0 [] Active false false false seatIdx
    :: filter (λ p, (seatIdx < seatIndex p)%nat) (players env).
Proof.
  intros Hord Hfree. unfold Seated.performSitDown.
  rewrite seat_free by done. cbv zeta. cbn [players addLog setPlayers].
  rewrite sort_desc_snoc. by rewrite insert_by_seat.
Qed.

Lemma seat_order_filter (P : Player → Prop) `{!∀ p, Decision (P p)} (l : list Player) :
  seat_order l → seat_order (filter P l).
Proof.
  unfold seat_order. induction 1 as [|y l Hl IH Hy]; [constructor|].
  destruct (decide (P y)).
  - rewrite filter_cons_True by done. constructor; [done|].
    apply Forall_forall. intros z Hz. apply list_elem_of_filter in Hz as [_ Hz].
    rewrite Forall_forall in Hy. by apply Hy.
  - by rewrite filter_cons_False.
Qed.

End SeatingFacts.

Section seating.

Import EvaluatorFacts NewHandFacts SeatingFacts.

(** X19. Sitting down and standing up keep the [players] array in seat
    order with one player per seat: if the array of the render and the
    current array are so ordered, so is the array after [performSitDown]
    and after [standUp]. *)
Theorem seating_keeps_seat_order (seatIdx : nat) (name : string) (buyIn : Z)
    (playerId : string) (env st : TableState) :
  seat_order (players env) → seat_order (players st) →
  seat_order (players (Seated.performSitDown seatIdx name buyIn playerId env st)) ∧
  seat_order (players (Seated.standUp playerId env st)).
Proof.
  intros Henv Hst. split.
  - destruct (decide (seatIdx ∈ seatIndex <$> players env)) as [Htaken|Hfree].
    + unfold Seated.performSitDown. apply seat_taken in Htaken. by rewrite Htaken.
    + rewrite performSitDown_players by done. unfold seat_order.
      apply StronglySorted_app. split_and!.
      * intros p q Hp Hq. apply list_elem_of_filter in Hp as [Hp _].
        apply elem_of_cons in Hq as [->|Hq]; [done|].
        apply list_elem_of_filter in Hq as [Hq _]. simpl in *. lia.
      * by apply seat_order_filter.
      * constructor; [by apply seat_order_filter|].
        apply Forall_forall. intros q Hq. by apply list_elem_of_filter in Hq as [Hq _].
  - unfold Seated.standUp. case_decide; [done|]. by apply seat_order_filter.
Qed.

Lemma seating_keeps_seat_order_witness :
  let env := initial [mkPlayer "a" "A" 1000 0 [] Active false false false 1;
                      mkPlayer "c" "C" 1000 0 [] Active false false false 5] in
  seat_order (players (Seated.performSitDown 3 "B" 1000 "b" env env)) ∧
  seat_order (players (Seated.standUp "b" env env)).
Proof.
  intros env.
  assert (H : seat_order (players env)).
  { repeat constructor; simpl; lia. }
  exact (seating_keeps_seat_order 3 "B" 1000 "b" env env H H).
Defined.

(** X20. [performSitDown] does nothing when the seat is taken; on a free
    seat of a table in seat order it adds the new player, with the buy-in
    as stack, no bet, no cards and Active, between the players of the
    lower and of the higher seats, who stay as they were and in their
    order. *)
Theorem performSitDown_adds_one_player (seatIdx : nat) (name : string) (buyIn : Z)
    (playerId : string) (env st : TableState) :
  (seatIdx ∈ seatIndex <$> players env →
   Seated.performSitDown seatIdx name buyIn playerId env st = st) ∧
  (seat_order (players env) → seatIdx ∉ seatIndex <$> players env →
   ∃ before after,
     players env = before ++ after ∧
     players (Seated.performSitDown seatIdx name buyIn playerId env st)
     = before ++ mkPlayer playerId name buyIn 0 [] Active false false false seatIdx
       :: after ∧
     Forall (λ p, (seatIndex p < seatIdx)%nat) before ∧
     Forall (λ p, (seatIdx < seatIndex p)%nat) after).
Proof.
  split.
  - intros Htaken. unfold Seated.performSitDown. apply seat_taken in Htaken.
    by rewrite Htaken.
  - intros Hord Hfree.
    exists (filter (λ p, (seatIndex p < seatIdx)%nat) (players env)),
           (filter (λ p, (seatIdx < seatIndex p)%nat) (players env)).
    split_and!.
    + by rewrite seat_order_split.
    + by apply performSitDown_players.
    + apply Forall_forall. intros p Hp. by apply list_elem_of_filter in Hp as [? _].
    + apply Forall_forall. intros p Hp. by apply list_elem_of_filter in Hp as [? _].
Qed.

Lemma performSitDown_adds_one_player_witness :
  let env := initial [mkPlayer "a" "A" 1000 0 [] Active false false false 1;
                      mkPlayer "c" "C" 1000 0 [] Active false false false 5] in
  ∃ before after,
    players env = before ++ after ∧
    players (Seated.performSitDown 3 "B" 1000 "b" env env)
    = before ++ mkPlayer "b" "B" 1000 0 [] Active false false false 3 :: after ∧
    Forall (λ p, (seatIndex p < 3)%nat) before ∧
    Forall (λ p, (3 < seatIndex p)%nat) after.
Proof.
  intros env.
  assert (H1 : seat_order (players env)) by (repeat constructor; simpl; lia).
  assert (H2 : 3%nat ∉ seatIndex <$> players env) by compute_done.
  exact (proj2 (performSitDown_adds_one_player 3 "B" 1000 "b" env env) H1 H2).
Defined.

(** X21. Standing up undoes sitting down: during Setup, on a table in
    seat order, a player who takes a free seat under an id nobody at the
    table has and then stands up leaves the [players] array as it was. *)
Theorem standUp_undoes_performSitDown (seatIdx : nat) (name : string) (buyIn : Z)
    (playerId : string) (env : TableState) :
  phase env = Setup →
  seat_order (players env) →
  seatIdx ∉ seatIndex <$> players env →
  playerId ∉ id <$> players env →
  let sat := Seated.performSitDown seatIdx name buyIn playerId env env in
  players (Seated.standUp playerId sat sat) = players env.
Proof.
  intros Hphase Hord Hfree Hid sat.
  assert (Hsat : phase sat = Setup).
  { subst sat. unfold Seated.performSitDown. by destruct (existsb _ _). }
  unfold Seated.standUp. rewrite decide_False by (by rewrite Hsat; intros ?).
  cbn [players setPlayers]. subst sat. rewrite performSitDown_players by done.
  rewrite filter_app, filter_cons_False by (simpl; naive_solver).
  rewrite !(filter_all (λ p, id p ≠ playerId)).
  - by apply seat_order_split.
  - apply Forall_forall. intros p Hp Hp'. apply list_elem_of_filter in Hp as [_ Hp].
    apply Hid, list_elem_of_fmap. by exists p.
  - apply Forall_forall. intros p Hp Hp'. apply list_elem_of_filter in Hp as [_ Hp].
    apply Hid, list_elem_of_fmap. by exists p.
Qed.

Lemma standUp_undoes_performSitDown_witness :
  let env := initial [mkPlayer "a" "A" 1000 0 [] Active false false false 1;
                      mkPlayer "c" "C" 1000 0 [] Active false false false 5] in
  let sat := Seated.performSitDown 3 "B" 1000 "b" env env in
  players (Seated.standUp "b" sat sat) = players env.
Proof.
  intros env.
  assert (H0 : phase env = Setup) by reflexivity.
  assert (H1 : seat_order (players env)) by (repeat constructor; simpl; lia).
  assert (H2 : 3%nat ∉ seatIndex <$> players env) by compute_done.
  assert (H3 : "b" ∉ id <$> players env) by compute_done.
  exact (standUp_undoes_performSitDown 3 "B" 1000 "b" env H0 H1 H2 H3).
Defined.

End seating.

(* ===================================================================== *)
(** * The ids of the cards *)
(* ===================================================================== *)

Module DeckMore.

Import Deck NewHandFacts.

Lemma append_assoc (a b c : string) : (a +:+ b) +:+ c = a +:+ b +:+ c.
Proof.
  induction a as [|x a IH]; [done|].
  change (String x ((a +:+ b) +:+ c) = String x (a +:+ b +:+ c)). by rewrite IH.
Qed.

(** Two texts that agree after something was appended to each: one is a
    prefix of the other. *)
Lemma append_eq_prefix (p : string) : ∀ q t t',
  p +:+ t = q +:+ t' → String.prefix p q = true ∨ String.prefix q p = true.
Proof.
  induction p as [|a p IH]; intros [|b q] t t' H; simpl in *; auto.
  injection H as -> H. apply IH in H. destruct H as [H|H]; [left|right].
  - destruct (Ascii.ascii_dec b b); [done|congruence].
  - destruct (Ascii.ascii_dec b b); [done|congruence].
Qed.

(** No [rank-suit-] text is a prefix of another. *)
Lemma id_prefixes_apart (r r' : Rank) (s s' : Suit) :
  String.prefix (Rank_value r +:+ "-" +:+ Suit_value s +:+ "-")
                (Rank_value r' +:+ "-" +:+ Suit_value s' +:+ "-") = true →
  r = r' ∧ s = s'.
Proof. destruct r, r', s, s'; vm_compute; first [discriminate|done]. Qed.

Lemma createDeck_id_form token :
  Forall (λ c, ∃ t, card_id c
                    = (Rank_value (rank c) +:+ "-" +:+ Suit_value (suit c) +:+ "-") +:+ t)
         (createDeck token).
Proof.
  rewrite DeckFacts.createDeck_unfold. apply Forall_fmap, Forall_forall.
  intros [k [s r]] _. simpl. exists (token k).
  by rewrite !append_assoc.
Qed.

Lemma createDeck_faces_NoDup token :
  NoDup ((λ c, (rank c, suit c)) <$> createDeck token).
Proof. compute_done. Qed.

End DeckMore.

Section deck_more.

Import Deck NewHandFacts DeckMore.

(** X24. The ids of the cards of a deck are pairwise distinct whatever
    [Math.random] returns, since each id starts with the rank and the suit
    of its card; this holds for [createDeck] and for the shuffled deck of
    a hand. *)
Theorem card_ids_are_distinct (token : nat → string) (draw : nat → nat) :
  NoDup (card_id <$> createDeck token) ∧
  NoDup (card_id <$> freshShuffledDeck token draw).
Proof.
  assert (H : NoDup (card_id <$> createDeck token)).
  { pose proof (createDeck_faces_NoDup token) as Hfaces.
    pose proof (createDeck_id_form token) as Hform. rewrite Forall_forall in Hform.
    apply NoDup_fmap_2_strong; [|by eapply NoDup_fmap_1].
    intros x y Hx Hy Hid.
    destruct (Hform _ Hx) as [t Ht]. destruct (Hform _ Hy) as [t' Ht'].
    rewrite Ht, Ht' in Hid.
    assert (Hface : (rank x, suit x) = (rank y, suit y)).
    { apply append_eq_prefix in Hid as [Hp|Hp]; apply id_prefixes_apart in Hp as [-> ->];
        done. }
    apply list_elem_of_lookup in Hx as [i Hi]. apply list_elem_of_lookup in Hy as [j Hj].
    assert (i = j) as ->; [|congruence].
    eapply NoDup_lookup; [exact Hfaces| |].
    - by rewrite list_lookup_fmap, Hi.
    - rewrite list_lookup_fmap, Hj. simpl. by rewrite Hface. }
  split; [done|]. by rewrite freshShuffledDeck_Permutation.
Qed.

End deck_more.

(* ===================================================================== *)
(** * The order in which [getNOfAKind] looks at the ranks *)
(* ===================================================================== *)

Module KeyOrder.

Import EvaluatorFacts EvaluatorMore.

(** The keys "2" .. "10" are array indices, "J", "Q", "K" and "A" are not. *)
Lemma array_index_rank (r : Rank) :
  array_index (Rank_value r)
  = if decide (RANK_VALUE r ≤ 10) then Some (Z.to_nat (RANK_VALUE r)) else None.
Proof. by destruct r. Qed.

Lemma key_before_flip k k' : key_before k k' = true → key_before k' k = false.
Proof.
  unfold key_before.
  destruct (array_index k), (array_index k'); try done.
  intros H%bool_decide_eq_true. apply bool_decide_eq_false. lia.
Qed.

Lemma key_before_pass k k' k'' :
  key_before k k' = true → key_before k'' k' = false → key_before k'' k = false.
Proof.
  unfold key_before.
  destruct (array_index k), (array_index k'), (array_index k''); try done.
  intros H%bool_decide_eq_true H'%bool_decide_eq_false. apply bool_decide_eq_false. lia.
Qed.

(** The keys of [counts] stay in enumeration order: no key comes before a
    key that precedes it in the list. *)
Lemma insert_key_sorted k c (o : list (string * list Card)) :
  StronglySorted (λ a b, key_before b a = false) o.*1 →
  StronglySorted (λ a b, key_before b a = false) (insert_key k c o).*1.
Proof.
  induction o as [|[k' cs] o IH]; [repeat constructor|].
  rewrite fmap_cons. intros [Hk' Ho]%StronglySorted_cons. cbn [insert_key fst].
  destruct (key_before k k') eqn:Hb.
  - rewrite !fmap_cons. cbn [fst]. constructor; [by constructor|].
    constructor; [by apply key_before_flip|].
    eapply Forall_impl; [exact Hk'|]. intros k'' Hk''. by eapply key_before_pass.
  - rewrite fmap_cons. cbn [fst]. constructor; [by apply IH|].
    rewrite (fmap_Permutation fst _ _ (insert_key_Permutation k c o)).
    rewrite fmap_cons. by constructor.
Qed.

Lemma count_card_sorted counts c :
  StronglySorted (λ a b, key_before b a = false) counts.*1 →
  StronglySorted (λ a b, key_before b a = false) (count_card counts c).*1.
Proof.
  intros H. unfold count_card. cbv zeta. case_decide.
  - by rewrite push_at_keys.
  - by apply insert_key_sorted.
Qed.

Lemma foldl_count_card_sorted cards : ∀ counts,
  StronglySorted (λ a b, key_before b a = false) counts.*1 →
  StronglySorted (λ a b, key_before b a = false) (foldl count_card counts cards).*1.
Proof.
  induction cards as [|c cards IH]; intros counts H; [done|].
  apply IH. by apply count_card_sorted.
Qed.

Lemma find_first {A} (f : A → bool) (l1 : list A) x l2 :
  Forall (λ y, f y = false) l1 → f x = true → List.find f (l1 ++ x :: l2) = Some x.
Proof.
  induction 1 as [|y l1 Hy _ IH]; intros Hx; simpl; [by rewrite Hx|].
  rewrite Hy. by apply IH.
Qed.

End KeyOrder.

Section key_order.

Import EvaluatorFacts EvaluatorMore KeyOrder.

(** X25. [getNOfAKind] looks at the ranks 2 to 10 first, lowest first:
    when a rank from 2 to 10 has [n] cards and no lower rank has, its
    first [n] cards are returned, whatever higher ranks, aces included,
    have [n] cards too. *)
Theorem getNOfAKind_prefers_the_lowest_numeric_rank (cards : list Card) (n : nat) (r : Rank) :
  (0 < n)%nat →
  RANK_VALUE r ≤ 10 →
  (n ≤ length (filter (λ c, rank c = r) cards))%nat →
  (∀ r', RANK_VALUE r' < RANK_VALUE r →
         (length (filter (λ c, rank c = r') cards) < n)%nat) →
  getNOfAKind cards n = Some (take n (filter (λ c, rank c = r) cards)).
Proof.
  intros Hn Hnum Hr Hlow.
  destruct (counts_ok_all cards) as (Hnodup & Hcs & Hkeys).
  pose proof (foldl_count_card_sorted cards [] ltac:(constructor)) as Hsorted.
  unfold getNOfAKind. cbv zeta.
  set (counts := foldl count_card [] cards) in *.
  assert (Hin : (Rank_value r, filter (λ c, rank c = r) cards) ∈ counts).
  { destruct (filter (λ c, rank c = r) cards) as [|c0 rest] eqn:Hf; [simpl in Hr; lia|].
    assert (Hc0 : c0 ∈ filter (λ c, rank c = r) cards) by (rewrite Hf; left).
    apply list_elem_of_filter in Hc0 as [Hr0 Hc0].
    apply Hkeys, list_elem_of_fmap in Hc0 as ([k cs] & Hk & Hin). simpl in Hk. subst k.
    pose proof (Hcs _ _ Hin) as ->. rewrite Hr0, filter_Rank_value in Hin.
    by rewrite <- Hf. }
  apply list_elem_of_split in Hin as (l1 & l2 & Hsplit).
  rewrite Hsplit. rewrite (find_first _ l1 _ l2); [done| |by apply bool_decide_eq_true].
  apply Forall_forall. intros [k' cs'] Hin'. apply bool_decide_eq_false. simpl. intros Hlen.
  assert (Hcs' : cs' = filter (λ c, Rank_value (rank c) = k') cards).
  { apply Hcs. rewrite Hsplit. apply elem_of_app. by left. }
  destruct cs' as [|c0 rest] eqn:Hf; [simpl in Hlen; lia|].
  assert (Hc0 : c0 ∈ filter (λ c, Rank_value (rank c) = k') cards)
    by (rewrite <- Hcs'; left).
  apply list_elem_of_filter in Hc0 as [Hk' _]. subst k'.
  rewrite filter_Rank_value in Hcs'.
  rewrite Hsplit, fmap_app, fmap_cons in Hsorted, Hnodup. cbn [fst] in Hsorted, Hnodup.
  assert (Hkin : Rank_value (rank c0) ∈ l1.*1).
  { apply list_elem_of_fmap. by exists (Rank_value (rank c0), c0 :: rest). }
  assert (Hne : rank c0 ≠ r).
  { intros E. apply NoDup_app in Hnodup as (_ & Hdisj & _).
    apply (Hdisj _ Hkin). rewrite E. left. }
  apply StronglySorted_app in Hsorted as (Hcross & _ & _).
  specialize (Hcross _ (Rank_value r) Hkin ltac:(left)). simpl in Hcross.
  unfold key_before in Hcross. rewrite !array_index_rank in Hcross.
  rewrite (decide_True _ _ Hnum) in Hcross.
  case_decide as Hnum0; [|done]. apply bool_decide_eq_false in Hcross.
  assert (Hlt : RANK_VALUE (rank c0) < RANK_VALUE r).
  { assert (RANK_VALUE (rank c0) ≠ RANK_VALUE r).
    { intros E. apply Hne. by destruct (rank c0), r. }
    assert (0 ≤ RANK_VALUE (rank c0) ∧ 0 ≤ RANK_VALUE r)
      by (by destruct (rank c0), r).
    lia. }
  specialize (Hlow _ Hlt). rewrite <- Hcs' in Hlow. lia.
Qed.

Lemma getNOfAKind_prefers_the_lowest_numeric_rank_witness :
  let cards := [card Ace Hearts; card Ace Diamonds; card Four Hearts; card Four Diamonds;
                card Two Hearts; card Two Diamonds; card King Spades] in
  getNOfAKind cards 2 = Some (take 2 (filter (λ c, rank c = Two) cards)).
Proof.
  intros cards.
  assert (H1 : (0 < 2)%nat) by lia.
  assert (H2 : RANK_VALUE Two ≤ 10) by (vm_compute; discriminate).
  assert (H3 : (2 ≤ length (filter (λ c, rank c = Two) cards))%nat) by (vm_compute; lia).
  assert (H4 : ∀ r', RANK_VALUE r' < RANK_VALUE Two →
                     (length (filter (λ c, rank c = r') cards) < 2)%nat).
  { intros r' Hr'. destruct r'; vm_compute in Hr'; discriminate Hr'. }
  exact (getNOfAKind_prefers_the_lowest_numeric_rank cards 2 Two H1 H2 H3 H4).
Defined.

End key_order.

(* ===================================================================== *)
(** * The seat-based [startNewHand], further *)
(* ===================================================================== *)

Module SeatedMore.

Import EvaluatorFacts AppFacts SeatedFacts NewHandFacts.

(** With two players in chips, every seat has another seat in chips. *)
Lemma another_seated (l : list Player) d :
  (2 ≤ length (filter (λ p, status p ≠ Busted) l))%nat →
  ∃ o, o ≠ d ∧ seated_at l o.
Proof.
  intros Hlen.
  destruct (filter (λ p, status p ≠ Busted) l) as [|x [|y rest]] eqn:Hf;
    try (simpl in Hlen; lia).
  destruct (filter_split _ l [] x (y :: rest) Hf) as (k1 & k2 & -> & Hk1 & Hk2).
  destruct (filter_split _ k2 [] y rest Hk2) as (m1 & m2 & -> & Hm1 & Hm2).
  assert (Hx : status x ≠ Busted ∧ status y ≠ Busted).
  { assert (x ∈ x :: y :: rest) as Hx by set_solver.
    assert (y ∈ x :: y :: rest) as Hy by set_solver.
    rewrite <- Hf in Hx, Hy.
    apply list_elem_of_filter in Hx as [? _]. by apply list_elem_of_filter in Hy as [? _]. }
  destruct Hx as [Hx Hy].
  assert (Ha : seated_at (k1 ++ x :: m1 ++ y :: m2) (length k1)).
  { exists x. split; [|done]. by rewrite list_lookup_middle. }
  assert (Hb : seated_at (k1 ++ x :: m1 ++ y :: m2) (length k1 + S (length m1))).
  { exists y. split; [|done].
    rewrite lookup_app_r by lia.
    replace (length k1 + S (length m1) - length k1)%nat with (S (length m1)) by lia.
    simpl. by rewrite list_lookup_middle. }
  destruct (decide (d = length k1)) as [->|Hne].
  - exists (length k1 + S (length m1))%nat. split; [lia|done].
  - exists (length k1). split; [done|done].
Qed.

(** The scan that starts after seat [s] stops before it comes back to [s]
    when another seat is in chips. *)
Lemma next_seated_skips (l : list Player) s o :
  (s < length l)%nat → o ≠ s → seated_at l o →
  ∃ r, Seated.next_seated l ((s + 1) `mod` length l)%nat = Some r ∧
       r ≠ s ∧ seated_at l r.
Proof.
  intros Hs Hne Ho.
  pose proof (seated_at_lt _ _ Ho) as Hon.
  set (n := length l) in *.
  assert (Hidx : ((s + 1) `mod` n < n)%nat) by (apply Nat.mod_upper_bound; lia).
  destruct (next_seated_hits l _ o Hidx Ho) as (r & Hr & Hrs).
  exists r. split; [done|]. split; [|done]. intros ->.
  unfold Seated.next_seated in Hr.
  apply scan_prefix in Hr as (k & Hk & Hdk & Hpre).
  fold n in Hdk, Hpre, Hk.
  rewrite iter_next_index in Hdk by lia.
  rewrite (mod_below_twice (s + 1)) in Hdk, Hidx; [|lia..].
  assert (Hj0 : ((o + n - s - 1) `mod` n
                 = if decide (o + n - s - 1 < n) then o + n - s - 1 else o - s - 1)%nat).
  { rewrite mod_below_twice by lia. repeat case_decide; lia. }
  assert (Hkn : (k = n - 1)%nat).
  { rewrite mod_below_twice in Hdk by (case_decide; lia).
    repeat case_decide; lia. }
  destruct (Hpre ((o + n - s - 1) `mod` n)%nat) as (p & Hp & Hskip).
  { rewrite Hj0. case_decide; lia. }
  rewrite iter_next_index in Hp by (try rewrite mod_below_twice by lia; try case_decide; lia).
  rewrite Hj0, (mod_below_twice (s + 1)) in Hp by lia.
  rewrite mod_below_twice in Hp by (repeat case_decide; lia).
  replace (if decide _ then _ else _)%nat with o in Hp by (repeat case_decide; lia).
  destruct Ho as (p' & Hp' & Hs'). simplify_eq.
  by apply bool_decide_eq_true in Hskip.
Qed.

Lemma seat_roles_lookup (rs0 : list Player) d x y i :
  alter (with_isBigBlind true) y
    (alter (with_isSmallBlind true) x
       (alter (with_isDealer true) d (Seated.clear_flags <$> rs0))) !! i
  = seat_roles d x y i <$> rs0 !! i.
Proof.
  rewrite !list_lookup_alter, !list_lookup_fmap. unfold seat_roles.
  repeat case_decide; subst; try done; try (by destruct (rs0 !! _)).
Qed.

Lemma seat_roles_only d x y i p h :
  (isDealer (with_hand h (seat_roles d x y i p)) = true → i = d) ∧
  (isSmallBlind (with_hand h (seat_roles d x y i p)) = true → i = x) ∧
  (isBigBlind (with_hand h (seat_roles d x y i p)) = true → i = y).
Proof. unfold seat_roles. cbv zeta. repeat case_decide; subst; simpl; done. Qed.

Lemma seat_roles_at d x y p h :
  isDealer (with_hand h (seat_roles d x y d p)) = true ∧
  isSmallBlind (with_hand h (seat_roles d x y x p)) = true ∧
  isBigBlind (with_hand h (seat_roles d x y y p)) = true.
Proof. unfold seat_roles. cbv zeta. repeat case_decide; subst; simpl; done. Qed.

Lemma seat_roles_fields d x y i p :
  (id (seat_roles d x y i p), chips (seat_roles d x y i p), bet (seat_roles d x y i p),
   hand (seat_roles d x y i p), status (seat_roles d x y i p))
  = (id p, chips p, bet p, hand p, status p).
Proof. unfold seat_roles. cbv zeta. by repeat case_decide. Qed.

(** Dealing, seat by seat: a Busted player is passed over. *)
Lemma deal_seated (l : list Player) : ∀ acc dk,
  ∃ l' dk', foldl Seated.deal_hand (acc, dk) l = (acc ++ l', dk') ∧
            Forall2 dealt_if_seated l l'.
Proof.
  induction l as [|p l IH]; intros acc dk; simpl.
  - exists [], dk. by rewrite app_nil_r.
  - unfold Seated.deal_hand at 2. case_decide as Hs; simpl.
    + unfold App.deal_hand. simpl.
      match goal with
      | |- context [foldl _ (acc ++ [?p'], ?dk') l] =>
          destruct (IH (acc ++ [p']) dk') as (l' & dk'' & -> & HF);
          exists (p' :: l'), dk''
      end.
      split; [by rewrite <- app_assoc|]. constructor; [|done].
      eexists. split; [reflexivity|]. intros E. by destruct Hs.
    + destruct (IH (acc ++ [p]) dk) as (l' & dk'' & -> & HF).
      exists (p :: l'), dk''. split; [by rewrite <- app_assoc|].
      constructor; [|done]. exists (hand p). split; [by destruct p|done].
Qed.

End SeatedMore.

Section seated_more.

Import EvaluatorFacts AppFacts SeatedFacts NewHandFacts SeatedMore.


(** X23. The seat-based [startNewHand] with two or more players in
    chips, whatever the other seats hold: its loops over the seats end and
    the hand starts; the button, the small blind and the big blind go to
    players in chips, the two blinds to two different ones, each posted as
    far as the stack goes and the pot their sum; the first to act is in
    chips; a player out of chips stays Busted, with no flag, no bet and no
    cards. *)
Theorem seated_roles_go_to_players_in_chips
    (token : nat → string) (draw : nat → nat) (newDealerIdx : nat)
    (cur : list Player) (st : TableState) :
  (2 ≤ length (filter (λ p, (chips p > 0)%Z) cur))%nat →
  ∃ st' x y cd cx cy pd px py,
    Seated.startNewHand token draw newDealerIdx cur st = Some st' ∧
    x ≠ y ∧
    cur !! dealerIdx st' = Some cd ∧ chips cd > 0 ∧
    cur !! x = Some cx ∧ chips cx > 0 ∧
    cur !! y = Some cy ∧ chips cy > 0 ∧
    players st' !! dealerIdx st' = Some pd ∧ isDealer pd = true ∧
    players st' !! x = Some px ∧ isSmallBlind px = true ∧
    players st' !! y = Some py ∧ isBigBlind py = true ∧
    bet px = Z.min (chips cx) Seated.SMALL_BLIND ∧ chips px = chips cx - bet px ∧
    bet py = Z.min (chips cy) Seated.BIG_BLIND ∧ chips py = chips cy - bet py ∧
    pot st' = bet px + bet py ∧
    seated_at (players st') (activePlayerIdx st') ∧
    status <$> players st' = status <$> (reset_player <$> cur) ∧
    Forall (λ p, status p = Busted →
                 hand p = [] ∧ bet p = 0 ∧
                 (isDealer p, isSmallBlind p, isBigBlind p) = (false, false, false))
           (players st').
Proof.
  intros Hlive. unfold Seated.startNewHand. cbv zeta.
  rewrite reset_count. rewrite decide_False by lia.
  set (rs0 := App.reset_player <$> cur).
  set (n := length rs0).
  assert (Hcount : (2 ≤ length (filter (λ p, status p ≠ Busted) rs0))%nat)
    by (subst rs0; by rewrite reset_count).
  destruct (another_seated rs0 0 Hcount) as (a & _ & Ha).
  assert (Hn : (0 < n)%nat) by (pose proof (seated_at_lt _ _ Ha); lia).
  (* the button *)
  destruct (next_seated_hits rs0 (newDealerIdx `mod` n)%nat a) as (d & Hd & Hds);
    [by apply Nat.mod_upper_bound; lia|done|].
  rewrite Hd. cbn [mbind option_bind].
  destruct (another_seated rs0 d Hcount) as (o & Hod & Ho).
  set (rs1 := alter (with_isDealer true) d (Seated.clear_flags <$> rs0)).
  assert (Hst1 : status <$> rs1 = status <$> rs0) by apply status_flags.
  assert (Hlen1 : length rs1 = n).
  { by rewrite <- (length_fmap status rs1), Hst1, length_fmap. }
  (* the blinds *)
  destruct (next_seated_skips rs1 d o) as (sb & Hsb & Hsbd & Hsbs);
    [rewrite Hlen1; by apply seated_at_lt|done|by apply (seated_at_ext rs0)|].
  rewrite Hlen1 in Hsb. rewrite Hsb. cbn [mbind option_bind].
  destruct (next_seated_skips rs1 sb d) as (bb & Hbb & Hbbsb & Hbbs);
    [by apply seated_at_lt|done|by apply (seated_at_ext rs0)|].
  rewrite Hlen1 in Hbb. rewrite Hbb. cbn [mbind option_bind].
  apply (seated_at_ext rs1 rs0) in Hsbs, Hbbs; [|done..].
  set (count := length (filter (λ p, chips p > 0) cur)) in *.
  set (x := if decide (count = 2%nat) then d else sb).
  set (y := if decide (count = 2%nat) then sb else bb).
  assert (Hxy : x ≠ y ∧ seated_at rs0 x ∧ seated_at rs0 y).
  { subst x y. by case_decide. }
  destruct Hxy as (Hxy & Hxs & Hys).
  assert (Hrs2 : (if decide (count = 2%nat)
                  then alter (with_isBigBlind true) sb
                         (alter (with_isSmallBlind true) d rs1)
                  else alter (with_isBigBlind true) bb
                         (alter (with_isSmallBlind true) sb rs1))
                 = alter (with_isBigBlind true) y (alter (with_isSmallBlind true) x rs1)).
  { subst x y. by case_decide. }
  rewrite Hrs2. clear Hrs2.
  (* flags and cards *)
  set (rs2 := alter (with_isBigBlind true) y (alter (with_isSmallBlind true) x rs1)).
  destruct (deal_seated rs2 [] (Deck.freshShuffledDeck token draw))
    as (rs3 & dk' & Hfold & HF).
  rewrite Hfold. cbn [fst snd app].
  assert (Hrs3 : ∀ i p3, rs3 !! i = Some p3 →
            ∃ p0 h, rs0 !! i = Some p0 ∧ p3 = with_hand h (seat_roles d x y i p0) ∧
                    (status p0 = Busted → h = [])).
  { intros i p3 Hp3.
    destruct (Forall2_lookup_r _ _ _ _ _ HF Hp3) as (p2 & Hp2 & h & -> & Hh).
    subst rs2 rs1. rewrite seat_roles_lookup in Hp2.
    destruct (rs0 !! i) as [p0|] eqn:Hp0; simplify_eq/=.
    exists p0, h. split_and!; [done|done|]. intros Hb.
    pose proof (seat_roles_fields d x y i p0) as Hfields. simplify_eq.
    rewrite Hh by congruence.
    subst rs0. rewrite list_lookup_fmap in Hp0.
    destruct (cur !! i); simplify_eq/=. congruence. }
  assert (Hlen3 : length rs3 = n).
  { rewrite <- (Forall2_length _ _ _ HF). subst rs2.
    by rewrite !length_alter. }
  assert (Hat : ∀ i, seated_at rs0 i →
            ∃ p0 h, rs0 !! i = Some p0 ∧ status p0 ≠ Busted ∧
                    rs3 !! i = Some (with_hand h (seat_roles d x y i p0))).
  { intros i Hi.
    destruct (lookup_lt_is_Some_2 rs3 i) as [p3 Hp3];
      [rewrite Hlen3; by apply seated_at_lt|].
    destruct (Hrs3 _ _ Hp3) as (p0 & h & Hp0 & -> & _).
    destruct Hi as (p0' & Hp0' & Hs). simplify_eq. eauto. }
  destruct (Hat _ Hds) as (p0d & hd & Hp0d & Hsd & Hp3d).
  destruct (Hat _ Hxs) as (p0x & hx & Hp0x & Hsx & Hp3x).
  destruct (Hat _ Hys) as (p0y & hy & Hp0y & Hsy & Hp3y).
  (* the small blind *)
  destruct (find_at isSmallBlind rs3 x _ Hp3x) as [Hf1 Hi1].
  { apply seat_roles_at. }
  { intros i p Hp Hsb'. destruct (Hrs3 _ _ Hp) as (p0 & h & _ & -> & _).
    by apply (seat_roles_only d x y i p0 h). }
  rewrite Hf1. cbn [mbind option_bind].
  rewrite (alter_first_at _ _ _ _ Hi1).
  set (rs4 := alter (App.post_blind Seated.SMALL_BLIND) x rs3).
  assert (Hp4y : rs4 !! y = Some (with_hand hy (seat_roles d x y y p0y))).
  { subst rs4. by rewrite list_lookup_alter_ne. }
  destruct (find_at isBigBlind rs4 y _ Hp4y) as [Hf2 Hi2].
  { apply seat_roles_at. }
  { intros i p Hp Hbb'. subst rs4. rewrite list_lookup_alter in Hp.
    case_decide; subst.
    - rewrite Hp3x in Hp. simplify_eq/=.
      by apply (seat_roles_only d x y x p0x hx).
    - destruct (Hrs3 _ _ Hp) as (p0 & h & _ & -> & _).
      by apply (seat_roles_only d x y i p0 h). }
  rewrite Hf2. cbn [mbind option_bind].
  rewrite (alter_first_at _ _ _ _ Hi2).
  set (rs5 := alter (App.post_blind Seated.BIG_BLIND) y rs4).
  (* first to act *)
  assert (Hlen5 : length rs5 = n).
  { subst rs5 rs4. by rewrite !length_alter. }
  assert (Hrs5 : ∀ i, rs5 !! i
            = (if decide (y = i) then App.post_blind Seated.BIG_BLIND
               else if decide (x = i) then App.post_blind Seated.SMALL_BLIND
               else λ p, p) <$> rs3 !! i).
  { intros i. subst rs5 rs4.
    destruct (decide (y = i)) as [<-|Hyi].
    { by rewrite list_lookup_alter_eq, list_lookup_alter_ne. }
    rewrite list_lookup_alter_ne by done.
    destruct (decide (x = i)) as [<-|Hxi].
    { by rewrite list_lookup_alter_eq. }
    rewrite list_lookup_alter_ne by done. by destruct (rs3 !! i). }
  assert (Hst5 : status <$> rs5 = status <$> rs0).
  { apply list_eq. intros i. rewrite !list_lookup_fmap, Hrs5.
    destruct (rs3 !! i) as [p3|] eqn:Hp3.
    - destruct (Hrs3 _ _ Hp3) as (p0 & h & -> & -> & _).
      pose proof (seat_roles_fields d x y i p0) as Hfields. simplify_eq.
      repeat case_decide; simpl; congruence.
    - apply lookup_ge_None in Hp3. rewrite Hlen3 in Hp3.
      by rewrite (proj2 (lookup_ge_None rs0 i)). }
  destruct (next_seated_hits rs5
              (Z.to_nat ((findIndex isBigBlind rs5 + 1) `mod` Z.of_nat n)) d)
    as (first & Hfirst & Hfirsts).
  { rewrite Hlen5. pose proof (Z.mod_pos_bound (findIndex isBigBlind rs5 + 1) (Z.of_nat n)).
    lia. }
  { by apply (seated_at_ext rs0). }
  rewrite Hfirst. cbn [mbind option_bind].
  (* the table *)
  apply (reset_seated cur) in Hds as (cd & Hcd & Hcdpos).
  apply (reset_seated cur) in Hxs as (cx & Hcx & Hcxpos).
  apply (reset_seated cur) in Hys as (cy & Hcy & Hcypos).
  assert (p0d = App.reset_player cd ∧ p0x = App.reset_player cx
          ∧ p0y = App.reset_player cy) as (-> & -> & ->).
  { subst rs0. rewrite list_lookup_fmap in Hp0d, Hp0x, Hp0y.
    rewrite Hcd in Hp0d. rewrite Hcx in Hp0x. rewrite Hcy in Hp0y. by simplify_eq/=. }
  pose proof (seat_roles_fields d x y x (App.reset_player cx)) as Hfx.
  pose proof (seat_roles_fields d x y y (App.reset_player cy)) as Hfy.
  pose proof (seat_roles_at d x y (App.reset_player cd) hd) as (Hrd & _ & _).
  pose proof (seat_roles_at d x y (App.reset_player cx) hx) as (_ & Hrx & _).
  pose proof (seat_roles_at d x y (App.reset_player cy) hy) as (_ & _ & Hry).
  eexists _, x, y, cd, cx, cy, _, _, _. split; [reflexivity|].
  cbn [players pot dealerIdx activePlayerIdx addLog setPhase setActivePlayerIdx
       setShowCards setWinnerIdx setDealerIdx setCurrentBet setPot setCommunityCards
       setDeck setPlayers setAutoNextTimer].
  split; [done|]. split; [done|]. split; [done|]. split; [done|]. split; [done|].
  split; [done|]. split; [done|].
  split.
  { rewrite Hrs5, Hp3d. reflexivity. }
  split.
  { destruct (decide (y = d)), (decide (x = d)); exact Hrd. }
  split.
  { rewrite Hrs5, Hp3x. rewrite decide_False by done. rewrite decide_True by done.
    reflexivity. }
  split; [done|].
  split.
  { rewrite Hrs5, Hp3y. rewrite decide_True by done. reflexivity. }
  split; [done|].
  assert (Hcx' : chips (seat_roles d x y x (App.reset_player cx)) = chips cx)
    by (by injection Hfx).
  assert (Hcy' : chips (seat_roles d x y y (App.reset_player cy)) = chips cy)
    by (by injection Hfy).
  unfold App.post_blind, App.blind_amount.
  cbn [bet chips with_bet with_chips with_hand]. rewrite Hcx', Hcy'.
  split; [done|]. split; [lia|]. split; [done|]. split; [lia|]. split; [lia|].
  split; [done|]. split; [done|].
  fold (App.blind_amount Seated.SMALL_BLIND) (App.blind_amount Seated.BIG_BLIND)
       (App.post_blind Seated.SMALL_BLIND) (App.post_blind Seated.BIG_BLIND).
  apply Forall_lookup. intros i p Hp Hbusted.
  rewrite Hrs5 in Hp.
  destruct (rs3 !! i) as [p3|] eqn:Hp3; [|done].
  destruct (Hrs3 _ _ Hp3) as (p0 & h & Hp0 & -> & Hh).
  pose proof (seat_roles_fields d x y i p0) as Hfields.
  assert (Hb0 : status p0 = Busted).
  { simplify_eq/=. repeat case_decide; simpl in *; congruence. }
  assert (Hseat : ¬ seated_at rs0 i) by (intros (p' & Hp' & Hs'); congruence).
  assert (i ≠ d ∧ i ≠ x ∧ i ≠ y) as (Hid & Hix & Hiy).
  { split_and!; intros ->; apply Hseat; apply reset_seated; eauto. }
  rewrite !decide_False in Hp by done. simplify_eq/=.
  rewrite Hh by done.
  assert (bet p0 = 0).
  { subst rs0. rewrite list_lookup_fmap in Hp0. by destruct (cur !! i); simplify_eq/=. }
  unfold seat_roles. cbv zeta. rewrite !decide_False by done. simpl.
  split_and!; congruence.
Qed.

Lemma seated_roles_go_to_players_in_chips_witness :
  let cur := [seated "A" 1000; seated "B" 0; seated "C" 15; seated "D" 500] in
  ∃ st' x y cd cx cy pd px py,
    Seated.startNewHand token0 draw0 1 cur (initial cur) = Some st' ∧
    x ≠ y ∧
    cur !! dealerIdx st' = Some cd ∧ chips cd > 0 ∧
    cur !! x = Some cx ∧ chips cx > 0 ∧
    cur !! y = Some cy ∧ chips cy > 0 ∧
    players st' !! dealerIdx st' = Some pd ∧ isDealer pd = true ∧
    players st' !! x = Some px ∧ isSmallBlind px = true ∧
    players st' !! y = Some py ∧ isBigBlind py = true ∧
    bet px = Z.min (chips cx) Seated.SMALL_BLIND ∧ chips px = chips cx - bet px ∧
    bet py = Z.min (chips cy) Seated.BIG_BLIND ∧ chips py = chips cy - bet py ∧
    pot st' = bet px + bet py ∧
    seated_at (players st') (activePlayerIdx st') ∧
    status <$> players st' = status <$> (reset_player <$> cur) ∧
    Forall (λ p, status p = Busted →
                 hand p = [] ∧ bet p = 0 ∧
                 (isDealer p, isSmallBlind p, isBigBlind p) = (false, false, false))
           (players st').
Proof.
  intros cur.
  assert (H : (2 ≤ length (filter (λ p, (chips p > 0)%Z) cur))%nat) by (vm_compute; lia).
  exact (seated_roles_go_to_players_in_chips token0 draw0 1 cur (initial cur) H).
Defined.

End seated_more.

(* ===================================================================== *)
(** * The category [evaluateHand] names *)
(* ===================================================================== *)

Module CategoryFacts.

Import EvaluatorFacts EvaluatorMore.

Lemma all_ranks (r : Rank) : r ∈ RANKS.
Proof. destruct r; compute_done. Qed.

Lemma all_suits (s : Suit) : s ∈ SUITS.
Proof. destruct s; compute_done. Qed.

Lemma has_n_of_a_kind_iff n cards :
  has_n_of_a_kind n cards ↔ ∃ r, (n ≤ count_rank cards r)%nat.
Proof.
  unfold has_n_of_a_kind. rewrite Exists_exists. split.
  - intros (r & _ & Hr). eauto.
  - intros (r & Hr). exists r. split; [apply all_ranks|done].
Qed.

Lemma has_two_ranks_iff n m cards :
  has_two_ranks n m cards ↔
  ∃ r r', r' ≠ r ∧ (n ≤ count_rank cards r)%nat ∧ (m ≤ count_rank cards r')%nat.
Proof.
  unfold has_two_ranks. rewrite Exists_exists. split.
  - intros (r & _ & Hr & (r' & _ & Hne & Hr')%Exists_exists). eauto.
  - intros (r & r' & Hne & Hr & Hr'). exists r. split; [apply all_ranks|].
    split; [done|]. apply Exists_exists. exists r'. split; [apply all_ranks|done].
Qed.

Lemma has_flush_iff cards : has_flush cards ↔ ∃ s, (5 ≤ count_suit cards s)%nat.
Proof.
  unfold has_flush. rewrite Exists_exists. split.
  - intros (s & _ & Hs). eauto.
  - intros (s & Hs). exists s. split; [apply all_suits|done].
Qed.

Lemma has_straight_flush_iff cards :
  has_straight_flush cards ↔
  ∃ s, (5 ≤ count_suit cards s)%nat ∧ has_run (filter (λ c, suit c = s) cards).
Proof.
  unfold has_straight_flush. rewrite Exists_exists. split.
  - intros (s & _ & Hs). eauto.
  - intros (s & Hs). exists s. split; [apply all_suits|done].
Qed.

(** *** Runs *)

Lemma find_same {A} (f g : A → bool) (l : list A) :
  (∀ x, f x = g x) → List.find f l = List.find g l.
Proof. intros Hfg. induction l as [|x l IH]; [done|]. simpl. by rewrite Hfg, IH. Qed.

Lemma highest_run_ext vs vs' :
  (∀ v, v ∈ vs ↔ v ∈ vs') → highest_run vs = highest_run vs'.
Proof.
  intros Hext. unfold highest_run. apply find_same. intros h.
  pose proof (run_fromb_spec vs h) as H1. pose proof (run_fromb_spec vs' h) as H2.
  pose proof (run_from_ext vs vs' h Hext) as H3.
  destruct (run_fromb vs h), (run_fromb vs' h); try done.
  - exfalso. assert (true = true) as E by done. apply H1, H3, H2 in E. done.
  - exfalso. assert (true = true) as E by done. apply H2, H3, H1 in E. done.
Qed.

Lemma has_run_iff cards : has_run cards ↔ ∃ h, run_from (value <$> cards) h.
Proof.
  unfold has_run, highest_run.
  destruct (find_down_from (run_fromb (value <$> cards)) 10 14) as [HS HN].
  split.
  - intros [h Hh]. apply HS in Hh as (_ & Hh & _). exists h. by apply run_fromb_spec.
  - intros [h Hh]. destruct (List.find _ _) as [h'|] eqn:Hf; [by eexists|exfalso].
    pose proof (run_from_bounds _ _ Hh).
    pose proof (proj1 HN eq_refl h ltac:(lia)) as Hno.
    apply not_run_fromb in Hno. done.
Qed.

Lemma has_run_subseteq (cards cards' : list Card) :
  cards ⊆ cards' → has_run cards → has_run cards'.
Proof.
  rewrite !has_run_iff. intros Hsub [h Hh]. exists h.
  intros k Hk. destruct (Hh k Hk) as [Hv|[-> Hace]]; [left|right].
  - apply list_elem_of_fmap in Hv as (c & -> & Hc). apply list_elem_of_fmap_2. by apply Hsub.
  - split; [done|].
    apply list_elem_of_fmap in Hace as (c & -> & Hc). apply list_elem_of_fmap_2. by apply Hsub.
Qed.

Lemma has_run_Permutation (cards cards' : list Card) :
  cards ≡ₚ cards' → has_run cards ↔ has_run cards'.
Proof.
  intros Hp. split; apply has_run_subseteq; intros x; by rewrite Hp.
Qed.

(** What the scan of the code says about runs. *)
Lemma getStraightHigh_has_run cards :
  is_Some (truthy (getStraightHigh cards)) ↔ has_run cards.
Proof.
  unfold has_run.
  rewrite <- (highest_run_ext (uniqueValues cards) (value <$> cards))
    by apply elem_of_uniqueValues.
  rewrite <- getStraightHigh_highest_run.
  destruct (getStraightHigh cards) as [v|] eqn:Hv; simpl; [|done].
  apply getStraightHigh_pos in Hv. rewrite decide_False by lia. done.
Qed.

(** *** Counts *)

Lemma count_rank_Permutation cards cards' r :
  cards ≡ₚ cards' → count_rank cards r = count_rank cards' r.
Proof. unfold count_rank. by intros ->. Qed.

Lemma count_suit_Permutation cards cards' s :
  cards ≡ₚ cards' → count_suit cards s = count_suit cards' s.
Proof. unfold count_suit. by intros ->. Qed.

(** Two suits with five cards each take ten cards. *)
Lemma one_flush_suit cards s s' :
  (length cards ≤ 9)%nat →
  (5 ≤ count_suit cards s)%nat → (5 ≤ count_suit cards s')%nat → s = s'.
Proof.
  intros Hlen Hs Hs'. destruct (decide (s = s')) as [|Hne]; [done|exfalso].
  unfold count_suit in *.
  assert (Hsplit : (length (filter (λ c, suit c = s) cards)
                    + length (filter (λ c, suit c ≠ s) cards) = length cards)%nat).
  { rewrite <- length_app.
    apply Permutation_length, (filter_app_complement (λ c, suit c = s)). }
  assert (Hsub : (length (filter (λ c, suit c = s') cards)
                  ≤ length (filter (λ c, suit c ≠ s) cards))%nat).
  { apply submseteq_length, sublist_submseteq.
    rewrite <- (list_filter_filter_l (λ c, suit c = s') (λ c, suit c ≠ s));
      [apply sublist_filter|].
    intros c ->. done. }
  lia.
Qed.

Lemma count_rank_others (A : list Card) (r r0 : Rank) :
  r ≠ r0 → count_rank (filter (λ c, rank c ≠ r0) A) r = count_rank A r.
Proof.
  intros Hne. unfold count_rank. rewrite list_filter_filter_l; [done|].
  intros c ->. done.
Qed.

(** *** The categories under a permutation of the cards *)

Lemma has_n_of_a_kind_Permutation n A B :
  A ≡ₚ B → has_n_of_a_kind n A ↔ has_n_of_a_kind n B.
Proof.
  intros Hp. rewrite !has_n_of_a_kind_iff.
  split; intros [r Hr]; exists r; by rewrite (count_rank_Permutation _ _ r Hp) in *.
Qed.

Lemma has_two_ranks_Permutation n m A B :
  A ≡ₚ B → has_two_ranks n m A ↔ has_two_ranks n m B.
Proof.
  intros Hp. rewrite !has_two_ranks_iff.
  split; intros (r & r' & Hne & Hr & Hr'); exists r, r';
    by rewrite (count_rank_Permutation _ _ r Hp), (count_rank_Permutation _ _ r' Hp) in *.
Qed.

Lemma has_flush_Permutation A B : A ≡ₚ B → has_flush A ↔ has_flush B.
Proof.
  intros Hp. rewrite !has_flush_iff.
  split; intros [s Hs]; exists s; by rewrite (count_suit_Permutation _ _ s Hp) in *.
Qed.

Lemma has_straight_flush_Permutation A B :
  A ≡ₚ B → has_straight_flush A ↔ has_straight_flush B.
Proof.
  intros Hp. rewrite !has_straight_flush_iff.
  split; intros (s & Hs & Hrun); exists s.
  - rewrite <- (count_suit_Permutation _ _ s Hp). split; [done|].
    eapply has_run_Permutation; [|exact Hrun]. by rewrite Hp.
  - rewrite (count_suit_Permutation _ _ s Hp). split; [done|].
    eapply has_run_Permutation; [|exact Hrun]. by rewrite Hp.
Qed.

Lemma category_Permutation A B : A ≡ₚ B → category A = category B.
Proof.
  intros Hp. unfold category.
  rewrite (decide_ext _ _ _ _ (has_straight_flush_Permutation A B Hp)).
  rewrite (decide_ext _ _ _ _ (has_n_of_a_kind_Permutation 4 A B Hp)).
  rewrite (decide_ext _ _ _ _ (has_two_ranks_Permutation 3 2 A B Hp)).
  rewrite (decide_ext _ _ _ _ (has_flush_Permutation A B Hp)).
  rewrite (decide_ext _ _ _ _ (has_run_Permutation A B Hp)).
  rewrite (decide_ext _ _ _ _ (has_n_of_a_kind_Permutation 3 A B Hp)).
  rewrite (decide_ext _ _ _ _ (has_two_ranks_Permutation 2 2 A B Hp)).
  rewrite (decide_ext _ _ _ _ (has_n_of_a_kind_Permutation 2 A B Hp)).
  done.
Qed.

(** *** From the tests of the code to the categories *)

Lemma getFlushSuit_None_counts A s :
  getFlushSuit A = None → (count_suit A s < 5)%nat.
Proof.
  intros H. pose proof (getFlushSuit_loop_complete A ∅) as Hc.
  specialize (Hc ltac:(intros; rewrite lookup_empty; simpl; lia) H s).
  rewrite lookup_empty in Hc. simpl in Hc. unfold count_suit. lia.
Qed.

Lemma flush_yes A s : getFlushSuit A = Some s → has_flush A.
Proof. intros H. apply has_flush_iff. exists s. by apply flush_cards_length. Qed.

Lemma flush_no A : getFlushSuit A = None → ¬ has_flush A.
Proof.
  intros H [s Hs]%has_flush_iff. pose proof (getFlushSuit_None_counts A s H). lia.
Qed.

Lemma run_yes A v : truthy (getStraightHigh A) = Some v → has_run A.
Proof. intros H. apply getStraightHigh_has_run. by rewrite H. Qed.

Lemma run_no A : truthy (getStraightHigh A) = None → ¬ has_run A.
Proof. intros H [v Hv]%getStraightHigh_has_run. congruence. Qed.

Lemma straight_flush_yes A s v :
  getFlushSuit A = Some s →
  truthy (getStraightHigh (filter (λ c, suit c = s) A)) = Some v →
  has_straight_flush A.
Proof.
  intros Hs Hv. apply has_straight_flush_iff. exists s.
  split; [by apply flush_cards_length|by eapply run_yes].
Qed.

Lemma straight_flush_no_flush A : getFlushSuit A = None → ¬ has_straight_flush A.
Proof.
  intros H (s & Hs & _)%has_straight_flush_iff.
  pose proof (getFlushSuit_None_counts A s H). lia.
Qed.

Lemma straight_flush_no_straight A :
  truthy (getStraightHigh A) = None → ¬ has_straight_flush A.
Proof.
  intros H (s & _ & Hrun)%has_straight_flush_iff.
  apply (run_no A H). eapply has_run_subseteq; [|exact Hrun].
  intros c Hc. by apply list_elem_of_filter in Hc as [_ ?].
Qed.

Lemma straight_flush_no_run A s :
  (length A ≤ 9)%nat →
  getFlushSuit A = Some s →
  truthy (getStraightHigh (filter (λ c, suit c = s) A)) = None →
  ¬ has_straight_flush A.
Proof.
  intros Hlen Hs Hno (s' & Hs' & Hrun)%has_straight_flush_iff.
  assert (s = s') as <-.
  { eapply one_flush_suit; [exact Hlen| |exact Hs']. by apply flush_cards_length. }
  by apply (run_no _ Hno).
Qed.

Lemma kind_yes n A l : (0 < n)%nat → getNOfAKind A n = Some l → has_n_of_a_kind n A.
Proof.
  intros Hn H. apply has_n_of_a_kind_iff.
  apply getNOfAKind_sound in H as (r & _ & Hr); [|done]. by exists r.
Qed.

Lemma kind_no n A : (0 < n)%nat → getNOfAKind A n = None → ¬ has_n_of_a_kind n A.
Proof.
  intros Hn H [r Hr]%has_n_of_a_kind_iff.
  pose proof (getNOfAKind_counts_below A n Hn H r). unfold count_rank in Hr. lia.
Qed.

Lemma two_ranks_yes n m A t0 l l' :
  (0 < n)%nat → (0 < m)%nat →
  getNOfAKind A n = Some (t0 :: l) →
  getNOfAKind (filter (λ c, rank c ≠ rank t0) A) m = Some l' →
  has_two_ranks n m A.
Proof.
  intros Hn Hm H1 H2. apply has_two_ranks_iff.
  apply getNOfAKind_sound in H1 as (r & Hl & Hr); [|done].
  assert (rank t0 = r) as <-.
  { assert (t0 ∈ take n (filter (λ c, rank c = r) A)) as Hin by (rewrite <- Hl; left).
    by apply subseteq_take, list_elem_of_filter in Hin as [? _]. }
  apply getNOfAKind_sound in H2 as (r' & _ & Hr'); [|done].
  fold (count_rank (filter (λ c, rank c ≠ rank t0) A) r') in Hr'.
  assert (Hne : r' ≠ rank t0).
  { intros ->. unfold count_rank in Hr'.
    rewrite (list_filter_filter (λ c, rank c = rank t0)) in Hr'.
    rewrite filter_none in Hr'; [simpl in Hr'; lia|]. naive_solver. }
  rewrite count_rank_others in Hr' by done.
  exists (rank t0), r'. done.
Qed.

Lemma two_ranks_no_first n m A :
  (0 < n)%nat → getNOfAKind A n = None → ¬ has_two_ranks n m A.
Proof.
  intros Hn H (r & r' & _ & Hr & _)%has_two_ranks_iff.
  pose proof (getNOfAKind_counts_below A n Hn H r). unfold count_rank in Hr. lia.
Qed.

Lemma two_ranks_no_second n m A (r0 : Rank) :
  (0 < m)%nat → (m ≤ n)%nat →
  getNOfAKind (filter (λ c, rank c ≠ r0) A) m = None →
  ¬ has_two_ranks n m A.
Proof.
  intros Hm Hmn H (r & r' & Hne & Hr & Hr')%has_two_ranks_iff.
  pose proof (getNOfAKind_counts_below _ m Hm H) as Hbelow.
  destruct (decide (r = r0)) as [->|Hr0].
  - specialize (Hbelow r'). fold (count_rank (filter (λ c, rank c ≠ r0) A) r') in Hbelow.
    rewrite count_rank_others in Hbelow by done. lia.
  - specialize (Hbelow r). fold (count_rank (filter (λ c, rank c ≠ r0) A) r) in Hbelow.
    rewrite count_rank_others in Hbelow by done. lia.
Qed.

(** *** The rank a score names *)

(** The run [getStraightHigh] reports is the highest one. *)
Lemma getStraightHigh_top cards t :
  getStraightHigh cards = Some t →
  run_from (value <$> cards) t ∧ ∀ t', t < t' → ¬ run_from (value <$> cards) t'.
Proof.
  rewrite getStraightHigh_highest_run. unfold highest_run.
  destruct (find_down_from (run_fromb (uniqueValues cards)) 10 14) as [HS _].
  assert (Hext : ∀ h, run_from (uniqueValues cards) h ↔ run_from (value <$> cards) h).
  { intros h. apply run_from_ext, elem_of_uniqueValues. }
  intros (Hr & Hf & Hmax)%HS. apply run_fromb_spec, Hext in Hf. split; [done|].
  intros t' Hlt Hrun. pose proof (run_from_bounds _ _ Hrun).
  specialize (Hmax t' ltac:(lia)). apply not_run_fromb in Hmax.
  by apply Hmax, Hext.
Qed.

Lemma run_from_Permutation (A B : list Card) t :
  A ≡ₚ B → run_from (value <$> A) t ↔ run_from (value <$> B) t.
Proof. intros Hp. apply run_from_ext. intros v. by rewrite Hp. Qed.

Lemma sorted_filter {A} (R : relation A) (P : A → Prop) `{!∀ x, Decision (P x)}
    (l : list A) :
  StronglySorted R l → StronglySorted R (filter P l).
Proof.
  induction 1 as [|y l Hl IH Hy]; [constructor|].
  destruct (decide (P y)).
  - rewrite filter_cons_True by done. constructor; [done|].
    apply Forall_forall. intros z Hz. apply list_elem_of_filter in Hz as [_ Hz].
    rewrite Forall_forall in Hy. by apply Hy.
  - by rewrite filter_cons_False.
Qed.

(** The head of a list sorted by value is a highest card of it. *)
Lemma sorted_head_max (x : Card) (l : list Card) :
  StronglySorted (λ a b, value b ≤ value a) (x :: l) →
  ∀ y, y ∈ x :: l → value y ≤ value x.
Proof.
  intros [Hx _]%StronglySorted_cons y [->|Hy]%elem_of_cons; [lia|].
  rewrite Forall_forall in Hx. by apply Hx.
Qed.

(** The rank [getNOfAKind] picks, when no other rank has as many cards. *)
Lemma getNOfAKind_the_rank n A t0 l r :
  (0 < n)%nat →
  getNOfAKind A n = Some (t0 :: l) →
  (n ≤ count_rank A r)%nat →
  (∀ r', r' ≠ r → (count_rank A r' < n)%nat) →
  rank t0 = r.
Proof.
  intros Hn H Hr Hothers.
  apply getNOfAKind_sound in H as (r0 & Hl & Hr0); [|done].
  assert (rank t0 = r0) as <-.
  { assert (t0 ∈ take n (filter (λ c, rank c = r0) A)) as Hin by (rewrite <- Hl; left).
    by apply subseteq_take, list_elem_of_filter in Hin as [? _]. }
  destruct (decide (rank t0 = r)) as [|Hne]; [done|].
  specialize (Hothers _ Hne). unfold count_rank in Hothers. lia.
Qed.

(** The same, when no other rank has [m] cards among the other cards. *)
Lemma getNOfAKind_the_only_rank n m A t0 l r :
  (0 < n)%nat → (0 < m)%nat → (m ≤ n)%nat →
  getNOfAKind A n = Some (t0 :: l) →
  getNOfAKind (filter (λ c, rank c ≠ rank t0) A) m = None →
  (n ≤ count_rank A r)%nat →
  rank t0 = r.
Proof.
  intros Hn Hm Hmn H Hnone Hr.
  destruct (decide (rank t0 = r)) as [|Hne]; [done|exfalso].
  pose proof (getNOfAKind_counts_below _ m Hm Hnone r) as Hbelow.
  fold (count_rank (filter (λ c, rank c ≠ rank t0) A) r) in Hbelow.
  rewrite count_rank_others in Hbelow by done. lia.
Qed.

End CategoryFacts.

Section category.

Import EvaluatorFacts EvaluatorMore CategoryFacts.

(** X26. With at most nine cards, the category [evaluateHand] names is
    the best one the cards hold by the rules of the game: Straight Flush
    when five cards of one suit hold five consecutive values (an ace
    counting as 14 and as 1), else Four of a Kind when a rank has four
    cards, else Full House when a rank has three and another has two,
    else Flush, Straight, Three of a Kind, Two Pair, Pair, and High Card
    when none applies. *)
Theorem evaluateHand_names_the_best_category (h c : list Card) (e : HandEvaluation) :
  (length (h ++ c) ≤ 9)%nat →
  evaluateHand h c = Some e →
  rankName e = category (h ++ c).
Proof.
  intros Hlen H.
  rewrite <- (category_Permutation _ _ (sort_desc_Permutation value (h ++ c))).
  assert (Hlen' : (length (sort_desc value (h ++ c)) ≤ 9)%nat)
    by (by rewrite sort_desc_Permutation).
  invert_evaluateHand H; cbn [rankName].
  all: repeat match goal with
       | Hf : filter (λ c, suit c = ?s) ?l = _ :: _ |- _ => rewrite <- Hf in *; clear Hf
       end.
  all: unfold category.
  all: repeat first
       [ rewrite (decide_True (P := has_straight_flush _))
           by eauto using straight_flush_yes
       | rewrite (decide_False (P := has_straight_flush _))
           by eauto using straight_flush_no_flush, straight_flush_no_straight,
                          straight_flush_no_run
       | rewrite (decide_True (P := has_n_of_a_kind _ _))
           by (eapply kind_yes; [|eassumption]; lia)
       | rewrite (decide_False (P := has_n_of_a_kind _ _))
           by (eapply kind_no; [|eassumption]; lia)
       | rewrite (decide_True (P := has_two_ranks _ _ _))
           by (eapply two_ranks_yes; [| |eassumption|eassumption]; lia)
       | rewrite (decide_False (P := has_two_ranks _ _ _))
           by first [ eapply two_ranks_no_first; [|eassumption]; lia
                    | eapply two_ranks_no_second; [| |eassumption]; lia ]
       | rewrite (decide_True (P := has_flush _)) by eauto using flush_yes
       | rewrite (decide_False (P := has_flush _)) by eauto using flush_no
       | rewrite (decide_True (P := has_run _)) by eauto using run_yes
       | rewrite (decide_False (P := has_run _)) by eauto using run_no ].
  all: done.
Qed.

Lemma evaluateHand_names_the_best_category_witness :
  ∃ e, (length (ace_king ++ ace_board) ≤ 9)%nat ∧
       evaluateHand ace_king ace_board = Some e ∧
       rankName e = category (ace_king ++ ace_board).
Proof.
  eexists.
  assert (H9 : (length (ace_king ++ ace_board) ≤ 9)%nat) by (simpl; lia).
  assert (H1 : evaluateHand ace_king ace_board
               = Some (mkEval 114 "Pair"
                   (Some <$> [card Ace Hearts; card Ace Spades; card King Diamonds;
                              card Eight Diamonds; card Seven Clubs]))) by reflexivity.
  split; [exact H9|]. split; [exact H1|].
  exact (evaluateHand_names_the_best_category _ _ _ H9 H1).
Defined.

(** X27. The score names the rank that makes the hand. High Card: the
    highest card. Pair and Three of a Kind: the rank that has the two or
    three cards. Straight and Straight Flush: the top of the highest run,
    among all cards and among the cards of the flush suit. Flush: the
    highest card of the flush suit. Full House and Four of a Kind: the
    rank with three or four cards, when it is the only such rank. *)
Theorem score_names_the_leading_rank (h c : list Card) (e : HandEvaluation) :
  evaluateHand h c = Some e →
  (rankName e = "High Card" →
   ∃ x, x ∈ h ++ c ∧ score e = value x ∧ ∀ y, y ∈ h ++ c → value y ≤ value x) ∧
  (rankName e = "Pair" →
   ∀ r, (2 ≤ count_rank (h ++ c) r)%nat → score e = 100 + RANK_VALUE r) ∧
  (rankName e = "Three of a Kind" →
   ∀ r, (3 ≤ count_rank (h ++ c) r)%nat → score e = 300 + RANK_VALUE r) ∧
  (rankName e = "Straight" →
   ∃ t, score e = 400 + t ∧ run_from (value <$> h ++ c) t ∧
        ∀ t', t < t' → ¬ run_from (value <$> h ++ c) t') ∧
  (rankName e = "Flush" →
   ∃ s x, (5 ≤ count_suit (h ++ c) s)%nat ∧ x ∈ h ++ c ∧ suit x = s ∧
          score e = 500 + value x ∧
          ∀ y, y ∈ h ++ c → suit y = s → value y ≤ value x) ∧
  (rankName e = "Full House" →
   ∀ r, (3 ≤ count_rank (h ++ c) r)%nat →
        (∀ r', r' ≠ r → (count_rank (h ++ c) r' < 3)%nat) →
        score e = 600 + RANK_VALUE r) ∧
  (rankName e = "Four of a Kind" →
   ∀ r, (4 ≤ count_rank (h ++ c) r)%nat →
        (∀ r', r' ≠ r → (count_rank (h ++ c) r' < 4)%nat) →
        score e = 700 + RANK_VALUE r) ∧
  (rankName e = "Straight Flush" →
   ∃ s t, (5 ≤ count_suit (h ++ c) s)%nat ∧ score e = 800 + t ∧
          run_from (value <$> filter (λ x, suit x = s) (h ++ c)) t ∧
          ∀ t', t < t' → ¬ run_from (value <$> filter (λ x, suit x = s) (h ++ c)) t').
Proof.
  intros H.
  pose proof (sort_desc_Permutation value (h ++ c)) as Hp.
  pose proof (sort_desc_sorted value (h ++ c)) as Hsorted.
  assert (Hrank : ∀ r, count_rank (h ++ c) r = count_rank (sort_desc value (h ++ c)) r).
  { intros r. symmetry. by apply count_rank_Permutation. }
  assert (Hsuit : ∀ s, count_suit (h ++ c) s = count_suit (sort_desc value (h ++ c)) s).
  { intros s. symmetry. by apply count_suit_Permutation. }
  invert_evaluateHand H; cbn [rankName score].
  all: split_and!; try discriminate; intros _.
  all: try match goal with
       | Hq : getNOfAKind _ 4 = Some (?q0 :: _) |- ∀ r, (4 ≤ _)%nat → _ =>
           intros r Hr Hothers; rewrite Hrank in Hr;
           rewrite <- (getNOfAKind_the_rank 4 _ q0 _ r ltac:(lia) Hq Hr); [done|];
           intros r' Hr'; rewrite <- Hrank; by apply Hothers
       | Ht : getNOfAKind _ 3 = Some (?t0 :: _) |- ∀ r, (3 ≤ _)%nat → (∀ r', _) → _ =>
           intros r Hr Hothers; rewrite Hrank in Hr;
           rewrite <- (getNOfAKind_the_rank 3 _ t0 _ r ltac:(lia) Ht Hr); [done|];
           intros r' Hr'; rewrite <- Hrank; by apply Hothers
       | Ht : getNOfAKind _ 3 = Some (?t0 :: _),
         Hn : getNOfAKind (filter _ _) 2 = None |- ∀ r, (3 ≤ _)%nat → _ =>
           intros r Hr; rewrite Hrank in Hr;
           by rewrite <- (getNOfAKind_the_only_rank 3 2 _ t0 _ r
                            ltac:(lia) ltac:(lia) ltac:(lia) Ht Hn Hr)
       | Ht : getNOfAKind _ 2 = Some (?t0 :: _),
         Hn : getNOfAKind (filter _ _) 2 = None |- ∀ r, (2 ≤ _)%nat → _ =>
           intros r Hr; rewrite Hrank in Hr;
           by rewrite <- (getNOfAKind_the_only_rank 2 2 _ t0 _ r
                            ltac:(lia) ltac:(lia) ltac:(lia) Ht Hn Hr)
       end.
  all: try match goal with
       | Hs : getFlushSuit _ = Some ?s,
         Hv : truthy (getStraightHigh (filter _ _)) = Some ?t |- ∃ s0 t0, _ ∧ 800 + _ = _ ∧ _ =>
           exists s, t; rewrite Hsuit;
           split; [by apply flush_cards_length|]; split; [done|];
           apply truthy_Some, getStraightHigh_top in Hv as [Hrun Hmax];
           assert (Hpf : filter (λ x, suit x = s) (sort_desc value (h ++ c))
                         ≡ₚ filter (λ x, suit x = s) (h ++ c)) by (by rewrite Hp);
           split; [by apply (run_from_Permutation _ _ _ Hpf)|];
           intros t' Hlt Hrun'; apply (Hmax t' Hlt);
           by apply (run_from_Permutation _ _ _ Hpf)
       | Hv : truthy (getStraightHigh _) = Some ?t |- ∃ t0, 400 + _ = _ ∧ _ =>
           exists t; split; [done|];
           apply truthy_Some, getStraightHigh_top in Hv as [Hrun Hmax];
           split; [by apply (run_from_Permutation _ _ _ Hp)|];
           intros t' Hlt Hrun'; apply (Hmax t' Hlt);
           by apply (run_from_Permutation _ _ _ Hp)
       | Hs : getFlushSuit _ = Some ?s,
         Hf : filter _ (sort_desc value _) = ?x :: _ |- ∃ s0 x0, _ ∧ _ ∧ _ ∧ 500 + _ = _ ∧ _ =>
           exists s, x; rewrite Hsuit;
           assert (Hx : x ∈ filter (λ c0, suit c0 = s) (sort_desc value (h ++ c)))
             by (rewrite Hf; left);
           apply list_elem_of_filter in Hx as [Hxs Hx];
           split; [by apply flush_cards_length|];
           split; [by rewrite <- Hp|]; split; [done|]; split; [done|];
           intros y Hy Hys;
           apply (sorted_head_max x) with (l := tl (filter (λ c0, suit c0 = s)
                                                     (sort_desc value (h ++ c))));
           [ rewrite Hf; cbn [tl]; rewrite <- Hf; by apply sorted_filter
           | rewrite Hf; cbn [tl]; rewrite <- Hf;
             apply list_elem_of_filter; split; [done|by rewrite Hp] ]
       | Ha : sort_desc value _ = ?x :: ?l |- ∃ x0, _ ∧ value _ = _ ∧ _ =>
           exists x; split; [rewrite <- Hp; left|]; split; [done|];
           intros y Hy; apply (sorted_head_max x l Hsorted); by rewrite Hp
       end.
Qed.

Lemma score_names_the_leading_rank_witness :
  ∃ e, evaluateHand ace_king ace_board = Some e ∧
       rankName e = "Pair" ∧
       (2 ≤ count_rank (ace_king ++ ace_board) Ace)%nat ∧
       score e = 100 + RANK_VALUE Ace.
Proof.
  eexists.
  assert (H1 : evaluateHand ace_king ace_board
               = Some (mkEval 114 "Pair"
                   (Some <$> [card Ace Hearts; card Ace Spades; card King Diamonds;
                              card Eight Diamonds; card Seven Clubs]))) by reflexivity.
  assert (H2 : (2 ≤ count_rank (ace_king ++ ace_board) Ace)%nat) by (vm_compute; lia).
  split; [exact H1|]. split; [reflexivity|]. split; [exact H2|].
  destruct (score_names_the_leading_rank _ _ _ H1) as (_ & Hpair & _).
  exact (Hpair eq_refl Ace H2).
Defined.

End category.

(* ===================================================================== *)
(** * Hands that compare equal *)
(* ===================================================================== *)

Module TieFacts.

Import EvaluatorFacts EvaluatorMore CategoryFacts.

(** A Straight scores 400 plus the top of the run [getStraightHigh]
    found among all the cards, and reports the five highest cards. *)
Lemma evaluateHand_Straight_cards h c e :
  evaluateHand h c = Some e → rankName e = "Straight" →
  ∃ sh, getStraightHigh (sort_desc value (h ++ c)) = Some sh ∧
        score e = 400 + sh ∧
        bestFive e = Some <$> take 5 (sort_desc value (h ++ c)).
Proof.
  intros H Hs. invert_evaluateHand H; simpl in *; try discriminate.
  all: match goal with
       | Ht : truthy _ = Some ?sh |- _ =>
           exists sh; split; [by apply truthy_Some|done]
       end.
Qed.

(** A Straight Flush scores 800 plus the top of the run found among the
    cards of the flush suit, and reports the five highest of them. *)
Lemma evaluateHand_Straight_Flush_cards h c e :
  evaluateHand h c = Some e → rankName e = "Straight Flush" →
  ∃ s sh,
    getStraightHigh (filter (λ x, suit x = s) (sort_desc value (h ++ c))) = Some sh ∧
    score e = 800 + sh ∧
    bestFive e = Some <$> take 5 (filter (λ x, suit x = s) (sort_desc value (h ++ c))).
Proof.
  intros H Hs. invert_evaluateHand H; simpl in *; try discriminate.
  all: match goal with
       | Ht : truthy (getStraightHigh (filter (λ c0, suit c0 = ?s) _)) = Some ?sh |- _ =>
           exists s, sh; split; [by apply truthy_Some|done]
       end.
Qed.

(** With the same five values on top and at most two values below them,
    a run of the one list that tops a run of the other is a run of the
    other as well. *)
Lemma run_transfer (T L1 L2 : list Z) a b :
  length T = 5%nat → (length L2 ≤ 2)%nat →
  (∀ x y, x ∈ L1 → y ∈ T → x ≤ y) →
  (∀ y, y ∈ T → y ≤ 14) →
  run_from (T ++ L1) a → run_from (T ++ L2) b → b < a → 5 ≤ b →
  run_from (T ++ L2) a.
Proof.
  intros HT HL2 Hlow1 Hmax Ha Hb Hlt Hb5 k Hk.
  destruct (Ha k Hk) as [Hin|[Hone Hace]].
  - apply elem_of_app in Hin as [Hin|Hin]; [left; apply elem_of_app; by left|].
    destruct (decide (a - k ∈ T)) as [|HnT]; [left; apply elem_of_app; by left|].
    destruct (decide (a - k ≤ b)) as [Hle|Hgt].
    { replace (a - k) with (b - (b - (a - k))) by lia. apply Hb. lia. }
    exfalso.
    assert (Hbelow : ∀ y, y ∈ T → a - k < y).
    { intros y Hy. specialize (Hlow1 _ _ Hin Hy).
      destruct (decide (a - k = y)) as [E|]; [|lia]. rewrite E in HnT. done. }
    assert (HinL2 : ∀ j, 0 ≤ j < 3 → b - j ∈ L2).
    { intros j Hj. destruct (Hb j ltac:(lia)) as [Hin2|[H1 _]]; [|lia].
      apply elem_of_app in Hin2 as [Hin2|]; [|done].
      specialize (Hbelow _ Hin2). lia. }
    pose proof (HinL2 0 ltac:(lia)) as H0.
    pose proof (HinL2 1 ltac:(lia)) as H1.
    pose proof (HinL2 2 ltac:(lia)) as H2.
    destruct L2 as [|x [|y [|z ?]]]; simpl in HL2; [| | |lia].
    + by apply not_elem_of_nil in H0.
    + apply list_elem_of_singleton in H0, H1. lia.
    + rewrite !elem_of_cons, elem_of_nil in H0, H1, H2. lia.
  - right. split; [done|].
    apply elem_of_app in Hace as [Hace|Hace]; [apply elem_of_app; by left|].
    destruct T as [|y T]; [done|].
    assert (Hy : y ∈ y :: T) by left.
    pose proof (Hlow1 _ _ Hace Hy). pose proof (Hmax _ Hy).
    assert (y = 14) as -> by lia. apply elem_of_app. by left.
Qed.

Lemma highest_run_spec (l : list Card) t :
  getStraightHigh l = Some t →
  5 ≤ t ≤ 14 ∧ run_from (value <$> l) t ∧
  ∀ t', t < t' ≤ 14 → ¬ run_from (value <$> l) t'.
Proof.
  rewrite getStraightHigh_highest_run. unfold highest_run. intros H.
  apply (proj1 (find_down_from _ 10 14)) in H as (Hr & Hf & Hmax).
  assert (Hext : ∀ v, v ∈ uniqueValues l ↔ v ∈ value <$> l)
    by (intros v; apply elem_of_uniqueValues).
  split; [simpl in Hr; lia|]. split.
  - apply (run_from_ext _ _ _ Hext). by apply run_fromb_spec.
  - intros t' Ht' Hrun. apply (run_from_ext _ _ _ Hext), run_fromb_spec in Hrun.
    rewrite Hmax in Hrun by done. done.
Qed.

Lemma values_of_ranks (l l' : list Card) :
  rank <$> l = rank <$> l' → value <$> l = value <$> l'.
Proof.
  intros H. apply (f_equal (fmap RANK_VALUE)) in H.
  by rewrite <- !list_fmap_compose in H.
Qed.

(** Among at most seven cards in descending order, the five on top
    decide the top of the highest run, whenever there is a run. *)
Lemma same_top_five_same_run (l1 l2 : list Card) t1 t2 :
  StronglySorted (λ a b, value b ≤ value a) l1 →
  StronglySorted (λ a b, value b ≤ value a) l2 →
  (length l1 ≤ 7)%nat → (length l2 ≤ 7)%nat →
  rank <$> take 5 l1 = rank <$> take 5 l2 →
  getStraightHigh l1 = Some t1 → getStraightHigh l2 = Some t2 → t1 = t2.
Proof.
  intros Hs1 Hs2 Hl1 Hl2 Htop H1 H2.
  apply values_of_ranks in Htop.
  assert (Hlen : length (take 5 l1) = length (take 5 l2)).
  { by rewrite <- (length_fmap value (take 5 l1)), Htop, length_fmap. }
  rewrite !length_take in Hlen.
  destruct (decide (length l1 < 5)%nat) as [Hshort|Hlong].
  { assert (Hv : value <$> l1 = value <$> l2).
    { rewrite <- (take_ge l1 5), <- (take_ge l2 5) by lia. done. }
    unfold getStraightHigh, uniqueValues in H1, H2. rewrite Hv in H1. congruence. }
  apply highest_run_spec in H1 as (Hb1 & Hr1 & Hm1).
  apply highest_run_spec in H2 as (Hb2 & Hr2 & Hm2).
  assert (Hsplit : ∀ l : list Card, value <$> l = (value <$> take 5 l) ++ (value <$> drop 5 l)).
  { intros l. by rewrite <- fmap_app, take_drop. }
  assert (Hlow : ∀ l : list Card, StronglySorted (λ a b, value b ≤ value a) l →
            ∀ x y, x ∈ value <$> drop 5 l → y ∈ value <$> take 5 l → x ≤ y).
  { intros l Hs x y Hx Hy.
    apply list_elem_of_fmap in Hx as (cx & -> & Hcx).
    apply list_elem_of_fmap in Hy as (cy & -> & Hcy).
    rewrite <- (take_drop 5 l) in Hs.
    by apply (StronglySorted_app_1_elem_of _ _ _ cy cx Hs). }
  assert (Hmax : ∀ l : list Card, ∀ y, y ∈ value <$> l → y ≤ 14).
  { intros l y Hy. apply list_elem_of_fmap in Hy as (c & -> & _).
    pose proof (value_bounds c). lia. }
  rewrite (Hsplit l1) in Hr1, Hm1. rewrite (Hsplit l2) in Hr2, Hm2.
  destruct (Z.lt_trichotomy t1 t2) as [Hlt|[Heq|Hgt]]; [exfalso|done|exfalso].
  - apply (Hm1 t2); [lia|]. rewrite Htop.
    eapply (run_transfer _ (value <$> drop 5 l2)); [| | | |exact Hr2| |done|lia].
    + rewrite length_fmap, length_take. lia.
    + rewrite length_fmap, length_drop. lia.
    + by apply Hlow.
    + apply Hmax.
    + by rewrite <- Htop.
  - apply (Hm2 t1); [lia|]. rewrite <- Htop.
    eapply (run_transfer _ (value <$> drop 5 l1)); [| | | |exact Hr1| |done|lia].
    + rewrite length_fmap, length_take. lia.
    + rewrite length_fmap, length_drop. lia.
    + by apply Hlow.
    + apply Hmax.
    + by rewrite Htop.
Qed.

Lemma ranks_of_cards (l l' : list Card) :
  fmap rank <$> (Some <$> l) = fmap rank <$> (Some <$> l') → rank <$> l = rank <$> l'.
Proof.
  revert l'. induction l as [|x l IH]; intros [|x' l'] H; try done.
  rewrite !fmap_cons in H. injection H as Hx H.
  rewrite !fmap_cons. f_equal; [done|by apply IH].
Qed.

End TieFacts.

Section tie_claims.

Import EvaluatorFacts EvaluatorMore CategoryFacts TieFacts.

(** C2, amended. The comparison key is the one number [score]: the
    category base plus one rank value. Two evaluated hands of the same
    category (other than Straight and Straight Flush, which have no
    kicker) whose [bestFive] start with the same rank have equal scores,
    whatever their other groups and their kickers: no kicker orders two
    hands. And two evaluated hands of at most seven cards each with the
    same category and the same ranks throughout [bestFive], the primary
    ranks and the kickers as [evaluateHand] reports them, have equal
    scores, in every category. *)
Theorem score_ignores_kickers :
  (∀ h1 c1 h2 c2 e1 e2 k1 k2,
     evaluateHand h1 c1 = Some e1 → evaluateHand h2 c2 = Some e2 →
     rankName e1 = rankName e2 →
     rankName e1 ≠ "Straight" → rankName e1 ≠ "Straight Flush" →
     bestFive e1 !! 0%nat = Some (Some k1) → bestFive e2 !! 0%nat = Some (Some k2) →
     rank k1 = rank k2 →
     score e1 = score e2) ∧
  (∀ h1 c1 h2 c2 e1 e2,
     (length (h1 ++ c1) ≤ 7)%nat → (length (h2 ++ c2) ≤ 7)%nat →
     evaluateHand h1 c1 = Some e1 → evaluateHand h2 c2 = Some e2 →
     rankName e1 = rankName e2 →
     fmap (M := option) rank <$> bestFive e1 = fmap (M := option) rank <$> bestFive e2 →
     score e1 = score e2).
Proof.
  assert (Hlead : ∀ h1 c1 h2 c2 e1 e2 k1 k2,
     evaluateHand h1 c1 = Some e1 → evaluateHand h2 c2 = Some e2 →
     rankName e1 = rankName e2 →
     rankName e1 ≠ "Straight" → rankName e1 ≠ "Straight Flush" →
     bestFive e1 !! 0%nat = Some (Some k1) → bestFive e2 !! 0%nat = Some (Some k2) →
     rank k1 = rank k2 →
     score e1 = score e2).
  { intros h1 c1 h2 c2 e1 e2 k1 k2 H1 H2 Hn Hs Hsf Hk1 Hk2 Hr.
    destruct (evaluateHand_leading_card _ _ _ H1 Hs Hsf) as (a1 & b1 & Ha1 & Hb1 & ->).
    rewrite Hn in Hs, Hsf.
    destruct (evaluateHand_leading_card _ _ _ H2 Hs Hsf) as (a2 & b2 & Ha2 & Hb2 & ->).
    rewrite Hn in Hb1. simplify_eq. f_equal. by apply value_rank. }
  split; [exact Hlead|].
  intros h1 c1 h2 c2 e1 e2 Hl1 Hl2 H1 H2 Hn Hfive.
  assert (Hsorted : ∀ l : list Card, StronglySorted (λ a b, value b ≤ value a)
                                        (sort_desc value l))
    by (intros l; apply sort_desc_sorted).
  destruct (decide (rankName e1 = "Straight")) as [Hs|Hs].
  { destruct (evaluateHand_Straight_cards _ _ _ H1 Hs) as (sh1 & Hg1 & -> & Hb1).
    rewrite Hn in Hs.
    destruct (evaluateHand_Straight_cards _ _ _ H2 Hs) as (sh2 & Hg2 & -> & Hb2).
    rewrite Hb1, Hb2 in Hfive. apply ranks_of_cards in Hfive. f_equal.
    eapply (same_top_five_same_run _ _ _ _ (Hsorted _) (Hsorted _)); [| |done|done|done].
    - by rewrite sort_desc_Permutation.
    - by rewrite sort_desc_Permutation. }
  destruct (decide (rankName e1 = "Straight Flush")) as [Hsf|Hsf].
  { destruct (evaluateHand_Straight_Flush_cards _ _ _ H1 Hsf)
      as (s1 & sh1 & Hg1 & -> & Hb1).
    rewrite Hn in Hsf.
    destruct (evaluateHand_Straight_Flush_cards _ _ _ H2 Hsf)
      as (s2 & sh2 & Hg2 & -> & Hb2).
    rewrite Hb1, Hb2 in Hfive. apply ranks_of_cards in Hfive. f_equal.
    eapply (same_top_five_same_run _ _ _ _
              (sorted_filter _ _ _ (Hsorted _)) (sorted_filter _ _ _ (Hsorted _)));
      [| |done|done|done].
    - etrans; [apply length_filter|]. by rewrite sort_desc_Permutation.
    - etrans; [apply length_filter|]. by rewrite sort_desc_Permutation. }
  destruct (evaluateHand_leading_card _ _ _ H1 Hs Hsf) as (a1 & b1 & Ha1 & _ & _).
  pose proof Hs as Hs'. pose proof Hsf as Hsf'. rewrite Hn in Hs', Hsf'.
  destruct (evaluateHand_leading_card _ _ _ H2 Hs' Hsf') as (a2 & b2 & Ha2 & _ & _).
  apply (Hlead h1 c1 h2 c2 e1 e2 a1 a2); try done.
  assert (Hz : (fmap (M := option) rank <$> bestFive e1) !! 0%nat
                = (fmap (M := option) rank <$> bestFive e2) !! 0%nat)
    by (by rewrite Hfive).
  rewrite !list_lookup_fmap, Ha1, Ha2 in Hz. by simplify_eq/=.
Qed.

(** The theorem at the two pairs of aces above, with a king and with a
    queen, and at two pairs of aces with a king each. *)
Lemma score_ignores_kickers_witness :
  ∃ ek eq ek',
    evaluateHand ace_king ace_board = Some ek ∧
    evaluateHand ace_queen ace_board = Some eq ∧
    evaluateHand ace_king_too ace_board = Some ek' ∧
    bestFive ek !! 2%nat ≠ bestFive eq !! 2%nat ∧
    score ek = score eq ∧
    score ek = score ek'.
Proof.
  eexists _, _, _.
  split; [vm_compute; reflexivity|]. split; [vm_compute; reflexivity|].
  split; [vm_compute; reflexivity|].
  split; [simpl; congruence|]. split.
  - eapply (proj1 score_ignores_kickers ace_king ace_board ace_queen ace_board).
    + vm_compute; reflexivity.
    + vm_compute; reflexivity.
    + reflexivity.
    + simpl; congruence.
    + simpl; congruence.
    + reflexivity.
    + reflexivity.
    + reflexivity.
  - eapply (proj2 score_ignores_kickers ace_king ace_board ace_king_too ace_board).
    + simpl; lia.
    + simpl; lia.
    + vm_compute; reflexivity.
    + vm_compute; reflexivity.
    + reflexivity.
    + reflexivity.
Defined.

End tie_claims.
